(** * Movement-to-onomatopoeia survey front end: step sequencer, sheet
      service, bubble positioner and survey save path.

    A shallow embedding of
    - [src/js/tutorialStepManager.js]   (class [TutorialStepManager]),
    - the tutorial controller's wiring of it ([nextStep], [previousStep],
      [checkStepValidation], [initializeTutorial]),
    - the sheet service ([withRetry], the four store operations,
      [findRows], [findRow], [transformRowToObject], [transformObjectToRow],
      [saveOnomatopoeia]),
    - [BubblePositioner] ([generatePositionStrategies], [findBestPosition],
      [constrainToViewport]),
    - [SurveyApp.saveOnomatopoeia] and [SurveyApp.handleNoOnomatopoeia]
      with [ValidationUtils.validateOnomatopoeiaData].

    Conventions.  JavaScript numbers are modelled exactly: a finite number
    is a rational ([Q]), next to [NaN] and the two infinities; rounding of
    IEEE doubles is not modelled.  Step numbers are integers ([Z]).
    Strings are Rocq strings; lower-casing and white space are those of the
    ASCII range, so a statement about letter case or blankness is made for
    ASCII strings ([ascii_only]), and a statement about exact integers for
    integers below 2^53.  A callback is a function on the state of whoever
    owns the object, so that a callback may call back into the object. *)

From Stdlib Require Import ZArith QArith Qminmax Qround String Ascii List Bool Lia.
From Stdlib Require Import DecimalString Sorted Qabs Lqa.
From stdpp Require Import base gmap strings list.

Import ListNotations.
Local Open Scope string_scope.
Local Open Scope Z_scope.

(* ===================================================================== *)
(** * JavaScript values                                                   *)
(* ===================================================================== *)

Module Js.

Inductive Number : Type :=
| NaN
| PosInf
| NegInf
| Fin (q : Q).

(** The primitive values the modelled code handles, and one kind of opaque
    object (a recorded audio [Blob]). *)
Inductive Value : Type :=
| VUndefined
| VNull
| VBool (b : bool)
| VNum (n : Number)
| VStr (s : string)
| VBlob.

Definition num (z : Z) : Value := VNum (Fin (inject_Z z)).

(** ToBoolean. *)
Definition truthy (v : Value) : bool :=
  match v with
  | VUndefined | VNull => false
  | VBool b => b
  | VNum NaN => false
  | VNum (Fin q) => negb (Qeq_bool q 0)
  | VNum _ => true
  | VStr s => negb (String.eqb s EmptyString)
  | VBlob => true
  end.

(** [a || b] *)
Definition or_else (a b : Value) : Value := if truthy a then a else b.

(** ** Characters *)

Definition is_space (c : ascii) : bool :=
  let n := nat_of_ascii c in
  ((n =? 32) || (n =? 9) || (n =? 10) || (n =? 11) || (n =? 12) || (n =? 13))%nat.

Definition digit_of (c : ascii) : option Z :=
  let n := Z.of_nat (nat_of_ascii c) in
  if (48 <=? n) && (n <=? 57) then Some (n - 48) else None.

Definition hex_digit_of (c : ascii) : option Z :=
  let n := Z.of_nat (nat_of_ascii c) in
  if (48 <=? n) && (n <=? 57) then Some (n - 48)
  else if (97 <=? n) && (n <=? 102) then Some (n - 87)
  else if (65 <=? n) && (n <=? 70) then Some (n - 55)
  else None.

Definition lower_char (c : ascii) : ascii :=
  let n := nat_of_ascii c in
  if ((65 <=? n) && (n <=? 90))%nat then ascii_of_nat (n + 32) else c.

(** [String.prototype.toLowerCase] *)
Fixpoint toLowerCase (s : string) : string :=
  match s with
  | EmptyString => EmptyString
  | String c r => String (lower_char c) (toLowerCase r)
  end.

Fixpoint skip_spaces (s : string) : string :=
  match s with
  | String c r => if is_space c then skip_spaces r else s
  | EmptyString => s
  end.

Definition rev_string (s : string) : string :=
  string_of_list_ascii (List.rev (list_ascii_of_string s)).

(** [String.prototype.trim] *)
Definition trim (s : string) : string :=
  rev_string (skip_spaces (rev_string (skip_spaces s))).

(** The strings on which the model of [toLowerCase] and [trim] is the
    JavaScript function: every character is in the ASCII range. *)
Definition ascii_only (s : string) : bool :=
  forallb (fun c => (nat_of_ascii c <? 128)%nat) (list_ascii_of_string s).

Definition is_upper (c : ascii) : bool :=
  let n := nat_of_ascii c in ((65 <=? n) && (n <=? 90))%nat.

(** Two characters are the same, or the same letter in the two cases. *)
Definition same_letter (a b : ascii) : bool :=
  Ascii.eqb a b
  || (is_upper a && (nat_of_ascii b =? nat_of_ascii a + 32)%nat)
  || (is_upper b && (nat_of_ascii a =? nat_of_ascii b + 32)%nat).

(** Two strings are equal up to the case of their letters. *)
Fixpoint eq_ignore_case (a b : string) : bool :=
  match a, b with
  | EmptyString, EmptyString => true
  | String x a', String y b' => same_letter x y && eq_ignore_case a' b'
  | _, _ => false
  end.

(** A string is empty or made of space, tab, line feed, vertical tab, form
    feed and carriage return only. *)
Definition all_white_space (s : string) : bool :=
  forallb is_space (list_ascii_of_string s).

(** The longest prefix of digits in base [base], as (value, number of
    digits, rest). *)
Fixpoint read_digits (digit : ascii -> option Z) (base : Z) (acc : Z) (count : nat)
    (s : string) : Z * nat * string :=
  match s with
  | String c r =>
      match digit c with
      | Some d => read_digits digit base (base * acc + d) (S count) r
      | None => (acc, count, s)
      end
  | EmptyString => (acc, count, s)
  end.

Definition read_sign (s : string) : bool * string :=
  match s with
  | String "-" r => (true, r)
  | String "+" r => (false, r)
  | _ => (false, s)
  end.

Definition signed (neg : bool) (q : Q) : Q := if neg then Qopp q else q.

Fixpoint has_prefix (p s : string) : bool :=
  match p, s with
  | EmptyString, _ => true
  | String a p', String b s' => Ascii.eqb a b && has_prefix p' s'
  | String _ _, EmptyString => false
  end.

(** [parseInt(string)], no radix argument: white space, a sign, then
    hexadecimal digits after [0x]/[0X] or else decimal digits; [NaN] when
    there is no digit. *)
Definition parseInt_string (s : string) : Number :=
  let '(neg, s1) := read_sign (skip_spaces s) in
  match s1 with
  | String "0" (String x r) =>
      if Ascii.eqb x "x" || Ascii.eqb x "X" then
        let '(v, n, _) := read_digits hex_digit_of 16 0 0 r in
        match n with O => NaN | _ => Fin (signed neg (inject_Z v)) end
      else
        let '(v, n, _) := read_digits digit_of 10 0 0 s1 in
        match n with O => NaN | _ => Fin (signed neg (inject_Z v)) end
  | _ =>
      let '(v, n, _) := read_digits digit_of 10 0 0 s1 in
      match n with O => NaN | _ => Fin (signed neg (inject_Z v)) end
  end.

(** The exponent part [e±ddd] of a decimal literal, when well formed. *)
Definition read_exponent (s : string) : Z :=
  match s with
  | String e r =>
      if Ascii.eqb e "e" || Ascii.eqb e "E" then
        let '(neg, r1) := read_sign r in
        let '(v, n, _) := read_digits digit_of 10 0 0 r1 in
        match n with O => 0 | _ => if neg then - v else v end
      else 0
  | EmptyString => 0
  end.

(** The longest prefix that is a decimal literal
    [digits [. digits] [exponent]] or [. digits [exponent]]. *)
Definition read_decimal (s : string) : option Q :=
  let '(ip, ni, r1) := read_digits digit_of 10 0 0 s in
  let '(fp, nf, r2) :=
    match r1 with
    | String "." r => read_digits digit_of 10 0 0 r
    | _ => (0, O, r1)
    end in
  match ni, nf with
  | O, O => None
  | _, _ =>
      let mant := (inject_Z ip + inject_Z fp / inject_Z (10 ^ Z.of_nat nf))%Q in
      Some (Qred (mant * Qpower (inject_Z 10) (read_exponent r2)))
  end.

(** [parseFloat(string)] *)
Definition parseFloat_string (s : string) : Number :=
  let '(neg, s1) := read_sign (skip_spaces s) in
  if has_prefix "Infinity" s1 then (if neg then NegInf else PosInf)
  else match read_decimal s1 with
       | Some q => Fin (signed neg q)
       | None => NaN
       end.

(** Truncation toward zero. *)
Definition trunc (q : Q) : Z := Z.quot (Qnum q) (Z.pos (Qden q)).

(** [parseInt(v)]: the argument is converted to a string first, so a
    finite number loses its fraction (numbers printed in exponent notation,
    beyond 1e21 or below 1e-6, are outside the model) and every other
    non-string gives [NaN]. *)
Definition parseInt (v : Value) : Number :=
  match v with
  | VStr s => parseInt_string s
  | VNum (Fin q) => Fin (inject_Z (trunc q))
  | _ => NaN
  end.

(** [parseFloat(v)] *)
Definition parseFloat (v : Value) : Number :=
  match v with
  | VStr s => parseFloat_string s
  | VNum n => n
  | _ => NaN
  end.

(** ** Equality *)

Definition num_eqb (a b : Number) : bool :=
  match a, b with
  | Fin x, Fin y => Qeq_bool x y
  | PosInf, PosInf => true
  | NegInf, NegInf => true
  | _, _ => false
  end.

Definition oct_digit_of (c : ascii) : option Z :=
  let n := Z.of_nat (nat_of_ascii c) in
  if (48 <=? n) && (n <=? 55) then Some (n - 48) else None.

Definition bin_digit_of (c : ascii) : option Z :=
  let n := Z.of_nat (nat_of_ascii c) in
  if (48 <=? n) && (n <=? 49) then Some (n - 48) else None.

(** A hexadecimal, octal or binary integer literal ([0x], [0o], [0b], in
    either case, unsigned) that spans the whole string: [None] when the
    string does not start as one, [NaN] when it starts as one and is not
    one. *)
Definition non_decimal_literal (t : string) : option Number :=
  match t with
  | String "0" (String x r) =>
      let radix :=
        if Ascii.eqb x "x" || Ascii.eqb x "X" then Some (hex_digit_of, 16)
        else if Ascii.eqb x "o" || Ascii.eqb x "O" then Some (oct_digit_of, 8)
        else if Ascii.eqb x "b" || Ascii.eqb x "B" then Some (bin_digit_of, 2)
        else None in
      match radix with
      | Some (digit, base) =>
          let '(v, n, rest) := read_digits digit base 0 0 r in
          Some (if negb (Nat.eqb n 0) && String.eqb rest EmptyString
                then Fin (inject_Z v) else NaN)
      | None => None
      end
  | _ => None
  end.

(** ToNumber on a string (StringToNumber): the trimmed string is empty
    (0), a hexadecimal, octal or binary integer literal, [±Infinity], or
    a decimal literal that spans the whole string; anything else is
    [NaN]. *)
Definition string_to_number (s : string) : Number :=
  let t := trim s in
  if String.eqb t EmptyString then Fin 0
  else
    match non_decimal_literal t with
    | Some n => n
    | None =>
    let '(neg, s1) := read_sign t in
    if String.eqb s1 "Infinity" then (if neg then NegInf else PosInf)
    else
      let '(ip, ni, r1) := read_digits digit_of 10 0 0 s1 in
      let '(fp, nf, r2) :=
        match r1 with
        | String "." r => read_digits digit_of 10 0 0 r
        | _ => (0, O, r1)
        end in
      let exp_ok :=
        match r2 with
        | EmptyString => true
        | String e r =>
            (Ascii.eqb e "e" || Ascii.eqb e "E") &&
            (let '(_, r3) := read_sign r in
             let '(_, n, rest) := read_digits digit_of 10 0 0 r3 in
             negb (Nat.eqb n 0) && String.eqb rest EmptyString)
        end in
      match ni, nf with
      | O, O => NaN
      | _, _ =>
          if exp_ok then
            Fin (signed neg
                   (Qred ((inject_Z ip + inject_Z fp / inject_Z (10 ^ Z.of_nat nf))
                          * Qpower (inject_Z 10) (read_exponent r2))))
          else NaN
      end
    end.

Definition bool_to_number (b : bool) : Number := Fin (if b then 1 else 0).

(** [a === b] on the modelled values (every [Blob] is taken to be the same
    object). *)
Definition strict_eq (a b : Value) : bool :=
  match a, b with
  | VUndefined, VUndefined => true
  | VNull, VNull => true
  | VBool x, VBool y => Bool.eqb x y
  | VNum x, VNum y => num_eqb x y
  | VStr x, VStr y => String.eqb x y
  | VBlob, VBlob => true
  | _, _ => false
  end.

(** [a == b] (IsLooselyEqual).  A [Blob] compared with a primitive is
    converted to the string ["[object Blob]"]. *)
Definition loose_eq (a b : Value) : bool :=
  match a, b with
  | VUndefined, (VUndefined | VNull) => true
  | VNull, (VUndefined | VNull) => true
  | VUndefined, _ | VNull, _ | _, VUndefined | _, VNull => false
  | VNum x, VNum y => num_eqb x y
  | VStr x, VStr y => String.eqb x y
  | VBool x, VBool y => Bool.eqb x y
  | VBlob, VBlob => true
  | VNum x, VStr y => num_eqb x (string_to_number y)
  | VStr x, VNum y => num_eqb (string_to_number x) y
  | VBool x, VNum y => num_eqb (bool_to_number x) y
  | VNum x, VBool y => num_eqb x (bool_to_number y)
  | VBool x, VStr y => num_eqb (bool_to_number x) (string_to_number y)
  | VStr x, VBool y => num_eqb (string_to_number x) (bool_to_number y)
  | VBlob, VStr y => String.eqb "[object Blob]" y
  | VStr x, VBlob => String.eqb x "[object Blob]"
  | VBlob, VNum _ | VNum _, VBlob => false
  | VBlob, VBool _ | VBool _, VBlob => false
  end.

(** ** JSON *)

(** What [JSON.stringify] makes of a value inside an array: [undefined],
    [NaN] and the infinities become [null]; a [Blob] has no enumerable
    property and becomes the empty object. *)
Inductive Json : Type :=
| JNull
| JBool (b : bool)
| JNumber (q : Q)
| JString (s : string)
| JEmptyObject.

Definition to_json (v : Value) : Json :=
  match v with
  | VUndefined | VNull => JNull
  | VBool b => JBool b
  | VNum (Fin q) => JNumber q
  | VNum _ => JNull
  | VStr s => JString s
  | VBlob => JEmptyObject
  end.

(** ** Exceptions *)

Inductive ErrorKind : Type := GenericError | TypeError | RangeError.

Record Error : Type := mkError { kind : ErrorKind; message : string }.

(** What a [throw] statement can throw here: an [Error] object, or
    [undefined] (a variable that was never assigned). *)
Inductive Thrown : Type :=
| Exception (e : Error)
| ThrownUndefined.

Inductive Completion (A : Type) : Type :=
| Return (a : A)
| Throw (e : Thrown).

Arguments Return {A} a.
Arguments Throw {A} e.

(** [new Error(message)] *)
Definition newError (message : string) : Thrown :=
  Exception {| kind := GenericError; message := message |}.

(** A computation over a state [S] that returns or throws; the state
    survives a throw. *)
Definition M (S A : Type) : Type := S -> Completion A * S.

Definition ret {S A : Type} (a : A) : M S A := fun s => (Return a, s).

Definition throw {S A : Type} (e : Thrown) : M S A := fun s => (Throw e, s).

Definition bind {S A B : Type} (m : M S A) (k : A -> M S B) : M S B :=
  fun s =>
    match m s with
    | (Return a, s1) => k a s1
    | (Throw e, s1) => (Throw e, s1)
    end.

(** [try { m } catch (e) { handler(e) }] *)
Definition try_catch {S A : Type} (m : M S A) (handler : Thrown -> M S A) : M S A :=
  fun s =>
    match m s with
    | (Return a, s1) => (Return a, s1)
    | (Throw e, s1) => handler e s1
    end.

(** A statement that only changes the state. *)
Definition effect {S : Type} (f : S -> S) : M S unit := fun s => (Return tt, f s).

Definition gets {S A : Type} (f : S -> A) : M S A := fun s => (Return (f s), s).

Definition string_of_Z (z : Z) : string := NilZero.string_of_int (Z.to_int z).


Declare Scope js_scope.
Delimit Scope js_scope with js.

Notation "'let*' x := m 'in' k" := (bind m (fun x => k))
  (at level 10, x name, m at level 100, k at level 200) : js_scope.
Notation "'do*' m 'in' k" := (bind m (fun _ => k))
  (at level 10, m at level 100, k at level 200) : js_scope.

End Js.

(* ===================================================================== *)
(** * [TutorialStepManager]                                               *)
(* ===================================================================== *)

Module StepManager.

(** An entry of [stepConfigs].  A field that an entry does not set reads as
    [undefined]: falsy for [required] and [autoAdvance], no key for
    [validation]. *)
Record StepConfig : Type := mkConfig {
  type : option string;
  required : bool;
  autoAdvance : bool;
  validation : option string
}.

(** [{}], what [getStepConfig] returns for a step without entry. *)
Definition emptyConfig : StepConfig :=
  {| type := None; required := false; autoAdvance := false; validation := None |}.

(** [this.stepConfigs], assigned once by the constructor. *)
Definition stepConfigs (step : Z) : option StepConfig :=
  match step with
  | 1 => Some (mkConfig (Some "intro") false false None)
  | 2 => Some (mkConfig (Some "action") true true (Some "video_played"))
  | 3 => Some (mkConfig (Some "info") false false None)
  | 4 => Some (mkConfig (Some "action") true true (Some "clicked_yes"))
  | 5 => Some (mkConfig (Some "input") true false (Some "entered_text"))
  | 6 => Some (mkConfig (Some "action") true true (Some "clicked_start_time"))
  | 7 => Some (mkConfig (Some "action") true true (Some "clicked_end_time"))
  | 8 => Some (mkConfig (Some "info") false false None)
  | 9 => Some (mkConfig (Some "action") true true (Some "clicked_save"))
  | 10 => Some (mkConfig (Some "completion") false false None)
  | _ => None
  end.

(** [this.requiredActionMessages], assigned once by the constructor. *)
Definition requiredActionMessages (step : Z) : option string :=
  match step with
  | 2 => Some "Please play the video to continue."
  | 4 => Some "Please click the 'Yes' button to continue."
  | 5 => Some "Please enter some text in the onomatopoeia field to continue."
  | 6 => Some "Please click the 'Get Start Time' button to continue."
  | 7 => Some "Please click the 'Get End Time' button to continue."
  | 9 => Some "Please click the 'Save Onomatopoeia' button to continue."
  | 12 => Some "Please click the 'No' button to continue."
  | _ => None
  end.

(** The mutable fields of an instance. *)
Record Manager : Type := mkManager {
  totalSteps : Z;
  currentStep : Z;
  stepValidation : gmap string bool
}.

Definition set_currentStep (c : Z) (m : Manager) : Manager :=
  {| totalSteps := totalSteps m; currentStep := c; stepValidation := stepValidation m |}.

Definition set_totalSteps (t : Z) (m : Manager) : Manager :=
  {| totalSteps := t; currentStep := currentStep m; stepValidation := stepValidation m |}.

Definition set_stepValidation (f : gmap string bool) (m : Manager) : Manager :=
  {| totalSteps := totalSteps m; currentStep := currentStep m; stepValidation := f |}.

(** The object literal that [resetValidation] assigns. *)
Definition initialValidation : gmap string bool :=
  <["video_played" := false]>
  (<["clicked_yes" := false]>
  (<["entered_text" := false]>
  (<["clicked_start_time" := false]>
  (<["clicked_end_time" := false]>
  (<["clicked_save" := false]> ∅))))).

Definition resetValidation (m : Manager) : Manager :=
  set_stepValidation initialValidation m.

(** [new TutorialStepManager(totalSteps)] *)
Definition constructor (total : Z) : Manager :=
  resetValidation
    {| totalSteps := total; currentStep := 1; stepValidation := ∅ |}.

Definition getCurrentStep (m : Manager) : Z := currentStep m.
Definition getTotalSteps (m : Manager) : Z := totalSteps m.

(** [getStepConfig(stepNumber)] *)
Definition getStepConfigAt (stepNumber : Z) : StepConfig :=
  match stepConfigs stepNumber with
  | Some c => c
  | None => emptyConfig
  end.

(** [getStepConfig()], the default argument being [this.currentStep]. *)
Definition getStepConfig (m : Manager) : StepConfig :=
  getStepConfigAt (currentStep m).

Definition canAdvance (m : Manager) : bool :=
  let config := getStepConfig m in
  if negb (required config) then true
  else
    match validation config with
    | Some key =>
        match stepValidation m !! key with
        | Some flag => flag
        | None => true
        end
    | None => true
    end.

Definition getRequiredActionMessage (m : Manager) : option string :=
  requiredActionMessages (currentStep m).

(** The body is comments only. *)
Definition resetStepSpecificValidation (m : Manager) : Manager := m.

(** [isActionCompleted(action)] *)
Definition isActionCompleted (action : string) (m : Manager) : bool :=
  match stepValidation m !! action with
  | Some flag => flag
  | None => false
  end.

Definition isComplete (m : Manager) : bool := totalSteps m <=? currentStep m.

Definition getValidationStatus (m : Manager) : gmap string bool := stepValidation m.

(** The object that [exportState] returns and [importState] reads; a field
    may be missing from what is imported. *)
Record Exported : Type := mkExported {
  ex_currentStep : option Z;
  ex_stepValidation : option (gmap string bool);
  ex_totalSteps : option Z
}.

Definition exportState (m : Manager) : Exported :=
  {| ex_currentStep := Some (currentStep m);
     ex_stepValidation := Some (stepValidation m);
     ex_totalSteps := Some (totalSteps m) |}.

(** The [forEach] over the keys of [this.stepValidation]: a tracked key
    takes the imported value when the imported object has it. *)
Definition importFlags (imported flags : gmap string bool) : gmap string bool :=
  map_imap (fun key old =>
              match imported !! key with
              | Some v => Some v
              | None => Some old
              end) flags.

(** [importState(state)].  A number is truthy unless it is 0; the clamp of
    [currentStep] reads [this.totalSteps] before the third statement
    assigns it. *)
Definition importState (state : Exported) (m : Manager) : Manager :=
  let m1 :=
    match ex_currentStep state with
    | Some c =>
        if c =? 0 then m
        else set_currentStep (Z.max 1 (Z.min c (totalSteps m))) m
    | None => m
    end in
  let m2 :=
    match ex_stepValidation state with
    | Some imported => set_stepValidation (importFlags imported (stepValidation m1)) m1
    | None => m1
    end in
  match ex_totalSteps state with
  | Some t => if t =? 0 then m2 else set_totalSteps t m2
  | None => m2
  end.

(** ** Methods that take callbacks

    The owner of the sequencer has a state of type [U] of its own; a
    callback acts on the pair of both. *)
Section Callbacks.

Context {U : Type}.

Record Host : Type := mkHost { mgr : Manager; user : U }.

Definition with_mgr (f : Manager -> Manager) (h : Host) : Host :=
  {| mgr := f (mgr h); user := user h |}.

Definition Callback (A : Type) : Type := A -> Host -> Host.

Definition call {A : Type} (cb : option (Callback A)) (a : A) (h : Host) : Host :=
  match cb with
  | Some f => f a h
  | None => h
  end.

(** [advance(onAdvance, onRequiredAction)] *)
Definition advance (onAdvance : option (Callback Z))
    (onRequiredAction : option (Callback string)) (h : Host) : bool * Host :=
  if negb (canAdvance (mgr h)) then
    match getRequiredActionMessage (mgr h) with
    | Some message =>
        if negb (String.eqb message EmptyString) then (false, call onRequiredAction message h)
        else (false, h)
    | None => (false, h)
    end
  else if currentStep (mgr h) <? totalSteps (mgr h) then
    let h1 := with_mgr (fun m => set_currentStep (currentStep m + 1) m) h in
    let h2 := with_mgr resetStepSpecificValidation h1 in
    (true, call onAdvance (currentStep (mgr h2)) h2)
  else (false, h).

(** [goBack(onGoBack)] *)
Definition goBack (onGoBack : option (Callback Z)) (h : Host) : bool * Host :=
  if 1 <? currentStep (mgr h) then
    let h1 := with_mgr (fun m => set_currentStep (currentStep m - 1) m) h in
    let h2 := with_mgr resetStepSpecificValidation h1 in
    (true, call onGoBack (currentStep (mgr h2)) h2)
  else (false, h).

(** [markActionCompleted(action, onValidationChange, onAutoAdvance)].  The
    step configuration is read after [onValidationChange] has run. *)
Definition markActionCompleted (action : string)
    (onValidationChange : option (Callback (string * bool)))
    (onAutoAdvance : option (Callback (Z * string))) (h : Host) : Host :=
  match stepValidation (mgr h) !! action with
  | Some _ =>
      let h1 := with_mgr (fun m => set_stepValidation (<[action := true]> (stepValidation m)) m) h in
      let h2 := call onValidationChange (action, true) h1 in
      let config := getStepConfig (mgr h2) in
      if autoAdvance config
         && match validation config with
            | Some key => String.eqb key action
            | None => false
            end
      then call onAutoAdvance (currentStep (mgr h2), action) h2
      else h2
  | None => h
  end.

(** [goToStep(stepNumber, onStepChange)] *)
Definition goToStep (stepNumber : Z) (onStepChange : option (Callback Z)) (h : Host)
    : bool * Host :=
  if (1 <=? stepNumber) && (stepNumber <=? totalSteps (mgr h)) then
    let h1 := with_mgr (set_currentStep stepNumber) h in
    (true, call onStepChange (currentStep (mgr h1)) h1)
  else (false, h).

End Callbacks.

Arguments Host : clear implicits.
Arguments Callback : clear implicits.

(** The operations of an instance, with no callback passed, and runs of
    them. *)
Inductive Op : Type :=
| OpAdvance
| OpGoBack
| OpMark (action : string)
| OpGoToStep (stepNumber : Z)
| OpImport (state : Exported)
| OpResetValidation.

Definition bare (m : Manager) : Host unit := {| mgr := m; user := tt |}.

Definition step (op : Op) (m : Manager) : Manager :=
  match op with
  | OpAdvance => mgr (snd (advance None None (bare m)))
  | OpGoBack => mgr (snd (goBack None (bare m)))
  | OpMark action => mgr (markActionCompleted action None None (bare m))
  | OpGoToStep k => mgr (snd (goToStep k None (bare m)))
  | OpImport state => importState state m
  | OpResetValidation => resetValidation m
  end.

Definition run (ops : list Op) (m : Manager) : Manager :=
  fold_left (fun acc op => step op acc) ops m.

(** An operation other than loading a saved state. *)
Definition navigation (op : Op) : bool :=
  match op with
  | OpImport _ => false
  | _ => true
  end.

Definition in_range (m : Manager) : Prop :=
  1 <= currentStep m <= totalSteps m.

(** The transitions and the marking of an action, as opposed to
    [resetValidation] and [importState], which assign flags. *)
Definition keeps_flags (op : Op) : bool :=
  match op with
  | OpAdvance | OpGoBack | OpMark _ | OpGoToStep _ => true
  | OpImport _ | OpResetValidation => false
  end.

End StepManager.

(* ===================================================================== *)
(** * The tutorial controller's use of the sequencer                      *)
(* ===================================================================== *)

Module TutorialApp.

Import StepManager.

(** What the controller does to the page, in order. *)
Inductive UiEvent : Type :=
| UpdateProgress (current total : Z)
| ShowTutorialStep (current : Z)
| ShowError (message : string)
| UpdateNextButtonState (enabled : bool)
| CompleteTutorial
| SetTotalSteps (total : Z)
| ResetDisplay.

Definition App : Type := Host (list UiEvent).

Definition emit (e : UiEvent) (a : App) : App :=
  {| mgr := mgr a; user := (user a ++ [e])%list |}.

Definition updateNextButtonState (a : App) : App :=
  emit (UpdateNextButtonState (canAdvance (mgr a))) a.

Definition updateProgress (a : App) : App :=
  emit (UpdateProgress (getCurrentStep (mgr a)) (getTotalSteps (mgr a))) a.

(** [showTutorialStep] fills the bubble, positions it and ends by
    refreshing the next button. *)
Definition showTutorialStep (a : App) : App :=
  updateNextButtonState (emit (ShowTutorialStep (getCurrentStep (mgr a))) a).

Definition completeTutorial (a : App) : App := emit CompleteTutorial a.

(** [new TutorialApp()] *)
Definition constructor : App := {| mgr := StepManager.constructor 10; user := [] |}.

Definition initializeTutorial (a : App) : App :=
  let a1 := emit (SetTotalSteps (getTotalSteps (mgr a))) a in
  let a2 := with_mgr resetValidation a1 in
  emit ResetDisplay a2.

Definition nextStep (a : App) : App :=
  let '(advanced, a1) :=
    advance (Some (fun (_ : Z) a' => showTutorialStep (updateProgress a')))
            (Some (fun (message : string) a' => emit (ShowError message) a'))
            a in
  if negb advanced && isComplete (mgr a1) then completeTutorial a1 else a1.

Definition previousStep (a : App) : App :=
  snd (goBack (Some (fun (_ : Z) a' => showTutorialStep (updateProgress a'))) a).

Definition checkStepValidation (action : string) (a : App) : App :=
  markActionCompleted action
    (Some (fun (_ : string * bool) a' => updateNextButtonState a'))
    (Some (fun (_ : Z * string) a' => nextStep a'))
    a.

Definition startTutorial (a : App) : App :=
  showTutorialStep (updateProgress (snd (goToStep 1 None a))).

End TutorialApp.

(* ===================================================================== *)
(** * [GoogleSheetsService]                                               *)
(* ===================================================================== *)

Module Sheets.

Import Js.
Local Open Scope js_scope.

(** ** Arrays, objects, tables *)

(** An element of an array: [new Array(n)] makes [n] holes; a hole reads as
    [undefined]. *)
Inductive Slot : Type :=
| Hole
| Elem (v : Value).

Abbreviation Row := (list Slot) (only parsing).
Abbreviation Table := (list (list Slot)) (only parsing).

(** [row[i]] *)
Definition array_get (row : Row) (i : nat) : Value :=
  match row !! i with
  | Some (Elem v) => v
  | _ => VUndefined
  end.

(** [row[n]] for a number [n]: an element when [n] is a non-negative
    integer, otherwise a property that an array does not have. *)
Definition array_get_num (row : Row) (n : Number) : Value :=
  match n with
  | Fin q =>
      if Qeq_bool (inject_Z (trunc q)) q && (0 <=? trunc q)
      then array_get row (Z.to_nat (trunc q))
      else VUndefined
  | _ => VUndefined
  end.

(** [row[i] = v]; an index beyond the end extends the array with holes. *)
Fixpoint array_set (row : Row) (i : nat) (v : Value) : Row :=
  match i, row with
  | O, [] => [Elem v]
  | O, _ :: rest => Elem v :: rest
  | S j, [] => Hole :: array_set [] j v
  | S j, s :: rest => s :: array_set rest j v
  end.

(** [new Array(n)] *)
Definition new_Array (n : nat) : Row := replicate n Hole.

(** A plain object; reading a missing property gives [undefined]. *)
Definition prop (o : gmap string Value) (key : string) : Value :=
  match o !! key with
  | Some v => v
  | None => VUndefined
  end.

Definition row_to_json (row : Row) : list Json :=
  map (fun s => match s with Hole => JNull | Elem v => to_json v end) row.

(** ** The network, as the service sees it *)

Inductive Method : Type := GET | POST | PUT.

(** [{ userEnteredValue: { stringValue: String(cell) } }] *)
Inductive CellData : Type :=
| StringValue (cell : Value).

(** An element of the [operations] argument of [batchUpdate]. *)
Record BatchOperation : Type := mkBatchOperation {
  op_type : string;
  op_sheetId : Value;
  op_data : list (list Value);
  op_startRow : Value;
  op_endRow : Value;
  op_startCol : Value;
  op_endCol : Value
}.

Inductive BatchRequest : Type :=
| AppendCells (sheetId : Value) (rows : list (list CellData))
| UpdateCells (sheetId startRowIndex endRowIndex startColumnIndex endColumnIndex : Value)
              (rows : list (list CellData))
| NoRequest.

Inductive Payload : Type :=
| NoBody
| Values (values : list (list Json))
| Requests (requests : list BatchRequest).

Record Request : Type := mkRequest {
  method : Method;
  url : string;
  authorization : string;
  payload : Payload
}.

(** The [error] member of a response body. *)
Record ErrorObject : Type := mkErrorObject { err_message : option string }.

(** A response body after [response.json()]. *)
Record ResponseJson : Type := mkResponseJson {
  values : option Table;
  error : option ErrorObject
}.

Inductive ParsedBody : Type :=
| Malformed (e : Error)
| Parsed (j : ResponseJson).

Record Response : Type := mkResponse {
  ok : bool;
  status : Z;
  statusText : string;
  body : ParsedBody
}.

(** What one attempt meets: the token provider fails, the request is
    rejected, or a response arrives. *)
Inductive Attempt : Type :=
| TokenFails (e : Error)
| FetchFails (e : Error)
| Responds (r : Response).

Inductive LogLevel : Type := Warn | LogError.

Record LogLine : Type := mkLogLine {
  level : LogLevel;
  text : string;
  detail : option string
}.

(** The environment of the service: [network n] is what the [n]-th attempt
    will meet; the rest records what the service did, oldest first. *)
Record World : Type := mkWorld {
  network : nat -> Attempt;
  attempts : nat;
  token : string;
  requests : list Request;
  sleeps : list Z;
  console : list LogLine
}.

Definition count_attempt (w : World) : World :=
  {| network := network w; attempts := S (attempts w); token := token w;
     requests := requests w; sleeps := sleeps w; console := console w |}.

Definition add_request (r : Request) (w : World) : World :=
  {| network := network w; attempts := attempts w; token := token w;
     requests := (requests w ++ [r])%list; sleeps := sleeps w; console := console w |}.

Definition add_sleep (ms : Z) (w : World) : World :=
  {| network := network w; attempts := attempts w; token := token w;
     requests := requests w; sleeps := (sleeps w ++ [ms])%list; console := console w |}.

Definition add_log (l : LogLine) (w : World) : World :=
  {| network := network w; attempts := attempts w; token := token w;
     requests := requests w; sleeps := sleeps w; console := (console w ++ [l])%list |}.

(** [await this.delay(ms)] *)
Definition delay (ms : Z) : M World unit := effect (add_sleep ms).

(** [const accessToken = await getAccessToken(); const response = await
    fetch(url, { method, headers, body })] *)
Definition fetchWithToken (m : Method) (u : string) (p : Payload) : M World Response :=
  fun w =>
    let w1 := count_attempt w in
    let request := {| method := m; url := u;
                      authorization := "Bearer " ++ token w; payload := p |} in
    match network w (attempts w) with
    | TokenFails e => (Throw (Exception e), w1)
    | FetchFails e => (Throw (Exception e), add_request request w1)
    | Responds r => (Return r, add_request request w1)
    end.

(** [if (!response.ok) throw new Error(`HTTP ${status}: ${statusText}`)] *)
Definition check_ok (r : Response) : M World unit :=
  if negb (ok r)
  then throw (newError ("HTTP " ++ string_of_Z (status r) ++ ": " ++ statusText r))
  else ret tt.

(** [await response.json()] *)
Definition response_json (r : Response) : M World ResponseJson :=
  match body r with
  | Malformed e => throw (Exception e)
  | Parsed j => ret j
  end.

(** [if (result.error) throw new Error(`Sheets API error: ${result.error.message || 'Unknown error'}`)] *)
Definition check_result (j : ResponseJson) : M World unit :=
  match error j with
  | Some e =>
      let msg := match err_message e with
                 | Some s => if String.eqb s EmptyString then "Unknown error" else s
                 | None => "Unknown error"
                 end in
      throw (newError ("Sheets API error: " ++ msg))
  | None => ret tt
  end.

(** ** Retry *)

Record Service : Type := mkService { retryAttempts : Z; retryDelay : Z }.

(** [new GoogleSheetsService()] *)
Definition constructor : Service := {| retryAttempts := 3; retryDelay := 1000 |}.

(** The [for] loop of [withRetry], entered with [attempt] and [remaining]
    iterations to go; [lastError] is [undefined] until a [catch] assigns
    it.  Reading [error.message] of a thrown [undefined] is a [TypeError]
    that leaves the loop. *)
Fixpoint retry_loop {A : Type} (svc : Service) (remaining : nat) (attempt : Z)
    (lastError : Thrown) (operation : M World A) (context : string) : M World A :=
  match remaining with
  | O =>
      do* effect (add_log (mkLogLine LogError (context ++ " - All retry attempts failed") None)) in
      throw lastError
  | S k =>
      try_catch operation (fun error =>
        match error with
        | ThrownUndefined =>
            throw (Exception {| kind := TypeError;
                                message := "Cannot read properties of undefined (reading 'message')" |})
        | Exception e =>
            do* effect (add_log (mkLogLine Warn
                         (context ++ " - Attempt " ++ string_of_Z attempt ++ "/"
                          ++ string_of_Z (retryAttempts svc) ++ " failed:")
                         (Some (message e)))) in
            do* (if attempt <? retryAttempts svc
                 then delay (retryDelay svc * attempt)
                 else ret tt) in
            retry_loop svc k (attempt + 1) error operation context
        end)
  end.

(** [withRetry(operation, context)] *)
Definition withRetry {A : Type} (svc : Service) (operation : M World A) (context : string)
    : M World A :=
  retry_loop svc (Z.to_nat (retryAttempts svc)) 1 ThrownUndefined operation context.

(** ** The four store operations *)

Definition sheets_api : string := "https://sheets.googleapis.com/v4/spreadsheets/".

Definition getSheetData_attempt (spreadsheetId sheetName : string) : M World Table :=
  let* response := fetchWithToken GET (sheets_api ++ spreadsheetId ++ "/values/" ++ sheetName) NoBody in
  do* check_ok response in
  let* data := response_json response in
  ret (match values data with Some v => v | None => [] end).

Definition getSheetData (svc : Service) (spreadsheetId sheetName : string) : M World Table :=
  withRetry svc (getSheetData_attempt spreadsheetId sheetName)
            ("Getting data from sheet " ++ sheetName).

(** The [newData] argument of [appendSheetData]: one row, or an array of
    rows. *)
Inductive NewData : Type :=
| OneRow (row : Row)
| ManyRows (rows : list Row).

(** [Array.isArray(newData[0]) ? newData : [newData]]; the empty array has
    no first element and is wrapped. *)
Definition normalize (newData : NewData) : list Row :=
  match newData with
  | OneRow row => [row]
  | ManyRows [] => [[]]
  | ManyRows rows => rows
  end.

Definition appendSheetData_attempt (spreadsheetId sheetName : string) (newData : NewData)
    : M World ResponseJson :=
  let* response :=
    fetchWithToken POST
      (sheets_api ++ spreadsheetId ++ "/values/" ++ sheetName
       ++ ":append?valueInputOption=RAW&insertDataOption=INSERT_ROWS")
      (Values (map row_to_json (normalize newData))) in
  do* check_ok response in
  let* result := response_json response in
  do* check_result result in
  ret result.

Definition appendSheetData (svc : Service) (spreadsheetId sheetName : string)
    (newData : NewData) : M World ResponseJson :=
  withRetry svc (appendSheetData_attempt spreadsheetId sheetName newData)
            ("Appending data to sheet " ++ sheetName).

Definition updateSheetData_attempt (spreadsheetId range : string) (vals : Table)
    : M World ResponseJson :=
  let* response :=
    fetchWithToken PUT
      (sheets_api ++ spreadsheetId ++ "/values/" ++ range ++ "?valueInputOption=RAW")
      (Values (map row_to_json vals)) in
  do* check_ok response in
  let* result := response_json response in
  do* check_result result in
  ret result.

Definition updateSheetData (svc : Service) (spreadsheetId range : string) (vals : Table)
    : M World ResponseJson :=
  withRetry svc (updateSheetData_attempt spreadsheetId range vals)
            ("Updating range " ++ range ++ " in spreadsheet").

Definition cells (data : list (list Value)) : list (list CellData) :=
  map (map StringValue) data.

(** The [switch] of [batchUpdate]; another [type] falls through and the
    arrow function returns [undefined]. *)
Definition batchRequest (op : BatchOperation) : BatchRequest :=
  if String.eqb (op_type op) "append" then
    AppendCells (op_sheetId op) (cells (op_data op))
  else if String.eqb (op_type op) "update" then
    UpdateCells (op_sheetId op) (op_startRow op) (op_endRow op)
                (op_startCol op) (op_endCol op) (cells (op_data op))
  else NoRequest.

Definition batchUpdate_attempt (spreadsheetId : string) (operations : list BatchOperation)
    : M World ResponseJson :=
  let* response :=
    fetchWithToken POST (sheets_api ++ spreadsheetId ++ ":batchUpdate")
      (Requests (map batchRequest operations)) in
  do* check_ok response in
  let* result := response_json response in
  do* check_result result in
  ret result.

Definition batchUpdate (svc : Service) (spreadsheetId : string)
    (operations : list BatchOperation) : M World ResponseJson :=
  withRetry svc (batchUpdate_attempt spreadsheetId operations)
            ("Batch updating spreadsheet " ++ spreadsheetId).

(** The four operations behind one name, with the result of each. *)
Inductive StoreCall : Type :=
| GetSheetData (spreadsheetId sheetName : string)
| AppendSheetData (spreadsheetId sheetName : string) (newData : NewData)
| UpdateSheetData (spreadsheetId range : string) (vals : Table)
| BatchUpdate (spreadsheetId : string) (operations : list BatchOperation).

Inductive StoreResult : Type :=
| Rows (t : Table)
| Result (j : ResponseJson).

Definition fmap_M {S A B : Type} (f : A -> B) (m : M S A) : M S B :=
  let* a := m in ret (f a).

(** One attempt of a store operation: the function handed to [withRetry]. *)
Definition attempt_of (c : StoreCall) : M World StoreResult :=
  match c with
  | GetSheetData i n => fmap_M Rows (getSheetData_attempt i n)
  | AppendSheetData i n d => fmap_M Result (appendSheetData_attempt i n d)
  | UpdateSheetData i r v => fmap_M Result (updateSheetData_attempt i r v)
  | BatchUpdate i o => fmap_M Result (batchUpdate_attempt i o)
  end.

(** The context string each operation hands to [withRetry]. *)
Definition context_of (c : StoreCall) : string :=
  match c with
  | GetSheetData _ n => "Getting data from sheet " ++ n
  | AppendSheetData _ n _ => "Appending data to sheet " ++ n
  | UpdateSheetData _ r _ => "Updating range " ++ r ++ " in spreadsheet"
  | BatchUpdate i _ => "Batch updating spreadsheet " ++ i
  end.

Definition perform (svc : Service) (c : StoreCall) : M World StoreResult :=
  match c with
  | GetSheetData i n => fmap_M Rows (getSheetData svc i n)
  | AppendSheetData i n d => fmap_M Result (appendSheetData svc i n d)
  | UpdateSheetData i r v => fmap_M Result (updateSheetData svc i r v)
  | BatchUpdate i o => fmap_M Result (batchUpdate svc i o)
  end.

(** ** Row finder *)

(** The value of a criterion: a literal, or a function
    [(cellValue, fullRow, rowIndex) => ...] whose result is read as a
    boolean. *)
Inductive Matcher : Type :=
| Literal (expectedValue : Value)
| Predicate (f : Value -> Row -> nat -> bool).

(** [Object.entries(criteria)]: property names and values, in order. *)
Abbreviation Criteria := (list (string * Matcher)) (only parsing).

(** One pass of the body of the inner loop: does the criterion hold? *)
Definition criterion_holds (columnIndex : string) (expected : Matcher) (row : Row) (i : nat)
    : bool :=
  let actualValue := array_get_num row (parseInt_string columnIndex) in
  match expected with
  | Predicate f => f actualValue row i
  | Literal expectedValue =>
      match expectedValue, actualValue with
      | VStr e, VStr a => String.eqb (toLowerCase a) (toLowerCase e)
      | _, _ => loose_eq actualValue expectedValue
      end
  end.

(** The inner loop: [matches] stays true until a criterion fails, then the
    loop is left. *)
Fixpoint row_matches (criteria : Criteria) (row : Row) (i : nat) : bool :=
  match criteria with
  | [] => true
  | (columnIndex, expected) :: rest =>
      if criterion_holds columnIndex expected row i
      then row_matches rest row i
      else false
  end.

Record Match : Type := mkMatch { rowIndex : nat; data : Row }.

(** The outer loop from index [i] on, over the rows from [i] on. *)
Fixpoint findRows_from (i : nat) (rows : Table) (criteria : Criteria) : list Match :=
  match rows with
  | [] => []
  | row :: rest =>
      if row_matches criteria row i
      then {| rowIndex := i; data := row |} :: findRows_from (S i) rest criteria
      else findRows_from (S i) rest criteria
  end.

(** [findRows(data, criteria)], for an array [data]. *)
Definition findRows (table : Table) (criteria : Criteria) : list Match :=
  match table with
  | [] | [_] => []
  | _ :: rest => findRows_from 1 rest criteria
  end.

(** [findRow(data, criteria)]; [None] is [null]. *)
Definition findRow (table : Table) (criteria : Criteria) : option Match :=
  match findRows table criteria with
  | [] => None
  | first :: _ => Some first
  end.

(** ** Row and object *)

(** [Object.entries(columnMapping)] *)
Abbreviation Mapping := (list (string * nat)) (only parsing).

(** The loop of [transformRowToObject], started on the object [acc]. *)
Definition collect (row : Row) (columnMapping : Mapping) (acc : gmap string Value)
    : gmap string Value :=
  fold_left (fun obj '(key, columnIndex) => <[key := array_get row columnIndex]> obj)
            columnMapping acc.

Definition transformRowToObject (row : Row) (columnMapping : Mapping) : gmap string Value :=
  collect row columnMapping ∅.

(** The loop of [transformObjectToRow], started on the array [row]. *)
Definition fill (obj : gmap string Value) (columnMapping : Mapping) (row : Row) : Row :=
  fold_left (fun row '(key, columnIndex) => array_set row columnIndex (prop obj key))
            columnMapping row.

(** [Math.max(...Object.values(columnMapping))]; [None] is [-Infinity],
    the maximum of nothing. *)
Definition max_index (columnMapping : Mapping) : option nat :=
  match columnMapping with
  | [] => None
  | _ => Some (list_max (map snd columnMapping))
  end.

(** [transformObjectToRow(obj, columnMapping)]; [new Array(-Infinity)]
    throws. *)
Definition transformObjectToRow (obj : gmap string Value) (columnMapping : Mapping)
    : Completion Row :=
  match max_index columnMapping with
  | None => Throw (Exception {| kind := RangeError; message := "Invalid array length" |})
  | Some m =>
      Return (fill obj columnMapping (new_Array (m + 1)))
  end.

Definition participantMapping : Mapping :=
  [("participantId", 0%nat); ("email", 1%nat); ("name", 2%nat); ("age", 3%nat);
   ("gender", 4%nat); ("nativeLanguage", 5%nat); ("registrationTimestamp", 6%nat)].

Definition onomatopoeiaMapping : Mapping :=
  [("participantId", 0%nat); ("participantName", 1%nat); ("video", 2%nat);
   ("movement", 3%nat); ("startTime", 4%nat); ("endTime", 5%nat);
   ("answeredTimestamp", 6%nat); ("hasAudio", 7%nat); ("audioFileName", 8%nat);
   ("emotion", 9%nat)].

(** [saveOnomatopoeia(spreadsheetId, sheetName, onomatopoeiaData)] *)
Definition saveOnomatopoeia (svc : Service) (spreadsheetId sheetName : string)
    (onomatopoeiaData : gmap string Value) : M World ResponseJson :=
  match transformObjectToRow onomatopoeiaData onomatopoeiaMapping with
  | Throw e => throw e
  | Return row => appendSheetData svc spreadsheetId sheetName (OneRow row)
  end.

(** [loadOnomatopoeiaData(spreadsheetId, sheetName, participantId)] *)
Definition loadOnomatopoeiaData (svc : Service) (spreadsheetId sheetName : string)
    (participantId : Value) : M World (list (gmap string Value)) :=
  let* table := getSheetData svc spreadsheetId sheetName in
  let results := findRows table [("0", Literal participantId)] in
  ret (map (fun result => transformRowToObject (data result) onomatopoeiaMapping) results).

(** ** Notions used to state properties *)

(** An object has no property outside the keys of a mapping. *)
Definition keys_within (obj : gmap string Value) (columnMapping : Mapping) : Prop :=
  forall key, is_Some (obj !! key) -> In key (map fst columnMapping).

(** A position of a row that no field of the mapping is written to. *)
Definition unmapped (columnMapping : Mapping) (i : nat) : Prop :=
  ~ In i (map snd columnMapping).


(** What an attempt of [c] yields when it meets [a]: the attempt run in a
    world whose network always answers [a]. *)
Definition probe (a : Attempt) : World :=
  {| network := fun _ => a; attempts := 0; token := EmptyString;
     requests := []; sleeps := []; console := [] |}.

Definition meets (c : StoreCall) (a : Attempt) : Completion StoreResult :=
  fst (attempt_of c (probe a)).

(** The lines that [withRetry] writes to the console. *)
Definition warn_line (svc : Service) (context : string) (attempt : Z) (e : Error) : LogLine :=
  mkLogLine Warn
    (context ++ " - Attempt " ++ string_of_Z attempt ++ "/"
     ++ string_of_Z (retryAttempts svc) ++ " failed:")
    (Some (message e)).

Definition failed_line (context : string) : LogLine :=
  mkLogLine LogError (context ++ " - All retry attempts failed") None.

(** The rows of the requests that append to a sheet. *)
Definition appended_rows (w : World) : list (list Json) :=
  flat_map (fun r => match method r, payload r with
                     | POST, Values rows => rows
                     | _, _ => []
                     end) (requests w).


(** An error value carries the context string when its message mentions
    it. *)
Fixpoint contains (needle hay : string) : bool :=
  has_prefix needle hay ||
  match hay with
  | String _ rest => contains needle rest
  | EmptyString => false
  end.

Definition tagged_with (context : string) (e : Thrown) : bool :=
  match e with
  | Exception err => contains context (message err)
  | ThrownUndefined => false
  end.

End Sheets.

(* ===================================================================== *)
(** * [BubblePositioner]                                                  *)
(* ===================================================================== *)

Module BubblePositioner.

Import Js.
Local Open Scope Q_scope.

(** A [DOMRect] of non-negative size, in viewport pixels. *)
Record Rect : Type := mkRect {
  rect_left : Q;
  rect_top : Q;
  rect_width : Q;
  rect_height : Q
}.

Definition rect_right (r : Rect) : Q := rect_left r + rect_width r.
Definition rect_bottom (r : Rect) : Q := rect_top r + rect_height r.

Record Strategy : Type := mkStrategy {
  left : Q;
  top : Q;
  arrow : string
}.

(** The object literal of [generatePositionStrategies], read by name; a
    name that the literal does not define reads as [undefined] (names
    that every object inherits, such as [toString], are not modelled). *)
Definition strategies_table (targetRect bubbleRect : Rect) (offset : Q) (pref : string)
    : option Strategy :=
  if String.eqb pref "right" then
    Some {| left := rect_right targetRect + offset;
            top := rect_top targetRect + (rect_height targetRect / 2) - (rect_height bubbleRect / 2);
            arrow := "arrow-left" |}
  else if String.eqb pref "left" then
    Some {| left := rect_left targetRect - rect_width bubbleRect - offset;
            top := rect_top targetRect + (rect_height targetRect / 2) - (rect_height bubbleRect / 2);
            arrow := "arrow-right" |}
  else if String.eqb pref "below" then
    Some {| left := rect_left targetRect + (rect_width targetRect / 2) - (rect_width bubbleRect / 2);
            top := rect_bottom targetRect + offset;
            arrow := "arrow-top" |}
  else if String.eqb pref "above" then
    Some {| left := rect_left targetRect + (rect_width targetRect / 2) - (rect_width bubbleRect / 2);
            top := rect_top targetRect - rect_height bubbleRect - offset;
            arrow := "arrow-bottom" |}
  else None.

(** [preferences.map(pref => strategies[pref]).filter(Boolean)] *)
Definition generatePositionStrategies (targetRect bubbleRect : Rect) (offset : Q)
    (preferences : list string) : list Strategy :=
  omap (strategies_table targetRect bubbleRect offset) preferences.

Definition fitsHorizontally (strategy : Strategy) (bubbleRect : Rect)
    (viewportWidth padding : Q) : bool :=
  Qle_bool padding (left strategy)
  && Qle_bool (left strategy + rect_width bubbleRect) (viewportWidth - padding).

Definition fitsVertically (strategy : Strategy) (bubbleRect : Rect)
    (viewportHeight padding : Q) : bool :=
  Qle_bool padding (top strategy)
  && Qle_bool (top strategy + rect_height bubbleRect) (viewportHeight - padding).

Definition fits (strategy : Strategy) (bubbleRect : Rect)
    (viewportWidth viewportHeight padding : Q) : bool :=
  fitsHorizontally strategy bubbleRect viewportWidth padding
  && fitsVertically strategy bubbleRect viewportHeight padding.

Definition constrainToViewport (position : Strategy) (bubbleRect : Rect)
    (viewportWidth viewportHeight padding : Q) : Strategy :=
  {| left := Qmax padding (Qmin (left position) (viewportWidth - rect_width bubbleRect - padding));
     top := Qmax padding (Qmin (top position) (viewportHeight - rect_height bubbleRect - padding));
     arrow := arrow position |}.

(** The [for ... of] loop of [findBestPosition]: the first strategy that
    fits, if any. *)
Fixpoint first_fit (strategies : list Strategy) (bubbleRect : Rect)
    (viewportWidth viewportHeight padding : Q) : option Strategy :=
  match strategies with
  | [] => None
  | strategy :: rest =>
      if fits strategy bubbleRect viewportWidth viewportHeight padding
      then Some strategy
      else first_fit rest bubbleRect viewportWidth viewportHeight padding
  end.

(** [findBestPosition].  [strategies] is an array, so [strategies.right]
    is [undefined]; with no strategy at all [constrainToViewport] reads a
    property of [undefined]. *)
Definition findBestPosition (strategies : list Strategy) (bubbleRect : Rect)
    (viewportWidth viewportHeight padding : Q) : Completion Strategy :=
  match first_fit strategies bubbleRect viewportWidth viewportHeight padding with
  | Some strategy => Return strategy
  | None =>
      match strategies with
      | fallbackStrategy :: _ =>
          Return (constrainToViewport fallbackStrategy bubbleRect
                    viewportWidth viewportHeight padding)
      | [] =>
          Throw (Exception {| kind := TypeError;
                              message := "Cannot read properties of undefined (reading 'left')" |})
      end
  end.

(** The position that [performPositioning] applies. *)
Definition bestPosition (targetRect bubbleRect : Rect) (offset : Q)
    (preferences : list string) (viewportWidth viewportHeight viewportPadding : Q)
    : Completion Strategy :=
  findBestPosition (generatePositionStrategies targetRect bubbleRect offset preferences)
                   bubbleRect viewportWidth viewportHeight viewportPadding.

(** The four placements a preference order is made of. *)
Inductive Placement : Type := Right | Left | Below | Above.

Definition name_of (p : Placement) : string :=
  match p with
  | Right => "right"
  | Left => "left"
  | Below => "below"
  | Above => "above"
  end.

(** The candidate of a placement. *)
Definition candidate (targetRect bubbleRect : Rect) (offset : Q) (p : Placement) : Strategy :=
  match strategies_table targetRect bubbleRect offset (name_of p) with
  | Some s => s
  | None => {| left := 0; top := 0; arrow := EmptyString |}
  end.

(** The bubble rectangle of a position lies within
    [[padding, viewport - padding]] on both axes. *)
Definition within_viewport (s : Strategy) (bubbleRect : Rect)
    (viewportWidth viewportHeight padding : Q) : Prop :=
  padding <= left s /\ left s + rect_width bubbleRect <= viewportWidth - padding /\
  padding <= top s /\ top s + rect_height bubbleRect <= viewportHeight - padding.

End BubblePositioner.

(* ===================================================================== *)
(** * [SurveyApp]: saving a response                                      *)
(* ===================================================================== *)

Module SurveyApp.

Import Js Sheets.
Local Open Scope js_scope.

(** What the page shows or logs, in order. *)
Inductive PageEvent : Type :=
| ClearMessage
| ShowError (message : string)
| ShowSuccess (message : string)
| ConsoleError (text : string)
| ResetDisplay
| GoToNextVideo.

(** The controller and the browser around it.  [upload] is what
    [uploadAudioFile] would do, [clock] what [obtainDate()] returns,
    [texts] the table behind [langManager.getText], [nextVideo] the video
    of the button after the active one; [localStorage] holds what
    [JSON.stringify] made of the array stored under ["filteredData"]. *)
Record Page : Type := mkPage {
  filteredData : list (gmap string Value);
  currentVideoName : Value;
  participantInfo : gmap string Value;
  spreadsheetId : string;
  OnomatopoeiaSheet : string;
  messageDisplay : bool;
  currentButton : bool;
  nextVideo : option string;
  localStorage : option (list (gmap string Json));
  ui : list PageEvent;
  uploads : nat;
  upload : Completion Value;
  clock : string;
  texts : string -> string;
  world : World
}.

Definition set_filteredData (d : list (gmap string Value)) (p : Page) : Page :=
  mkPage d (currentVideoName p) (participantInfo p) (spreadsheetId p) (OnomatopoeiaSheet p)
         (messageDisplay p) (currentButton p) (nextVideo p) (localStorage p) (ui p)
         (uploads p) (upload p) (clock p) (texts p) (world p).

Definition set_currentVideoName (v : Value) (p : Page) : Page :=
  mkPage (filteredData p) v (participantInfo p) (spreadsheetId p) (OnomatopoeiaSheet p)
         (messageDisplay p) (currentButton p) (nextVideo p) (localStorage p) (ui p)
         (uploads p) (upload p) (clock p) (texts p) (world p).

Definition set_localStorage (s : list (gmap string Json)) (p : Page) : Page :=
  mkPage (filteredData p) (currentVideoName p) (participantInfo p) (spreadsheetId p)
         (OnomatopoeiaSheet p) (messageDisplay p) (currentButton p) (nextVideo p) (Some s)
         (ui p) (uploads p) (upload p) (clock p) (texts p) (world p).

Definition note (e : PageEvent) (p : Page) : Page :=
  mkPage (filteredData p) (currentVideoName p) (participantInfo p) (spreadsheetId p)
         (OnomatopoeiaSheet p) (messageDisplay p) (currentButton p) (nextVideo p)
         (localStorage p) (ui p ++ [e])%list (uploads p) (upload p) (clock p) (texts p)
         (world p).

Definition count_upload (p : Page) : Page :=
  mkPage (filteredData p) (currentVideoName p) (participantInfo p) (spreadsheetId p)
         (OnomatopoeiaSheet p) (messageDisplay p) (currentButton p) (nextVideo p)
         (localStorage p) (ui p) (S (uploads p)) (upload p) (clock p) (texts p) (world p).

Definition set_world (w : World) (p : Page) : Page :=
  mkPage (filteredData p) (currentVideoName p) (participantInfo p) (spreadsheetId p)
         (OnomatopoeiaSheet p) (messageDisplay p) (currentButton p) (nextVideo p)
         (localStorage p) (ui p) (uploads p) (upload p) (clock p) (texts p) w.

(** A call into the sheet service. *)
Definition lift {A : Type} (m : M World A) : M Page A :=
  fun p => let '(r, w) := m (world p) in (r, set_world w p).

(** [uiManager.showError(messageDisplay, text)] and its siblings. *)
Definition showError (text : string) : M Page unit := effect (note (ShowError text)).
Definition showSuccess (text : string) : M Page unit := effect (note (ShowSuccess text)).

Definition when {S : Type} (b : bool) (m : M S unit) : M S unit :=
  if b then m else ret tt.

(** [await uploadAudioFile(...)] *)
Definition uploadAudioFile : M Page Value :=
  fun p => (upload p, count_upload p).

(** What [JSON.stringify] keeps of an object: a property whose value is
    [undefined] is left out. *)
Definition object_to_json (o : gmap string Value) : gmap string Json :=
  omap (fun v => match v with VUndefined => None | _ => Some (to_json v) end) o.

(** [ValidationUtils.validateOnomatopoeiaData(infoDict)]: [None] when
    valid, the error message otherwise.  [movement.trim] is a method of
    strings only. *)
Definition validateOnomatopoeiaData (getText : string -> string)
    (infoDict : gmap string Value) : Completion (option string) :=
  let movement := prop infoDict "movement" in
  let blank :=
    if negb (truthy movement) then Return true
    else match movement with
         | VStr s => Return (String.eqb (trim s) EmptyString)
         | _ => Throw (Exception {| kind := TypeError;
                                    message := "infoDict.movement.trim is not a function" |})
         end in
  match blank with
  | Throw e => Throw e
  | Return true => Return (Some (getText "survey.error_enter_onomatopoeia"))
  | Return false =>
      if strict_eq (prop infoDict "startTime") (VStr "-.--")
      then Return (Some (getText "survey.error_record_start"))
      else if strict_eq (prop infoDict "endTime") (VStr "-.--")
      then Return (Some (getText "survey.error_record_end"))
      else if negb (truthy (prop infoDict "participantId"))
              || negb (truthy (prop infoDict "video"))
              || negb (truthy (prop infoDict "answeredTimestamp"))
      then Return (Some (getText "survey.error_saving_general"))
      else Return None
  end.

(** The object sent to the sheet service. *)
Definition onomatopoeiaData (infoDict : gmap string Value) (audioFileName : Value)
    : gmap string Value :=
  <["participantId" := VNum (parseInt (prop infoDict "participantId"))]>
  (<["participantName" := prop infoDict "participantName"]>
  (<["video" := prop infoDict "video"]>
  (<["movement" := prop infoDict "movement"]>
  (<["startTime" := VNum (parseFloat (prop infoDict "startTime"))]>
  (<["endTime" := VNum (parseFloat (prop infoDict "endTime"))]>
  (<["answeredTimestamp" := prop infoDict "answeredTimestamp"]>
  (<["hasAudio" := or_else (prop infoDict "hasAudio") (num 0)]>
  (<["audioFileName" := or_else audioFileName (VStr EmptyString)]> ∅)))))))).

(** The object kept locally: [{...infoDict, hasAudio, audioFileName}]
    without [audioBlob]. *)
Definition updatedInfoDict (infoDict : gmap string Value) (audioFileName : Value)
    : gmap string Value :=
  delete "audioBlob"
    (<["audioFileName" := audioFileName]>
    (<["hasAudio" := or_else (prop infoDict "hasAudio") (num 0)]> infoDict)).

(** [saveOnomatopoeia(filteredData, infoDict, spreadsheetId,
    OnomatopoeiaSheet, messageDisplay, verbose)], called with
    [this.filteredData], [this.config.spreadsheetId],
    [this.config.OnomatopoeiaSheet] and [this.elements.messageDisplay] at
    both call sites.  The service returns an object, so the test
    [!appendResult] does not fire. *)
Definition saveOnomatopoeia (infoDict : gmap string Value) (verbose : bool) : M Page unit :=
  let* getText := gets texts in
  match validateOnomatopoeiaData getText infoDict with
  | Throw e => throw e
  | Return (Some errorMessage) =>
      do* when verbose (showError errorMessage) in
      throw (newError errorMessage)
  | Return None =>
      let* audioFileName :=
        if truthy (prop infoDict "audioBlob") && strict_eq (prop infoDict "hasAudio") (num 1)
        then try_catch uploadAudioFile (fun _ =>
               do* effect (note (ConsoleError "Audio upload failed:")) in
               do* when verbose (showError (getText "survey.audio_upload_error")) in
               ret VNull)
        else ret VNull in
      let* sheetId := gets spreadsheetId in
      let* sheetName := gets OnomatopoeiaSheet in
      let* appendResult :=
        lift (Sheets.saveOnomatopoeia Sheets.constructor sheetId sheetName
                (onomatopoeiaData infoDict audioFileName)) in
      do* effect (fun p => set_filteredData
                             (filteredData p ++ [updatedInfoDict infoDict audioFileName])%list p) in
      do* effect (fun p => set_localStorage (map object_to_json (filteredData p)) p) in
      when verbose
        (showSuccess
           (if strict_eq (prop infoDict "hasAudio") (num 1) && truthy audioFileName
            then getText "survey.success_saved_with_audio"
            else getText "survey.success_saved"))
  end.

(** The [infoDict] of [handleNoOnomatopoeia]. *)
Definition noOnomatopoeiaInfo (p : Page) : gmap string Value :=
  <["participantId" := prop (participantInfo p) "participantId"]>
  (<["participantName" := or_else (prop (participantInfo p) "name")
                                  (prop (participantInfo p) "email")]>
  (<["video" := currentVideoName p]>
  (<["movement" := VStr "null"]>
  (<["startTime" := VStr "null"]>
  (<["endTime" := VStr "null"]>
  (<["answeredTimestamp" := VStr (clock p)]>
  (<["hasAudio" := num 0]> ∅))))))).

(** [goToNextVideo(currentButton)]: a click on the next button makes the
    video manager report the change of video. *)
Definition goToNextVideo : M Page unit :=
  do* effect (note GoToNextVideo) in
  effect (fun p => match nextVideo p with
                   | Some v => set_currentVideoName (VStr v) p
                   | None => p
                   end).

(** [handleNoOnomatopoeia()] *)
Definition handleNoOnomatopoeia : M Page unit :=
  let* hasDisplay := gets messageDisplay in
  do* when hasDisplay (effect (note ClearMessage)) in
  let* button := gets currentButton in
  if button then
    try_catch
      (let* p := gets (fun p => p) in
       let currentVideoData :=
         filter (fun item => strict_eq (prop item "video") (currentVideoName p) = true)
                (filteredData p) in
       do* when (Nat.eqb (length currentVideoData) 0)
                (saveOnomatopoeia (noOnomatopoeiaInfo p) false) in
       do* effect (note ResetDisplay) in
       goToNextVideo)
      (fun _ => effect (note (ConsoleError "Error saving 'no' response:")))
  else ret tt.

(** The [infoDict] of [handleSaveOnomatopoeia], from the form: the trimmed
    text, the two time displays, whether a recording exists and its
    [Blob]. *)
Definition saveInfo (p : Page) (movement startTime endTime : string) (recording : option Value)
    : gmap string Value :=
  <["participantId" := prop (participantInfo p) "participantId"]>
  (<["participantName" := or_else (prop (participantInfo p) "name")
                                  (prop (participantInfo p) "email")]>
  (<["video" := currentVideoName p]>
  (<["movement" := or_else (VStr (trim movement)) (VStr EmptyString)]>
  (<["startTime" := or_else (VStr startTime) (VStr "-.--")]>
  (<["endTime" := or_else (VStr endTime) (VStr "-.--")]>
  (<["answeredTimestamp" := VStr (clock p)]>
  (<["hasAudio" := num (match recording with Some _ => 1 | None => 0 end)]>
  (<["audioBlob" := match recording with Some b => b | None => VNull end]> ∅)))))))).

(** [handleSaveOnomatopoeia()]; [submitWithLoading] only puts the button
    in its loading state around the call, and [this.showError] shows the
    message when the page has a message element. *)
Definition handleSaveOnomatopoeia (movement startTime endTime : string)
    (recording : option Value) : M Page unit :=
  try_catch
    (let* p := gets (fun p => p) in
     do* saveOnomatopoeia (saveInfo p movement startTime endTime recording) true in
     effect (note ResetDisplay))
    (fun _ =>
       let* getText := gets texts in
       let* hasDisplay := gets messageDisplay in
       do* effect (note (ConsoleError "Error saving onomatopoeia:")) in
       when hasDisplay
         (showError (match or_else (VStr (getText "survey.save_error"))
                                   (VStr "Failed to save response") with
                     | VStr t => t
                     | _ => EmptyString
                     end))).

(** A sentinel in a record or in a row: the string ["null"]. *)
Definition is_null_string (v : Value) : bool := strict_eq v (VStr "null").

(** The row that the sheet service appends for a record. *)
Definition appended_row (record : gmap string Value) : list Json :=
  match transformObjectToRow record onomatopoeiaMapping with
  | Return row => row_to_json row
  | Throw _ => []
  end.

(** A participant on the first video, with nothing saved yet, and a sheet
    that accepts every request. *)
Definition sample_page : Page :=
  {| filteredData := [];
     currentVideoName := VStr "1.mp4";
     participantInfo :=
       <["participantId" := VStr "3"]>
       (<["name" := VStr "Ann"]> (<["email" := VStr "a@b.com"]> ∅));
     spreadsheetId := "sheet-id";
     OnomatopoeiaSheet := "Onomatopoeia";
     messageDisplay := true;
     currentButton := true;
     nextVideo := Some "2.mp4";
     localStorage := None;
     ui := [];
     uploads := 0;
     upload := Throw (newError "upload refused");
     clock := "2025-01-01T00:00:00Z";
     texts := fun key => key;
     world := {| network := fun _ =>
                   Responds (mkResponse true 200 "OK"
                               (Parsed (mkResponseJson None None)));
                 attempts := 0; token := "token";
                 requests := []; sleeps := []; console := [] |} |}.

End SurveyApp.

(* ===================================================================== *)
(** * [TutorialStepManager]: progress                                     *)
(* ===================================================================== *)

Module StepProgress.

Import Js StepManager.

(** [a / b] on two integers: a division by zero gives an infinity, or
    [NaN] for [0 / 0]. *)
Definition divide (a b : Z) : Number :=
  if b =? 0 then
    (if a =? 0 then NaN else if 0 <? a then PosInf else NegInf)
  else Fin (inject_Z a / inject_Z b).

(** [n * 100] *)
Definition times100 (n : Number) : Number :=
  match n with
  | Fin q => Fin (q * 100)
  | other => other
  end.

(** [getProgressPercentage()] *)
Definition getProgressPercentage (m : Manager) : Number :=
  times100 (divide (currentStep m) (totalSteps m)).

(** The current step's validation key is marked, when it has one. *)
Definition unlock (m : Manager) : Manager :=
  match validation (getStepConfig m) with
  | Some key => step (OpMark key) m
  | None => m
  end.

End StepProgress.

(* ===================================================================== *)
(** * The tutorial controller: a session                                  *)
(* ===================================================================== *)

Module TutorialSession.

Import StepManager TutorialApp.

(** What the user can do to the sequencer through the page: the next and
    previous buttons of the bubble, an action that the page tracks (the
    listeners call [checkStepValidation] whatever the current step is),
    and the button of the welcome dialog. *)
Inductive UserAction : Type :=
| Next
| Previous
| Did (action : string)
| Begin.

Definition act (u : UserAction) (a : App) : App :=
  match u with
  | Next => nextStep a
  | Previous => previousStep a
  | Did action => checkStepValidation action a
  | Begin => startTutorial a
  end.

(** The controller after [initializeSubclass] and a sequence of user
    actions. *)
Definition session (actions : list UserAction) : App :=
  fold_left (fun a u => act u a) actions (initializeTutorial TutorialApp.constructor).

(** Every required step before the current one has had its action
    done. *)
Definition passed_steps_done (m : Manager) : Prop :=
  forall s, 1 <= s < currentStep m ->
    required (getStepConfigAt s) = true ->
    exists key, validation (getStepConfigAt s) = Some key /\
                stepValidation m !! key = Some true.

(** What every state of a session satisfies. *)
Definition session_ok (m : Manager) : Prop :=
  in_range m /\ totalSteps m = 10 /\
  dom (stepValidation m) = dom initialValidation /\
  passed_steps_done m.

End TutorialSession.

(* ===================================================================== *)
(** * [GoogleSheetsService]: participants                                 *)
(* ===================================================================== *)

Module Participants.

Import Js Sheets.
Local Open Scope js_scope.

Definition isNaN (n : Number) : bool :=
  match n with
  | NaN => true
  | _ => false
  end.

(** [a > b] on numbers *)
Definition num_gtb (a b : Number) : bool :=
  match a, b with
  | NaN, _ | _, NaN => false
  | PosInf, PosInf => false
  | PosInf, _ => true
  | _, PosInf => false
  | NegInf, _ => false
  | Fin _, NegInf => true
  | Fin x, Fin y => negb (Qle_bool x y)
  end.

(** [n + 1], exact: the JavaScript sum up to [max_safe_integer]. *)
Definition plus_one (n : Number) : Number :=
  match n with
  | Fin q => Fin (Qred (q + 1))
  | other => other
  end.

(** [Number.MAX_SAFE_INTEGER] *)
Definition max_safe_integer : Q := inject_Z (2 ^ 53 - 1).

(** A first cell on which the exact [parseInt] and [+ 1] of the model are
    those of JavaScript: an ASCII string whose integer, when it has one,
    is a safe integer; a number that is a safe integer; or a value that
    is neither. *)
Definition safe_id_cell (v : Value) : bool :=
  match v with
  | VStr s =>
      ascii_only s &&
      match parseInt_string s with
      | Fin x => Qle_bool (Qabs x) max_safe_integer
      | _ => true
      end
  | VNum (Fin q) =>
      Qeq_bool (inject_Z (trunc q)) q && Qle_bool (Qabs q) max_safe_integer
  | _ => true
  end.

(** The loop of [saveNewParticipant] over the rows from index 1 on. *)
Fixpoint maxId_from (rows : Table) (maxId : Number) : Number :=
  match rows with
  | [] => maxId
  | row :: rest =>
      let id := parseInt (array_get row 0) in
      maxId_from rest (if negb (isNaN id) && num_gtb id maxId then id else maxId)
  end.

(** [maxId] after the loop; the loop is entered when the table has more
    than one row. *)
Definition maxParticipantId (table : Table) : Number :=
  match table with
  | [] | [_] => Fin 0
  | _ :: rest => maxId_from rest (Fin 0)
  end.

Definition newParticipantId (table : Table) : Number :=
  plus_one (maxParticipantId table).

(** [{...participantData, participantId, registrationTimestamp}] *)
Definition participantWithId (participantData : gmap string Value) (id : Number)
    (now : string) : gmap string Value :=
  <["registrationTimestamp" := VStr now]>
  (<["participantId" := VNum id]> participantData).

(** [saveNewParticipant(spreadsheetId, sheetName, participantData)];
    [now] is what [obtainDate()] returns when the record is built. *)
Definition saveNewParticipant (svc : Service) (now : string)
    (spreadsheetId sheetName : string) (participantData : gmap string Value)
    : M World (gmap string Value) :=
  let* table := getSheetData svc spreadsheetId sheetName in
  let participant := participantWithId participantData (newParticipantId table) now in
  match transformObjectToRow participant participantMapping with
  | Throw e => throw e
  | Return newRow =>
      do* appendSheetData svc spreadsheetId sheetName (OneRow newRow) in
      ret participant
  end.

(** [findParticipantByEmail(spreadsheetId, sheetName, email)]; [None] is
    [null]. *)
Definition findParticipantByEmail (svc : Service) (spreadsheetId sheetName : string)
    (email : string) : M World (option (gmap string Value)) :=
  let* table := getSheetData svc spreadsheetId sheetName in
  match findRow table [("1", Literal (VStr email))] with
  | None => ret None
  | Some result => ret (Some (transformRowToObject (data result) participantMapping))
  end.

(** An e-mail cell of a sheet: an ASCII string, or nothing. *)
Definition email_cell (v : Value) : bool :=
  match v with
  | VStr s => ascii_only s
  | VUndefined | VNull => true
  | _ => false
  end.

(** The row that [saveNewParticipant] appends for a participant. *)
Definition participant_row (participant : gmap string Value) : list Slot :=
  fill participant participantMapping (new_Array 7).

(** An attempt is answered without error: a successful status and a body
    that parses. *)
Definition answers (w : World) (n : nat) (j : ResponseJson) : Prop :=
  exists st stt, network w n = Responds (mkResponse true st stt (Parsed j)).

(** The waits of a linear backoff: [delay * first], [delay * (first + 1)],
    ... ([count] of them). *)
Definition backoff (delay first : Z) (count : nat) : list Z :=
  map (fun i => delay * (first + Z.of_nat i)) (seq 0 count).

End Participants.

(* ===================================================================== *)
(** * [BubblePositioner]: arrow and steps                                 *)
(* ===================================================================== *)

Module StepBubble.

Import Js BubblePositioner.
Local Open Scope Q_scope.

(** [a > b] on finite numbers *)
Definition gtb (a b : Q) : bool := negb (Qle_bool a b).

Definition calculateArrowDirection (bubblePosition : Strategy) (bubbleRect : Rect)
    (targetCenterX targetCenterY : Q) : string :=
  let bubbleCenterX := left bubblePosition + rect_width bubbleRect / 2 in
  let bubbleCenterY := top bubblePosition + rect_height bubbleRect / 2 in
  let deltaX := bubbleCenterX - targetCenterX in
  let deltaY := bubbleCenterY - targetCenterY in
  if gtb (Qabs deltaX) (Qabs deltaY) then
    (if gtb deltaX 0 then "arrow-left" else "arrow-right")
  else
    (if gtb deltaY 0 then "arrow-top" else "arrow-bottom").

(** [getStepPositioningPreferences(stepNumber)] *)
Definition getStepPositioningPreferences (stepNumber : Z) : list string :=
  match stepNumber with
  | 1%Z => ["below"; "right"; "left"; "above"]
  | 2%Z => ["right"; "left"; "above"; "below"]
  | 3%Z => ["above"; "below"; "right"; "left"]
  | 4%Z => ["right"; "left"; "below"; "above"]
  | 5%Z => ["above"; "below"; "right"; "left"]
  | 6%Z => ["right"; "left"; "below"; "above"]
  | 7%Z => ["right"; "left"; "below"; "above"]
  | 8%Z => ["above"; "right"; "left"; "below"]
  | 9%Z => ["above"; "right"; "left"; "below"]
  | 10%Z => ["above"; "below"; "right"; "left"]
  | _ => ["right"; "left"; "below"; "above"]
  end.

(** The elements of the page that a step can point at, each by the
    rectangle that [getBoundingClientRect] returns for it when the bubble
    is placed (after any scrolling), or [None] when the page lacks it. *)
Record Elements : Type := mkElements {
  languageSelect_parentElement : option Rect;
  videoPlayer : option Rect;
  hasOnomatopoeiaButtonYes : option Rect;
  onomatopoeiaInput : option Rect;
  getStart : option Rect;
  getEnd : option Rect;
  audioRecord : option Rect;
  saveOnomatopoeiaButton : option Rect;
  videoButtons : option Rect
}.

(** [getStepElementMapping(elements)[stepNumber]] *)
Definition getStepElementMapping (elements : Elements) (stepNumber : Z) : option Rect :=
  match stepNumber with
  | 1%Z => languageSelect_parentElement elements
  | 2%Z => videoPlayer elements
  | 3%Z => videoPlayer elements
  | 4%Z => hasOnomatopoeiaButtonYes elements
  | 5%Z => onomatopoeiaInput elements
  | 6%Z => getStart elements
  | 7%Z => getEnd elements
  | 8%Z => audioRecord elements
  | 9%Z => saveOnomatopoeiaButton elements
  | 10%Z => videoButtons elements
  | _ => None
  end.

(** The options of [positionNear] after the defaults are merged in. *)
Record Options : Type := mkOptions {
  offset : Q;
  viewportPadding : Q;
  scrollIntoView : bool
}.

Definition defaultOptions : Options :=
  {| offset := 20; viewportPadding := 20; scrollIntoView := true |}.

(** What [performPositioning] returns. *)
Record Placed : Type := mkPlaced {
  position : Strategy;
  arrow_class : string;
  placed_targetRect : Rect;
  placed_bubbleRect : Rect
}.

(** [performPositioning(bubble, target, preferences, config)], on the two
    measured rectangles and the size of the window. *)
Definition performPositioning (bubbleRect targetRect : Rect) (preferences : list string)
    (config : Options) (viewportWidth viewportHeight : Q) : Completion Placed :=
  let targetCenterX := rect_left targetRect + rect_width targetRect / 2 in
  let targetCenterY := rect_top targetRect + rect_height targetRect / 2 in
  let positionStrategies :=
    generatePositionStrategies targetRect bubbleRect (offset config) preferences in
  match findBestPosition positionStrategies bubbleRect viewportWidth viewportHeight
                         (viewportPadding config) with
  | Throw e => Throw e
  | Return best =>
      Return {| position := best;
                arrow_class := calculateArrowDirection best bubbleRect
                                 targetCenterX targetCenterY;
                placed_targetRect := targetRect;
                placed_bubbleRect := bubbleRect |}
  end.

(** [positionForStep(bubble, stepNumber, elements, preferences)]: [None]
    is the promise of [null]; an array, even empty, is a given
    preference order. *)
Definition positionForStep (bubble : option Rect) (stepNumber : Z) (elements : Elements)
    (preferences : option (list string)) (viewportWidth viewportHeight : Q)
    : option (Completion Placed) :=
  match getStepElementMapping elements stepNumber, bubble with
  | Some targetRect, Some bubbleRect =>
      let prefs := match preferences with
                   | Some given => given
                   | None => getStepPositioningPreferences stepNumber
                   end in
      Some (performPositioning bubbleRect targetRect prefs defaultOptions
                               viewportWidth viewportHeight)
  | _, _ => None
  end.

(** A rectangle and an offset as the page has them. *)
Definition proper (targetRect bubbleRect : Rect) (offset : Q) : Prop :=
  0 <= rect_width targetRect /\ 0 <= rect_height targetRect /\
  0 <= rect_width bubbleRect /\ 0 <= rect_height bubbleRect /\ 0 < offset.

End StepBubble.

(* ===================================================================== *)
(** * [SurveyApp] and [VideoManager]: the video buttons                   *)
(* ===================================================================== *)

Module VideoButtons.

Import Js Sheets.

(** [s.split("/").pop()]: what follows the last slash. *)
Fixpoint pop_split (s : string) : string :=
  match s with
  | EmptyString => EmptyString
  | String c rest =>
      if contains "/" rest then pop_split rest
      else if Ascii.eqb c "/" then rest
      else s
  end.

(** [button.dataset.video] as [createVideoButtons] sets it. *)
Definition dataset_video (videoName : string) : string := "videos/" ++ videoName.

(** The fields of a [VideoManager] that [setActiveVideo] reads and
    assigns. *)
Record Player : Type := mkPlayer {
  videoPlayer : bool;
  currentVideo : Value;
  currentVideoName : Value
}.

(** [setActiveVideo(videoSrc, buttonElement)]: the new state and the
    arguments of the [onVideoChange] call, if it is reached. *)
Definition setActiveVideo (videoSrc : string) (vm : Player)
    : Player * option (string * string) :=
  if String.eqb videoSrc EmptyString || negb (videoPlayer vm) then (vm, None)
  else
    ({| videoPlayer := videoPlayer vm;
        currentVideo := VStr videoSrc;
        currentVideoName := VStr (pop_split videoSrc) |},
     Some (pop_split videoSrc, videoSrc)).

(** The [determineState] callback that [SurveyApp.resetDisplay] hands to
    [updateButtonCompletionStates]; [None] is [null]. *)
Definition determineState (videoName : string) (data : list (gmap string Value))
    : option string :=
  let videoData :=
    List.filter (fun item => strict_eq (prop item "video") (VStr videoName)) data in
  match videoData with
  | [] => None
  | _ =>
      if existsb (fun item => negb (strict_eq (prop item "onomatopoeia") (VStr "null")))
                 videoData
      then Some "completed"
      else Some "no-onomatopoeia"
  end.

(** The descriptions that [resetDisplay] lists for the current video. *)
Definition relevantData (currentVideoName : Value) (data : list (gmap string Value))
    : list (gmap string Value) :=
  List.filter (fun item => strict_eq (prop item "video") currentVideoName
                           && negb (strict_eq (prop item "movement") (VStr "null")))
              data.

End VideoButtons.

(* ===================================================================== *)
(** * Properties of the step sequencer                                    *)
(* ===================================================================== *)

Section StepSequencer.

Import StepManager.

Context {U : Type}.
Implicit Types (h : Host U) (m : Manager).

Lemma canAdvance_flag m key :
  required (getStepConfig m) = true ->
  validation (getStepConfig m) = Some key ->
  forall flag, stepValidation m !! key = Some flag -> canAdvance m = flag.
Proof.
  intros Hreq Hval flag Hflag. unfold canAdvance.
  rewrite Hreq, Hval, Hflag. reflexivity.
Qed.

(** Every step whose configuration is [required] has a message. *)
Lemma required_has_message m :
  required (getStepConfig m) = true ->
  exists message,
    getRequiredActionMessage m = Some message /\ String.eqb message EmptyString = false.
Proof.
  unfold getStepConfig, getStepConfigAt, getRequiredActionMessage.
  destruct (currentStep m) as [|p|p]; cbn; try discriminate.
  do 5 (try destruct p as [p|p|]; cbn; try discriminate);
    intros _; eexists; split; reflexivity.
Qed.

(** The message of each required step, with the action the step waits
    for. *)
Lemma required_step_message m key :
  required (getStepConfig m) = true ->
  validation (getStepConfig m) = Some key ->
  exists message,
    In (currentStep m, key, message)
       [(2, "video_played", "Please play the video to continue.");
         (4, "clicked_yes", "Please click the 'Yes' button to continue.");
         (5, "entered_text",
          "Please enter some text in the onomatopoeia field to continue.");
         (6, "clicked_start_time",
          "Please click the 'Get Start Time' button to continue.");
         (7, "clicked_end_time",
          "Please click the 'Get End Time' button to continue.");
         (9, "clicked_save",
          "Please click the 'Save Onomatopoeia' button to continue.")] /\
    getRequiredActionMessage m = Some message /\
    String.eqb message EmptyString = false.
Proof.
  unfold getStepConfig, getStepConfigAt, getRequiredActionMessage.
  destruct (currentStep m) as [|p|p]; cbn; try discriminate.
  do 5 (try destruct p as [p|p|]; cbn; try discriminate);
    intros _ [= <-];
    refine (ex_intro _ _ (conj _ (conj eq_refl eq_refl))); cbn; tauto.
Qed.

Lemma mark_tracked h action (old : bool) :
  stepValidation (mgr h) !! action = Some old ->
  markActionCompleted action None None h =
    with_mgr (fun m => set_stepValidation (<[action := true]> (stepValidation m)) m) h.
Proof.
  intros Hold. unfold markActionCompleted. rewrite Hold. cbn.
  destruct (autoAdvance _ && _); reflexivity.
Qed.

Lemma advance_open h onAdvance onRequiredAction :
  canAdvance (mgr h) = true ->
  advance onAdvance onRequiredAction h =
    if currentStep (mgr h) <? totalSteps (mgr h)
    then (true, call onAdvance (currentStep (mgr h) + 1)
                  (with_mgr (fun m => set_currentStep (currentStep m + 1) m) h))
    else (false, h).
Proof.
  intros Hcan. unfold advance. rewrite Hcan. cbn.
  destruct (currentStep (mgr h) <? totalSteps (mgr h)); [|reflexivity].
  destruct h as [m u]; reflexivity.
Qed.

Lemma canAdvance_marked m action :
  validation (getStepConfig m) = Some action ->
  canAdvance (set_stepValidation (<[action := true]> (stepValidation m)) m) = true.
Proof.
  intros Hval. unfold canAdvance, getStepConfig in *. cbn.
  destruct (required _); [|reflexivity]. cbn. rewrite Hval.
  rewrite lookup_insert_eq. reflexivity.
Qed.

Lemma advance_flags h onAdvance onRequiredAction :
  (forall x h', stepValidation (mgr (call onAdvance x h')) = stepValidation (mgr h')) ->
  (forall x h', stepValidation (mgr (call onRequiredAction x h')) = stepValidation (mgr h')) ->
  stepValidation (mgr (snd (advance onAdvance onRequiredAction h))) = stepValidation (mgr h).
Proof.
  intros Ha Hr. unfold advance.
  destruct (negb (canAdvance (mgr h))).
  - destruct (getRequiredActionMessage (mgr h)) as [msg|]; [|reflexivity].
    destruct (negb (String.eqb msg EmptyString)); [|reflexivity]. cbn. apply Hr.
  - destruct (currentStep (mgr h) <? totalSteps (mgr h)); [|reflexivity].
    cbn. rewrite Ha. reflexivity.
Qed.

Lemma goBack_flags h onGoBack :
  (forall x h', stepValidation (mgr (call onGoBack x h')) = stepValidation (mgr h')) ->
  stepValidation (mgr (snd (goBack onGoBack h))) = stepValidation (mgr h).
Proof.
  intros Hb. unfold goBack.
  destruct (1 <? currentStep (mgr h)); [|reflexivity].
  cbn. rewrite Hb. reflexivity.
Qed.

End StepSequencer.

Section StepSequencerClaims.

Import StepManager.

(** C3.  In a state whose current step is [required] with a validation
    key whose flag is false, [advance] returns false, leaves the sequencer
    as it is and calls the required-action callback with the message of
    the step: the text that [requiredActionMessages] has for that step,
    one of the six listed with the step and its key; after
    [markActionCompleted] of that key, [advance] raises [currentStep] by
    one, unless [totalSteps] is reached.  At step 4 the key is
    [clicked_yes] and the message asks for the 'Yes' button: [advance]
    leaves the step at 4 before the action is marked and at 5 after. *)
Theorem C3_required_gate {U : Type} (h : Host U) (key : string) :
  required (getStepConfig (mgr h)) = true ->
  validation (getStepConfig (mgr h)) = Some key ->
  stepValidation (mgr h) !! key = Some false ->
  (exists message,
     In (currentStep (mgr h), key, message)
        [(2, "video_played", "Please play the video to continue.");
         (4, "clicked_yes", "Please click the 'Yes' button to continue.");
         (5, "entered_text",
          "Please enter some text in the onomatopoeia field to continue.");
         (6, "clicked_start_time",
          "Please click the 'Get Start Time' button to continue.");
         (7, "clicked_end_time",
          "Please click the 'Get End Time' button to continue.");
         (9, "clicked_save",
          "Please click the 'Save Onomatopoeia' button to continue.")] /\
     getRequiredActionMessage (mgr h) = Some message /\
     forall onAdvance onRequiredAction,
       advance onAdvance (Some onRequiredAction) h = (false, onRequiredAction message h)) /\
  (forall onAdvance, advance onAdvance None h = (false, h)) /\
  let h' := markActionCompleted key None None h in
  stepValidation (mgr h') !! key = Some true /\
  currentStep (mgr h') = currentStep (mgr h) /\
  totalSteps (mgr h') = totalSteps (mgr h) /\
  (currentStep (mgr h) < totalSteps (mgr h) ->
     fst (advance None None h') = true /\
     currentStep (mgr (snd (advance None None h'))) = currentStep (mgr h) + 1) /\
  (totalSteps (mgr h) <= currentStep (mgr h) -> advance None None h' = (false, h')) /\
  (in_range (mgr h) ->
     currentStep (mgr (snd (advance None None h')))
       = Z.min (currentStep (mgr h) + 1) (totalSteps (mgr h))) /\
  (currentStep (mgr h) = 4 -> 4 < totalSteps (mgr h) ->
     key = "clicked_yes" /\
     (forall onAdvance onRequiredAction,
        advance onAdvance (Some onRequiredAction) h
          = (false, onRequiredAction "Please click the 'Yes' button to continue." h)) /\
     currentStep (mgr (snd (advance None None h))) = 4 /\
     currentStep (mgr (snd (advance None None h'))) = 5).
Proof.
  intros Hreq Hval Hflag.
  pose proof (canAdvance_flag (mgr h) key Hreq Hval false Hflag) as Hcan.
  destruct (required_step_message (mgr h) key Hreq Hval) as (msg & Htable & Hmsg & Hne).
  assert (Hstuck : forall onAdvance, advance onAdvance None h = (false, h)).
  { intros oa. unfold advance. rewrite Hcan, Hmsg, Hne. reflexivity. }
  assert (Hcalled : forall onAdvance onRequiredAction,
            advance onAdvance (Some onRequiredAction) h = (false, onRequiredAction msg h)).
  { intros oa ora. unfold advance. rewrite Hcan, Hmsg, Hne. reflexivity. }
  split; [|split; [exact Hstuck|]].
  { exists msg. split; [exact Htable|]. split; [exact Hmsg|exact Hcalled]. }
  cbv zeta. rewrite (mark_tracked h key false Hflag).
  set (h' := with_mgr _ h).
  assert (Hcan' : canAdvance (mgr h') = true)
    by (apply canAdvance_marked; exact Hval).
  assert (Hcur : currentStep (mgr h') = currentStep (mgr h)) by reflexivity.
  assert (Htot : totalSteps (mgr h') = totalSteps (mgr h)) by reflexivity.
  assert (Hup : currentStep (mgr h) < totalSteps (mgr h) ->
                fst (advance None None h') = true /\
                currentStep (mgr (snd (advance None None h'))) = currentStep (mgr h) + 1).
  { intros Hlt. rewrite (advance_open h' None None Hcan'), Hcur, Htot.
    apply Z.ltb_lt in Hlt. rewrite Hlt. split; reflexivity. }
  assert (Htop : totalSteps (mgr h) <= currentStep (mgr h) ->
                 advance None None h' = (false, h')).
  { intros Hge. rewrite (advance_open h' None None Hcan'), Hcur, Htot.
    apply Z.ltb_ge in Hge. rewrite Hge. reflexivity. }
  refine (conj _ (conj Hcur (conj Htot (conj Hup (conj Htop (conj _ _)))))).
  - subst h'. cbn. apply lookup_insert_eq.
  - intros [_ Hle].
    destruct (Z.eq_dec (currentStep (mgr h)) (totalSteps (mgr h))) as [E|N].
    + rewrite Htop by lia. cbn. lia.
    + destruct Hup as [_ ->]; lia.
  - intros H4 Hlt. refine (conj _ (conj _ (conj _ _))).
    + unfold getStepConfig in Hval. rewrite H4 in Hval. cbn in Hval. congruence.
    + intros oa ora. rewrite Hcalled. f_equal. f_equal.
      unfold getRequiredActionMessage in Hmsg. rewrite H4 in Hmsg. cbn in Hmsg.
      congruence.
    + rewrite Hstuck. cbn. assumption.
    + destruct Hup as [_ ->]; lia.
Qed.

(** C2 (amended).  When the current step has [autoAdvance] and its
    validation key is the tracked action [action],
    [markActionCompleted(action)] sets the flag and calls the
    [onAutoAdvance] callback, if one is passed, with the current step and
    the action; the sequencer itself leaves [currentStep] as it is.  The
    tutorial controller passes a callback that calls [nextStep()], hence
    [advance()]: through it [checkStepValidation(action)] sets the flag and
    raises [currentStep] by one when [currentStep < totalSteps]. *)
Theorem C2_auto_advance_by_callback {U : Type} (h : Host U) (action : string) :
  autoAdvance (getStepConfig (mgr h)) = true ->
  validation (getStepConfig (mgr h)) = Some action ->
  is_Some (stepValidation (mgr h) !! action) ->
  let marked :=
    with_mgr (fun m => set_stepValidation (<[action := true]> (stepValidation m)) m) h in
  markActionCompleted action None None h = marked /\
  stepValidation (mgr marked) !! action = Some true /\
  currentStep (mgr marked) = currentStep (mgr h) /\
  (forall onAutoAdvance,
     markActionCompleted action None (Some onAutoAdvance) h
       = onAutoAdvance (currentStep (mgr h), action) marked) /\
  (forall a : TutorialApp.App,
     mgr a = mgr h ->
     currentStep (mgr h) < totalSteps (mgr h) ->
     let a' := TutorialApp.checkStepValidation action a in
     stepValidation (mgr a') = <[action := true]> (stepValidation (mgr h)) /\
     currentStep (mgr a') = currentStep (mgr h) + 1).
Proof.
  intros Hauto Hval [old Hold]. cbv zeta.
  split; [|split; [|split; [|split]]].
  - apply (mark_tracked h action old Hold).
  - cbn. apply lookup_insert_eq.
  - reflexivity.
  - intros cb. unfold markActionCompleted. rewrite Hold. cbn.
    unfold getStepConfig in *. cbn. rewrite Hauto, Hval, String.eqb_refl. reflexivity.
  - intros [ma ua] Ha Hlt. cbn in Ha. subst ma.
    unfold TutorialApp.checkStepValidation, markActionCompleted.
    cbn. rewrite Hold. cbn.
    unfold getStepConfig in *. cbn. rewrite Hauto, Hval, String.eqb_refl. cbn.
    unfold TutorialApp.nextStep.
    match goal with
    | |- context [advance ?oa ?ora ?x] =>
        pose proof (advance_open x oa ora) as Hadv
    end.
    cbn in Hadv.
    rewrite Hadv by (apply canAdvance_marked; exact Hval).
    apply Z.ltb_lt in Hlt. rewrite Hlt. cbn. split; reflexivity.
Qed.

End StepSequencerClaims.

Section StepSequencerRuns.

Import StepManager.

Lemma step_keeps_true (op : Op) (m : Manager) (key : string) :
  keeps_flags op = true ->
  stepValidation m !! key = Some true ->
  stepValidation (step op m) !! key = Some true.
Proof.
  intros Hop Hkey. destruct op; try discriminate; cbn.
  - rewrite (advance_flags (bare m) None None); [exact Hkey | reflexivity | reflexivity].
  - rewrite (goBack_flags (bare m) None); [exact Hkey | reflexivity].
  - unfold markActionCompleted. cbn.
    destruct (stepValidation m !! action) eqn:E; [|exact Hkey].
    assert (Hset : stepValidation
              (mgr (with_mgr (fun m0 => set_stepValidation
                                          (<[action := true]> (stepValidation m0)) m0)
                             (bare m))) !! key = Some true).
    { cbn. destruct (decide (action = key)) as [->|Hne].
      - apply lookup_insert_eq.
      - rewrite lookup_insert_ne by exact Hne. exact Hkey. }
    destruct (autoAdvance _ && _); exact Hset.
  - unfold goToStep. cbn.
    destruct ((1 <=? stepNumber) && (stepNumber <=? totalSteps m)); exact Hkey.
Qed.

Lemma run_keeps_true (ops : list Op) :
  forall (m : Manager) (key : string),
    Forall (fun op => keeps_flags op = true) ops ->
    stepValidation m !! key = Some true ->
    stepValidation (run ops m) !! key = Some true.
Proof.
  induction ops as [|op ops IH]; intros m key Hall Hkey; [exact Hkey|].
  inversion Hall as [|? ? Hop Hrest]; subst.
  cbn. apply IH; [exact Hrest|]. apply step_keeps_true; assumption.
Qed.

(** Every operation but [importState] keeps the step within
    [1 .. totalSteps]. *)
Lemma navigation_keeps_range (op : Op) (m : Manager) :
  navigation op = true -> in_range m -> in_range (step op m).
Proof.
  unfold in_range. intros Hop Hin. destruct op; try discriminate; cbn.
  - unfold advance. cbn.
    destruct (negb (canAdvance m)).
    + destruct (getRequiredActionMessage m) as [msg|]; [|exact Hin].
      destruct (negb (String.eqb msg EmptyString)); exact Hin.
    + destruct (Z.ltb_spec (currentStep m) (totalSteps m)); cbn; lia.
  - unfold goBack. cbn.
    destruct (Z.ltb_spec 1 (currentStep m)); cbn; lia.
  - unfold markActionCompleted. cbn.
    destruct (stepValidation m !! action); [|exact Hin].
    destruct (autoAdvance _ && _); exact Hin.
  - unfold goToStep. cbn.
    destruct (Z.leb_spec 1 stepNumber), (Z.leb_spec stepNumber (totalSteps m));
      cbn; lia.
  - exact Hin.
Qed.

(** [goToStep] outside [1 .. totalSteps] returns false and changes
    nothing. *)
Lemma goToStep_out_of_range {U : Type} (h : Host U) (k : Z) onStepChange :
  ~ (1 <= k <= totalSteps (mgr h)) -> goToStep k onStepChange h = (false, h).
Proof.
  intros Hout. unfold goToStep.
  destruct (Z.leb_spec 1 k), (Z.leb_spec k (totalSteps (mgr h))); cbn;
    try reflexivity; lia.
Qed.

(** Without an imported [totalSteps], [importState] keeps the step within
    range. *)
Lemma importState_clamps (state : Exported) (m : Manager) :
  ex_totalSteps state = None -> 1 <= totalSteps m -> in_range m ->
  in_range (importState state m).
Proof.
  unfold in_range, importState. intros Hnone Htot Hin. rewrite Hnone.
  destruct (ex_currentStep state) as [c|]; [destruct (c =? 0)|];
    destruct (ex_stepValidation state); cbn; lia.
Qed.

(** C9 (amended).  [advance], [goBack] and [goToStep] leave the set of
    validation flags as it is, also under callbacks that do not touch it,
    and [markActionCompleted] clears no flag, so no run of these four
    clears a flag.  The flags are reset to all false by a new instance and
    by [resetValidation], which the tutorial controller calls in
    [initializeTutorial]; [importState] assigns the imported values. *)
Theorem C9_flags_kept_by_transitions (m : Manager) :
  stepValidation (step OpAdvance m) = stepValidation m /\
  stepValidation (step OpGoBack m) = stepValidation m /\
  (forall k, stepValidation (step (OpGoToStep k) m) = stepValidation m) /\
  (forall (U : Type) (h : Host U) onAdvance onRequiredAction onGoBack,
     (forall x h', stepValidation (mgr (call onAdvance x h')) = stepValidation (mgr h')) ->
     (forall x h', stepValidation (mgr (call onRequiredAction x h')) = stepValidation (mgr h')) ->
     (forall x h', stepValidation (mgr (call onGoBack x h')) = stepValidation (mgr h')) ->
     stepValidation (mgr (snd (advance onAdvance onRequiredAction h))) = stepValidation (mgr h) /\
     stepValidation (mgr (snd (goBack onGoBack h))) = stepValidation (mgr h)) /\
  (forall ops key,
     Forall (fun op => keeps_flags op = true) ops ->
     stepValidation m !! key = Some true ->
     stepValidation (run ops m) !! key = Some true) /\
  (forall total key,
     is_Some (stepValidation (constructor total) !! key) ->
     stepValidation (constructor total) !! key = Some false) /\
  (forall total, stepValidation (step OpResetValidation m) = stepValidation (constructor total)) /\
  (forall a : TutorialApp.App,
     stepValidation (mgr (TutorialApp.initializeTutorial a)) = stepValidation (constructor 10)) /\
  (forall imported key (flag old : bool),
     stepValidation m !! key = Some old ->
     imported !! key = Some flag ->
     stepValidation (step (OpImport (mkExported None (Some imported) None)) m) !! key
       = Some flag).
Proof.
  refine (conj _ (conj _ (conj _ (conj _ (conj _ (conj _ (conj _ (conj _ _)))))))).
  - apply (advance_flags (bare m) None None); reflexivity.
  - apply (goBack_flags (bare m) None); reflexivity.
  - intros k. cbn. unfold goToStep. cbn.
    destruct ((1 <=? k) && (k <=? totalSteps m)); reflexivity.
  - intros U h oa ora ob Ha Hr Hb. split.
    + apply advance_flags; assumption.
    + apply goBack_flags; assumption.
  - intros ops key. apply run_keeps_true.
  - intros total key [flag Hflag]. rewrite Hflag. f_equal.
    cbn in Hflag. unfold initialValidation in Hflag.
    repeat (rewrite lookup_insert in Hflag; case_decide; [congruence|]).
    rewrite lookup_empty in Hflag. discriminate.
  - reflexivity.
  - reflexivity.
  - intros imported key flag old Hold Himp. cbn.
    unfold importFlags. rewrite map_lookup_imap, Hold. cbn. rewrite Himp. reflexivity.
Qed.

(** C10 (failing input).  A new ten-step sequencer is within range;
    after [importState({currentStep: 99, totalSteps: 5})] its step is 10,
    the clamp against the old [totalSteps], and its [totalSteps] is 5. *)
Theorem C10_importState_leaves_range :
  let m := importState (mkExported (Some 99) None (Some 5)) (constructor 10) in
  in_range (constructor 10) /\
  currentStep m = 10 /\ totalSteps m = 5 /\ ~ in_range m.
Proof.
  cbv zeta. unfold in_range. cbn. repeat split; try lia.
Qed.

End StepSequencerRuns.

(** Step 4 of a new sequencer, before and after [clicked_yes]. *)
Lemma C3_required_gate_witness :
  let h := StepManager.mkHost
             (StepManager.set_currentStep 4 (StepManager.constructor 10))
             ([] : list string) in
  let shown := fun (message : string) (h : StepManager.Host (list string)) =>
                 StepManager.mkHost (StepManager.mgr h)
                                    (StepManager.user h ++ [message])%list in
  StepManager.user (snd (StepManager.advance None (Some shown) h))
    = ["Please click the 'Yes' button to continue."] /\
  StepManager.currentStep (StepManager.mgr
    (snd (StepManager.advance None None h))) = 4 /\
  StepManager.currentStep (StepManager.mgr
    (snd (StepManager.advance None None
            (StepManager.markActionCompleted "clicked_yes" None None h)))) = 5.
Proof.
  intros h shown.
  assert (H1 : StepManager.required (StepManager.getStepConfig (StepManager.mgr h)) = true)
    by reflexivity.
  assert (H2 : StepManager.validation (StepManager.getStepConfig (StepManager.mgr h))
               = Some "clicked_yes") by reflexivity.
  assert (H3 : StepManager.stepValidation (StepManager.mgr h) !! "clicked_yes" = Some false)
    by (vm_compute; reflexivity).
  pose proof (C3_required_gate h "clicked_yes" H1 H2 H3) as (_ & _ & _ & _ & _ & _ & _ & _ & H4).
  destruct (H4 eq_refl (ltac:(cbn; lia))) as (_ & Hcalled & Hbefore & Hafter).
  split; [exact (f_equal (fun r => StepManager.user (snd r)) (Hcalled None shown))|].
  split; assumption.
Defined.

(** Step 2 of the tutorial controller: playing the video. *)
Lemma C2_auto_advance_by_callback_witness :
  let a := snd (StepManager.goToStep 2 None TutorialApp.constructor) in
  StepManager.currentStep (StepManager.mgr
    (StepManager.markActionCompleted "video_played" None None a)) = 2 /\
  StepManager.currentStep (StepManager.mgr
    (TutorialApp.checkStepValidation "video_played" a)) = 3.
Proof.
  intros a.
  assert (H1 : StepManager.autoAdvance (StepManager.getStepConfig (StepManager.mgr a)) = true)
    by reflexivity.
  assert (H2 : StepManager.validation (StepManager.getStepConfig (StepManager.mgr a))
               = Some "video_played") by reflexivity.
  assert (H3 : is_Some (StepManager.stepValidation (StepManager.mgr a) !! "video_played"))
    by (exists false; vm_compute; reflexivity).
  pose proof (C2_auto_advance_by_callback a "video_played" H1 H2 H3) as (E & _ & Hcur & _ & Happ).
  split.
  - rewrite E. exact Hcur.
  - destruct (Happ a eq_refl ltac:(cbn; lia)) as [_ Hstep]. exact Hstep.
Defined.

(** C2 as stated fails: at step 2 of a new sequencer, whose configuration
    has [autoAdvance] and the key [video_played], marking that action
    leaves the step at 2. *)
Lemma C2_counterexample :
  ~ (forall (m : StepManager.Manager) (action : string),
       StepManager.autoAdvance (StepManager.getStepConfig m) = true ->
       StepManager.validation (StepManager.getStepConfig m) = Some action ->
       StepManager.stepValidation (StepManager.step (StepManager.OpMark action) m) !! action
         = Some true /\
       StepManager.currentStep (StepManager.step (StepManager.OpMark action) m)
         = StepManager.currentStep m + 1).
Proof.
  intros Hclaim.
  destruct (Hclaim (StepManager.set_currentStep 2 (StepManager.constructor 10))
                   "video_played" eq_refl eq_refl) as [_ Hstep].
  vm_compute in Hstep. discriminate Hstep.
Qed.

(** C9 as stated fails: [resetValidation] on the same instance clears a
    flag that was set. *)
Lemma C9_counterexample :
  ~ (forall (op : StepManager.Op) (m : StepManager.Manager) (key : string),
       StepManager.stepValidation m !! key = Some true ->
       StepManager.stepValidation (StepManager.step op m) !! key = Some true).
Proof.
  intros Hclaim.
  specialize (Hclaim StepManager.OpResetValidation
                (StepManager.step (StepManager.OpMark "video_played")
                                  (StepManager.constructor 10))
                "video_played").
  assert (Hset : StepManager.stepValidation
                   (StepManager.step (StepManager.OpMark "video_played")
                                     (StepManager.constructor 10)) !! "video_played"
                 = Some true) by (vm_compute; reflexivity).
  specialize (Hclaim Hset). vm_compute in Hclaim. discriminate Hclaim.
Qed.

(** The flags of a run of transitions and markings. *)
Lemma C9_flags_kept_by_transitions_witness :
  let m := StepManager.step (StepManager.OpMark "video_played") (StepManager.constructor 10) in
  StepManager.stepValidation
    (StepManager.run [StepManager.OpAdvance; StepManager.OpGoBack;
                      StepManager.OpGoToStep 3; StepManager.OpMark "clicked_yes"] m)
    !! "video_played" = Some true.
Proof.
  intros m.
  pose proof (C9_flags_kept_by_transitions m) as (_ & _ & _ & _ & Hrun & _).
  apply Hrun.
  - repeat constructor.
  - vm_compute. reflexivity.
Defined.

(* ===================================================================== *)
(** * Properties of the row finder and of the row/object mapping          *)
(* ===================================================================== *)

Section RowFinder.

Import Js Sheets.

Lemma num_eqb_refl (n : Number) : n <> NaN -> num_eqb n n = true.
Proof.
  destruct n; cbn; try reflexivity; [congruence|].
  intros _. apply Qeq_bool_iff. reflexivity.
Qed.

Lemma loose_eq_refl (v : Value) : v <> VNum NaN -> loose_eq v v = true.
Proof.
  destruct v as [| |b|n|s|]; cbn; intros Hv; try reflexivity.
  - destruct b; reflexivity.
  - apply num_eqb_refl. congruence.
  - apply String.eqb_refl.
Qed.


Lemma findRows_from_In (criteria : Criteria) (rows : Table) :
  forall (i : nat) (r : Match),
    In r (findRows_from i rows criteria) <->
    exists j, rows !! j = Some (data r) /\ rowIndex r = (i + j)%nat /\
              row_matches criteria (data r) (rowIndex r) = true.
Proof.
  induction rows as [|row rest IH]; intros i r; cbn.
  - split; [tauto|]. intros (j & Hj & _). destruct j; discriminate Hj.
  - destruct (row_matches criteria row i) eqn:Hm; cbn; rewrite IH; split.
    + intros [<- | (j & Hj & Hi & Hr)].
      * exists 0%nat. cbn. rewrite Nat.add_0_r. auto.
      * exists (S j). cbn. split; [exact Hj|]. split; [lia|exact Hr].
    + intros ([|j] & Hj & Hi & Hr).
      * left. cbn in Hj. destruct r as [ri rd]. cbn in *.
        injection Hj as ->. f_equal. lia.
      * right. exists j. cbn in Hj. split; [exact Hj|]. split; [lia|exact Hr].
    + intros (j & Hj & Hi & Hr). exists (S j). cbn. split; [exact Hj|].
      split; [lia|exact Hr].
    + intros ([|j] & Hj & Hi & Hr).
      * cbn in Hj. injection Hj as Hd. rewrite Nat.add_0_r in Hi.
        rewrite <- Hd, Hi in Hr. congruence.
      * exists j. cbn in Hj. split; [exact Hj|]. split; [lia|exact Hr].
Qed.


Lemma same_letter_lower (x y : ascii) :
  Ascii.eqb (lower_char x) (lower_char y) = same_letter x y.
Proof.
  assert (H : forallb (fun n => forallb (fun m =>
                Bool.eqb (Ascii.eqb (lower_char (ascii_of_nat n)) (lower_char (ascii_of_nat m)))
                         (same_letter (ascii_of_nat n) (ascii_of_nat m)))
                (seq 0 256)) (seq 0 256) = true)
    by (vm_compute; reflexivity).
  assert (Hx : In (nat_of_ascii x) (seq 0 256))
    by (apply in_seq; pose proof (nat_ascii_bounded x); lia).
  assert (Hy : In (nat_of_ascii y) (seq 0 256))
    by (apply in_seq; pose proof (nat_ascii_bounded y); lia).
  rewrite List.forallb_forall in H. specialize (H _ Hx).
  rewrite List.forallb_forall in H. specialize (H _ Hy).
  rewrite !ascii_nat_embedding in H. apply eqb_prop. exact H.
Qed.

(** Comparing the lower-cased strings is comparing up to letter case. *)
Lemma lower_eqb_ignore_case (a : string) :
  forall b, String.eqb (toLowerCase a) (toLowerCase b) = eq_ignore_case a b.
Proof.
  induction a as [|x a IH]; intros [|y b]; try reflexivity.
  cbn [toLowerCase eq_ignore_case String.eqb].
  rewrite same_letter_lower, IH.
  destruct (same_letter x y); reflexivity.
Qed.


End RowFinder.


Section RowMapper.

Import Js Sheets.

Lemma array_set_in_range (row : Row) :
  forall (i : nat) (v : Value),
    (i < length row)%nat -> array_set row i v = <[i := Elem v]> row.
Proof.
  induction row as [|s rest IH]; intros i v Hi; cbn in Hi; [lia|].
  destruct i as [|j]; cbn; [reflexivity|].
  rewrite IH by lia. reflexivity.
Qed.

Lemma fill_frame (obj : gmap string Value) (m : Mapping) :
  forall row : Row,
    Forall (fun i => (i < length row)%nat) (map snd m) ->
    length (fill obj m row) = length row /\
    forall j, ~ In j (map snd m) -> fill obj m row !! j = row !! j.
Proof.
  induction m as [|[k i] rest IH]; intros row Hall; cbn.
  - split; reflexivity.
  - cbn in Hall. inversion Hall as [|? ? Hi Hrest]; subst.
    change (fold_left _ rest ?r) with (fill obj rest r).
    rewrite array_set_in_range by exact Hi.
    destruct (IH (<[i := Elem (prop obj k)]> row)) as [Hlen Hframe].
    { eapply Forall_impl; [exact Hrest|]. cbv beta. intros j Hj.
      rewrite length_insert. exact Hj. }
    split.
    + rewrite Hlen. apply length_insert.
    + intros j Hj. rewrite Hframe by tauto.
      apply list_lookup_insert_ne. intros ->. tauto.
Qed.

Lemma fill_written (obj : gmap string Value) (m : Mapping) :
  forall row : Row,
    Forall (fun i => (i < length row)%nat) (map snd m) ->
    NoDup (map snd m) ->
    forall k i, In (k, i) m -> fill obj m row !! i = Some (Elem (prop obj k)).
Proof.
  induction m as [|[k0 i0] rest IH]; intros row Hall Hnd k i Hin; [contradiction|].
  cbn in Hall, Hnd. inversion Hall as [|? ? Hi Hrest]; subst.
  apply NoDup_cons in Hnd. destruct Hnd as [Hfresh Hnd].
  cbn. change (fold_left _ rest ?r) with (fill obj rest r).
  rewrite array_set_in_range by exact Hi.
  assert (Hrest' : Forall (fun j => (j < length (<[i0 := Elem (prop obj k0)]> row))%nat)
                          (map snd rest))
    by (eapply Forall_impl; [exact Hrest|]; cbv beta; intros j Hj;
        rewrite length_insert; exact Hj).
  destruct Hin as [E | Hin].
  - injection E as -> ->.
    destruct (fill_frame obj rest _ Hrest') as [_ Hframe].
    rewrite Hframe.
    + apply list_lookup_insert_eq. exact Hi.
    + intros Hc. apply Hfresh. apply list_elem_of_In. exact Hc.
  - apply (IH _ Hrest' Hnd k i Hin).
Qed.

Lemma collect_lookup (row : Row) (m : Mapping) :
  forall (acc : gmap string Value) (key : string),
    (~ In key (map fst m) /\ collect row m acc !! key = acc !! key) \/
    (exists i, In (key, i) m /\ collect row m acc !! key = Some (array_get row i)).
Proof.
  induction m as [|[k i] rest IH]; intros acc key; cbn.
  - left. split; [tauto|reflexivity].
  - change (fold_left _ rest ?a) with (collect row rest a).
    destruct (IH (<[k := array_get row i]> acc) key) as [[Hout Hsame] | (j & Hj & Hget)].
    + destruct (decide (k = key)) as [->|Hne].
      * right. exists i. split; [left; reflexivity|].
        rewrite Hsame. apply lookup_insert_eq.
      * left. split; [tauto|]. rewrite Hsame. apply lookup_insert_ne. exact Hne.
    + right. exists j. split; [right; exact Hj|exact Hget].
Qed.

(** C4.  For a mapping with at least one field and no column used twice
    (the invariant of a row mapping), [transformObjectToRow] returns an
    array of length [max(indices) + 1] whose unmapped positions are holes,
    and [transformRowToObject] reads back from it, for every key of the
    mapping, the value the object has there ([undefined] when it has
    none); an object whose keys are among those of the mapping comes back
    on every key. *)
Theorem C4_row_object_round_trip (obj : gmap string Value) (columnMapping : Mapping) :
  columnMapping <> [] ->
  NoDup (map snd columnMapping) ->
  exists row,
    transformObjectToRow obj columnMapping = Return row /\
    length row = S (list_max (map snd columnMapping)) /\
    (forall i, (i < length row)%nat -> unmapped columnMapping i -> row !! i = Some Hole) /\
    (forall key, In key (map fst columnMapping) ->
       prop (transformRowToObject row columnMapping) key = prop obj key) /\
    (forall key, obj !! key = None -> In key (map fst columnMapping) ->
       prop (transformRowToObject row columnMapping) key = VUndefined) /\
    (keys_within obj columnMapping ->
       forall key, prop (transformRowToObject row columnMapping) key = prop obj key).
Proof.
  intros Hne Hnd.
  set (n := list_max (map snd columnMapping)).
  assert (Hall : Forall (fun i => (i < length (new_Array (n + 1)))%nat)
                        (map snd columnMapping)).
  { unfold new_Array. rewrite length_replicate.
    assert (Hle : Forall (fun k => (k <= n)%nat) (map snd columnMapping))
      by (apply list_max_le; reflexivity).
    eapply Forall_impl; [exact Hle|]. cbn. intros; lia. }
  destruct (fill_frame obj columnMapping _ Hall) as [Hlen Hframe].
  pose proof (fill_written obj columnMapping _ Hall Hnd) as Hwritten.
  exists (fill obj columnMapping (new_Array (n + 1))).
  assert (Hback : forall key, In key (map fst columnMapping) ->
            prop (transformRowToObject (fill obj columnMapping (new_Array (n + 1)))
                                       columnMapping) key = prop obj key).
  { intros key Hkey. unfold prop at 1, transformRowToObject.
    destruct (collect_lookup (fill obj columnMapping (new_Array (n + 1)))
                             columnMapping ∅ key) as [[Hout _] | (i & Hi & ->)];
      [contradiction|].
    unfold array_get. rewrite (Hwritten key i Hi). reflexivity. }
  refine (conj _ (conj _ (conj _ (conj Hback (conj _ _))))).
  - unfold transformObjectToRow, max_index.
    destruct columnMapping; [congruence|]. reflexivity.
  - rewrite Hlen. unfold new_Array. rewrite length_replicate. lia.
  - intros i Hi Hun. rewrite Hframe by exact Hun.
    unfold new_Array. apply lookup_replicate_2.
    rewrite Hlen in Hi. unfold new_Array in Hi. rewrite length_replicate in Hi. exact Hi.
  - intros key Hnone Hkey. rewrite (Hback key Hkey). unfold prop. rewrite Hnone. reflexivity.
  - intros Hwithin key.
    destruct (in_dec string_dec key (map fst columnMapping)) as [Hkey|Hout];
      [apply Hback; exact Hkey|].
    assert (Hnone : obj !! key = None).
    { destruct (obj !! key) eqn:E; [|reflexivity].
      exfalso. apply Hout. apply Hwithin. rewrite E. eexists; reflexivity. }
    unfold prop at 2. rewrite Hnone.
    unfold prop, transformRowToObject.
    destruct (collect_lookup (fill obj columnMapping (new_Array (n + 1)))
                             columnMapping ∅ key) as [[_ ->] | (i & Hi & _)].
    + rewrite lookup_empty. reflexivity.
    + exfalso. apply Hout. apply in_map_iff. exists (key, i). split; [reflexivity|exact Hi].
Qed.

End RowMapper.

(** A participant whose age is unknown, through the participant mapping. *)
Lemma C4_row_object_round_trip_witness :
  let obj : gmap string Js.Value :=
    <["participantId" := Js.num 7]> (<["email" := Js.VStr "a@b.com"]> ∅) in
  exists row,
    Sheets.transformObjectToRow obj Sheets.participantMapping = Js.Return row /\
    length row = 7%nat /\
    Sheets.prop (Sheets.transformRowToObject row Sheets.participantMapping) "email"
      = Js.VStr "a@b.com" /\
    Sheets.prop (Sheets.transformRowToObject row Sheets.participantMapping) "age"
      = Js.VUndefined.
Proof.
  intros obj.
  assert (Hne : Sheets.participantMapping <> []) by discriminate.
  assert (Hnd : NoDup (map snd Sheets.participantMapping))
    by (apply NoDup_ListNoDup; vm_compute; repeat constructor; cbn; intuition lia).
  destruct (C4_row_object_round_trip obj Sheets.participantMapping Hne Hnd)
    as (row & Hrow & Hlen & _ & Hback & _ & _).
  exists row. split; [exact Hrow|]. split; [exact Hlen|]. split.
  - rewrite Hback by (cbn; tauto). vm_compute. reflexivity.
  - rewrite Hback by (cbn; tauto). vm_compute. reflexivity.
Defined.

(* ===================================================================== *)
(** * Properties of the bubble positioner                                 *)
(* ===================================================================== *)

Section Positioner.

Import Js BubblePositioner.
Local Open Scope Q_scope.

Variables (bubbleRect : Rect) (viewportWidth viewportHeight padding : Q).

Lemma fits_within (s : Strategy) :
  fits s bubbleRect viewportWidth viewportHeight padding = true <->
  within_viewport s bubbleRect viewportWidth viewportHeight padding.
Proof.
  unfold fits, fitsHorizontally, fitsVertically, within_viewport.
  rewrite !andb_true_iff, !Qle_bool_iff. tauto.
Qed.

Lemma first_fit_found (strategies before after : list Strategy) (s : Strategy) :
  strategies = (before ++ s :: after)%list ->
  Forall (fun c => ~ within_viewport c bubbleRect viewportWidth viewportHeight padding) before ->
  within_viewport s bubbleRect viewportWidth viewportHeight padding ->
  first_fit strategies bubbleRect viewportWidth viewportHeight padding = Some s.
Proof.
  intros -> Hbefore Hs. induction Hbefore as [|c before Hc _ IH]; cbn.
  - apply fits_within in Hs. rewrite Hs. reflexivity.
  - destruct (fits c bubbleRect viewportWidth viewportHeight padding) eqn:E; [|exact IH].
    apply fits_within in E. contradiction.
Qed.

Lemma first_fit_none (strategies : list Strategy) :
  Forall (fun c => ~ within_viewport c bubbleRect viewportWidth viewportHeight padding)
         strategies ->
  first_fit strategies bubbleRect viewportWidth viewportHeight padding = None.
Proof.
  induction 1 as [|c rest Hc _ IH]; cbn; [reflexivity|].
  destruct (fits c bubbleRect viewportWidth viewportHeight padding) eqn:E; [|exact IH].
  apply fits_within in E. contradiction.
Qed.

Lemma first_fit_fits (strategies : list Strategy) (s : Strategy) :
  first_fit strategies bubbleRect viewportWidth viewportHeight padding = Some s ->
  In s strategies /\ within_viewport s bubbleRect viewportWidth viewportHeight padding.
Proof.
  induction strategies as [|c rest IH]; cbn; [discriminate|].
  destruct (fits c bubbleRect viewportWidth viewportHeight padding) eqn:E.
  - intros [= <-]. split; [left; reflexivity|]. apply fits_within. exact E.
  - intros H. destruct (IH H). split; [right|]; assumption.
Qed.

Lemma Qmax_left (x y : Q) : y <= x -> Qmax x y = x.
Proof.
  intros Hle. unfold Qmax, GenericMinMax.gmax.
  destruct (Qcompare_spec x y) as [_|Hlt|_]; try reflexivity.
  exfalso. exact (Qlt_not_le _ _ Hlt Hle).
Qed.

Lemma constrain_bounds (position : Strategy) :
  let c := constrainToViewport position bubbleRect viewportWidth viewportHeight padding in
  padding <= left c /\ padding <= top c /\
  (padding <= viewportWidth - rect_width bubbleRect - padding ->
     left c <= viewportWidth - rect_width bubbleRect - padding) /\
  (padding <= viewportHeight - rect_height bubbleRect - padding ->
     top c <= viewportHeight - rect_height bubbleRect - padding) /\
  (viewportWidth - rect_width bubbleRect - padding < padding -> left c = padding) /\
  (viewportHeight - rect_height bubbleRect - padding < padding -> top c = padding).
Proof.
  cbv zeta. unfold constrainToViewport. cbn.
  refine (conj _ (conj _ (conj _ (conj _ (conj _ _))))).
  - apply Q.le_max_l.
  - apply Q.le_max_l.
  - intros H. apply Q.max_lub; [exact H|apply Q.le_min_r].
  - intros H. apply Q.max_lub; [exact H|apply Q.le_min_r].
  - intros H. apply Qmax_left.
    eapply Qle_trans; [apply Q.le_min_r|]. apply Qlt_le_weak. exact H.
  - intros H. apply Qmax_left.
    eapply Qle_trans; [apply Q.le_min_r|]. apply Qlt_le_weak. exact H.
Qed.

(** The clamp, coordinate by coordinate: the candidate's coordinate when
    it lies within the room, the nearer end of the room otherwise. *)
Lemma constrain_exact (position : Strategy) :
  let c := constrainToViewport position bubbleRect viewportWidth viewportHeight padding in
  arrow c = arrow position /\
  left c = Qmax padding (Qmin (left position)
                              (viewportWidth - rect_width bubbleRect - padding)) /\
  top c = Qmax padding (Qmin (top position)
                             (viewportHeight - rect_height bubbleRect - padding)) /\
  (padding <= left position ->
   left position <= viewportWidth - rect_width bubbleRect - padding ->
   left c == left position) /\
  (padding <= top position ->
   top position <= viewportHeight - rect_height bubbleRect - padding ->
   top c == top position) /\
  (left position < padding -> left c = padding) /\
  (top position < padding -> top c = padding) /\
  (padding <= viewportWidth - rect_width bubbleRect - padding ->
   viewportWidth - rect_width bubbleRect - padding <= left position ->
   left c == viewportWidth - rect_width bubbleRect - padding) /\
  (padding <= viewportHeight - rect_height bubbleRect - padding ->
   viewportHeight - rect_height bubbleRect - padding <= top position ->
   top c == viewportHeight - rect_height bubbleRect - padding).
Proof.
  cbv zeta. unfold constrainToViewport. cbn [left top arrow].
  refine (conj eq_refl (conj eq_refl (conj eq_refl
            (conj _ (conj _ (conj _ (conj _ (conj _ _)))))))).
  - intros Hlo Hhi. rewrite (Q.min_l _ _ Hhi). apply Q.max_r. exact Hlo.
  - intros Hlo Hhi. rewrite (Q.min_l _ _ Hhi). apply Q.max_r. exact Hlo.
  - intros Hlt. apply Qmax_left.
    eapply Qle_trans; [apply Q.le_min_l|]. apply Qlt_le_weak. exact Hlt.
  - intros Hlt. apply Qmax_left.
    eapply Qle_trans; [apply Q.le_min_l|]. apply Qlt_le_weak. exact Hlt.
  - intros Hroom Hbeyond. rewrite (Q.min_r _ _ Hbeyond). apply Q.max_r. exact Hroom.
  - intros Hroom Hbeyond. rewrite (Q.min_r _ _ Hbeyond). apply Q.max_r. exact Hroom.
Qed.

Lemma strategies_of_placements (targetRect : Rect) (offset : Q) (preferences : list Placement) :
  generatePositionStrategies targetRect bubbleRect offset (map name_of preferences)
    = map (candidate targetRect bubbleRect offset) preferences.
Proof.
  unfold generatePositionStrategies.
  induction preferences as [|p rest IH]; [reflexivity|].
  cbn [map omap list_omap]. rewrite <- IH.
  destruct p; reflexivity.
Qed.

(** C5.  For a non-empty order of placements, the positioner returns a
    position and throws nothing: the first candidate in the order that
    lies within [[padding, viewport - padding]] on both axes when there is
    one, otherwise the first candidate with both coordinates clamped: a
    coordinate is [max(padding, min(candidate, viewport - bubble -
    padding))], so it is the candidate's when that lies within the room
    and the nearer end of the room otherwise, and the arrow is kept.  A
    returned coordinate is at least [padding], so not negative for a
    non-negative padding; on an axis where the bubble is larger than the
    room the clamped coordinate is [padding], elsewhere the clamped bubble
    ends within the viewport. *)
Theorem C5_bubble_position (targetRect : Rect) (offset : Q) (preferences : list Placement) :
  preferences <> [] ->
  let strategies := map (candidate targetRect bubbleRect offset) preferences in
  let result := bestPosition targetRect bubbleRect offset (map name_of preferences)
                             viewportWidth viewportHeight padding in
  (forall before s after,
     strategies = (before ++ s :: after)%list ->
     Forall (fun c => ~ within_viewport c bubbleRect viewportWidth viewportHeight padding)
            before ->
     within_viewport s bubbleRect viewportWidth viewportHeight padding ->
     result = Return s) /\
  (Forall (fun c => ~ within_viewport c bubbleRect viewportWidth viewportHeight padding)
          strategies ->
   exists first rest,
     strategies = first :: rest /\
     let position :=
       constrainToViewport first bubbleRect viewportWidth viewportHeight padding in
     result = Return position /\
     (viewportWidth - rect_width bubbleRect - padding < padding -> left position = padding) /\
     (viewportHeight - rect_height bubbleRect - padding < padding -> top position = padding) /\
     (padding <= viewportWidth - rect_width bubbleRect - padding ->
        left position <= viewportWidth - rect_width bubbleRect - padding) /\
     (padding <= viewportHeight - rect_height bubbleRect - padding ->
        top position <= viewportHeight - rect_height bubbleRect - padding) /\
     arrow position = arrow first /\
     left position = Qmax padding (Qmin (left first)
                                        (viewportWidth - rect_width bubbleRect - padding)) /\
     top position = Qmax padding (Qmin (top first)
                                       (viewportHeight - rect_height bubbleRect - padding)) /\
     (padding <= left first ->
      left first <= viewportWidth - rect_width bubbleRect - padding ->
      left position == left first) /\
     (padding <= top first ->
      top first <= viewportHeight - rect_height bubbleRect - padding ->
      top position == top first) /\
     (left first < padding -> left position = padding) /\
     (top first < padding -> top position = padding) /\
     (padding <= viewportWidth - rect_width bubbleRect - padding ->
      viewportWidth - rect_width bubbleRect - padding <= left first ->
      left position == viewportWidth - rect_width bubbleRect - padding) /\
     (padding <= viewportHeight - rect_height bubbleRect - padding ->
      viewportHeight - rect_height bubbleRect - padding <= top first ->
      top position == viewportHeight - rect_height bubbleRect - padding)) /\
  (exists position,
     result = Return position /\
     padding <= left position /\ padding <= top position /\
     (0 <= padding -> 0 <= left position /\ 0 <= top position)).
Proof.
  intros Hne. cbv zeta. unfold bestPosition.
  rewrite strategies_of_placements.
  set (strategies := map (candidate targetRect bubbleRect offset) preferences).
  assert (Hcons : exists first rest, strategies = first :: rest).
  { subst strategies. destruct preferences as [|p rest]; [congruence|].
    cbn. eauto. }
  unfold findBestPosition.
  refine (conj _ (conj _ _)).
  - intros before s after Hsplit Hbefore Hs.
    rewrite (first_fit_found strategies before after s Hsplit Hbefore Hs). reflexivity.
  - intros Hnone. rewrite (first_fit_none strategies Hnone).
    destruct Hcons as (first & rest & ->).
    destruct (constrain_bounds first) as (_ & _ & Hlw & Htw & Hl & Ht).
    pose proof (constrain_exact first) as Hexact. cbv zeta in Hexact.
    exists first, rest. split; [reflexivity|]. split; [reflexivity|].
    refine (conj Hl (conj Ht (conj Hlw (conj Htw Hexact)))).
  - destruct (first_fit strategies bubbleRect viewportWidth viewportHeight padding)
      as [s|] eqn:E.
    + apply first_fit_fits in E. destruct E as [_ (Hl & _ & Ht & _)].
      exists s. split; [reflexivity|]. split; [exact Hl|]. split; [exact Ht|].
      intros H0. split; eapply Qle_trans; eassumption.
    + destruct Hcons as (first & rest & ->).
      destruct (constrain_bounds first) as (Hl & Ht & _).
      eexists. split; [reflexivity|]. split; [exact Hl|]. split; [exact Ht|].
      intros H0. split; eapply Qle_trans; eassumption.
Qed.

End Positioner.

(** A 200 x 100 bubble next to a small target: in a 1024 x 768 viewport
    the first preference fits and is returned as it is; in a 300 x 200
    viewport, smaller than a 400 x 300 bubble, no candidate fits and the
    position is the padding on both axes. *)
Lemma C5_bubble_position_witness :
  let target := BubblePositioner.mkRect 100 100 50 20 in
  BubblePositioner.bestPosition target (BubblePositioner.mkRect 0 0 200 100) 20
    ["right"; "left"; "below"; "above"] 1024 768 20
    = Js.Return (BubblePositioner.candidate target (BubblePositioner.mkRect 0 0 200 100) 20
                   BubblePositioner.Right) /\
  (exists position,
    BubblePositioner.bestPosition target (BubblePositioner.mkRect 0 0 400 300) 20
      ["right"; "left"; "below"; "above"] 300 200 20 = Js.Return position /\
    BubblePositioner.left position = 20%Q /\ BubblePositioner.top position = 20%Q) /\
  (exists position,
     BubblePositioner.bestPosition (BubblePositioner.mkRect 900 300 100 50)
       (BubblePositioner.mkRect 0 0 200 100) 20 ["right"] 1024 768 20
       = Js.Return position /\
     (BubblePositioner.left position == 804)%Q /\
     (BubblePositioner.top position == 275)%Q /\
     BubblePositioner.arrow position = "arrow-left").
Proof.
  intros target.
  assert (Hne : [BubblePositioner.Right; BubblePositioner.Left;
                 BubblePositioner.Below; BubblePositioner.Above] <> []) by discriminate.
  split; [|split].
  - destruct (C5_bubble_position (BubblePositioner.mkRect 0 0 200 100) 1024 768 20
                target 20
                [BubblePositioner.Right; BubblePositioner.Left;
                 BubblePositioner.Below; BubblePositioner.Above] Hne)
      as (Hfits & _).
    apply (Hfits [] _ [BubblePositioner.candidate target (BubblePositioner.mkRect 0 0 200 100)
                         20 BubblePositioner.Left;
                       BubblePositioner.candidate target (BubblePositioner.mkRect 0 0 200 100)
                         20 BubblePositioner.Below;
                       BubblePositioner.candidate target (BubblePositioner.mkRect 0 0 200 100)
                         20 BubblePositioner.Above]).
    + reflexivity.
    + constructor.
    + repeat split; vm_compute; discriminate.
  - destruct (C5_bubble_position (BubblePositioner.mkRect 0 0 400 300) 300 200 20
                target 20
                [BubblePositioner.Right; BubblePositioner.Left;
                 BubblePositioner.Below; BubblePositioner.Above] Hne)
      as (_ & Hnone & _).
    destruct Hnone as (first & rest & _ & Hres & Hl & Ht & _).
    + repeat constructor; intros (H1 & H2 & H3 & H4); vm_compute in H2, H4;
        try (apply H2; reflexivity); try (apply H4; reflexivity).
    + exists (BubblePositioner.constrainToViewport first
                (BubblePositioner.mkRect 0 0 400 300) 300 200 20).
      split; [exact Hres|]. split; [apply Hl|apply Ht]; reflexivity.
  - destruct (C5_bubble_position (BubblePositioner.mkRect 0 0 200 100) 1024 768 20
                (BubblePositioner.mkRect 900 300 100 50) 20 [BubblePositioner.Right])
      as (_ & Hnone & _); [discriminate|].
    destruct Hnone
      as (first & rest & Hfirst & Hres & _ & _ & _ & _ & Harrow & _ & _ & _ & Htop & _ & _
          & Hleft & _).
    + repeat constructor. intros (_ & H2 & _). vm_compute in H2. apply H2. reflexivity.
    + injection Hfirst as <- _.
      exists (BubblePositioner.constrainToViewport
                (BubblePositioner.candidate (BubblePositioner.mkRect 900 300 100 50)
                   (BubblePositioner.mkRect 0 0 200 100) 20 BubblePositioner.Right)
                (BubblePositioner.mkRect 0 0 200 100) 1024 768 20).
      split; [exact Hres|].
      split; [rewrite Hleft; [reflexivity|vm_compute; discriminate|vm_compute; discriminate]|].
      split; [rewrite Htop; [reflexivity|vm_compute; discriminate|vm_compute; discriminate]|].
      rewrite Harrow. reflexivity.
Defined.

(* ===================================================================== *)
(** * Properties of the retry policy                                      *)
(* ===================================================================== *)

Section Retry.

Import Js Sheets.

(** One attempt of a store operation reads the network once, counts one
    attempt and touches neither the timers nor the console. *)
Lemma attempt_frame (c : StoreCall) (w : World) :
  fst (attempt_of c w) = meets c (network w (attempts w)) /\
  network (snd (attempt_of c w)) = network w /\
  attempts (snd (attempt_of c w)) = S (attempts w) /\
  sleeps (snd (attempt_of c w)) = sleeps w /\
  console (snd (attempt_of c w)) = console w.
Proof.
  unfold meets.
  destruct c; cbn; unfold fmap_M, bind, getSheetData_attempt, appendSheetData_attempt,
    updateSheetData_attempt, batchUpdate_attempt, bind, fetchWithToken; cbn;
    destruct (network w (attempts w)) as [e|e|[o st stt b]]; cbn; auto;
    unfold check_ok; cbn; destruct o; cbn; auto;
    unfold response_json; cbn; destruct b as [e|[v er]]; cbn; auto;
    unfold check_result; cbn; destruct er as [[[msg|]]|]; cbn; auto;
    destruct (String.eqb msg EmptyString); cbn; auto.
Qed.

Lemma meets_exception (c : StoreCall) (a : Attempt) (t : Thrown) :
  meets c a = Throw t -> exists e, t = Exception e.
Proof.
  unfold meets.
  destruct c; cbn; unfold fmap_M, bind, getSheetData_attempt, appendSheetData_attempt,
    updateSheetData_attempt, batchUpdate_attempt, bind, fetchWithToken; cbn;
    destruct a as [e|e|[o st stt b]]; cbn;
    try (intros [= <-]; eauto; fail);
    unfold check_ok; cbn; destruct o; cbn;
    try (intros [= <-]; unfold newError; eauto; fail);
    unfold response_json; cbn; destruct b as [e|[v er]]; cbn;
    try (intros [= <-]; eauto; fail); try discriminate;
    unfold check_result; cbn; destruct er as [[[msg|]]|]; cbn;
    try discriminate;
    try (intros [= <-]; unfold newError; eauto; fail);
    destruct (String.eqb msg EmptyString); cbn;
    intros [= <-]; unfold newError; eauto.
Qed.

Lemma retry_loop_fmap {A B : Type} (f : A -> B) (svc : Service) (op : M World A)
    (context : string) (n : nat) :
  forall (attempt : Z) (lastError : Thrown) (w : World),
    fmap_M f (retry_loop svc n attempt lastError op context) w
      = retry_loop svc n attempt lastError (fmap_M f op) context w.
Proof.
  induction n as [|k IH]; intros attempt lastError w; [reflexivity|].
  unfold fmap_M, bind, ret in *. cbn [retry_loop].
  unfold try_catch, bind, effect, delay, ret, throw.
  destruct (op w) as [[a|[e|]] w1]; try reflexivity.
  destruct (attempt <? retryAttempts svc); apply IH.
Qed.

Lemma perform_withRetry (svc : Service) (c : StoreCall) (w : World) :
  perform svc c w = withRetry svc (attempt_of c) (context_of c) w.
Proof.
  destruct c; cbn [perform attempt_of context_of];
    unfold getSheetData, appendSheetData, updateSheetData, batchUpdate, withRetry;
    apply retry_loop_fmap.
Qed.

(** One turn of the loop of [withRetry] on a store operation. *)
Lemma retry_step (svc : Service) (c : StoreCall) (context : string) (k : nat)
    (attempt : Z) (lastError : Thrown) (w : World) :
  retry_loop svc (S k) attempt lastError (attempt_of c) context w =
    match meets c (network w (attempts w)) with
    | Return v => (Return v, snd (attempt_of c w))
    | Throw (Exception e) =>
        retry_loop svc k (attempt + 1) (Exception e) (attempt_of c) context
          (if attempt <? retryAttempts svc
           then add_sleep (retryDelay svc * attempt)
                  (add_log (warn_line svc context attempt e) (snd (attempt_of c w)))
           else add_log (warn_line svc context attempt e) (snd (attempt_of c w)))
    | Throw ThrownUndefined =>
        (Throw (Exception {| kind := TypeError;
                             message := "Cannot read properties of undefined (reading 'message')" |}),
         snd (attempt_of c w))
    end.
Proof.
  destruct (attempt_frame c w) as (Hfst & _).
  cbn [retry_loop]. unfold try_catch.
  destruct (attempt_of c w) as [r w1]. cbn [fst snd] in *. subst r.
  destruct (meets c (network w (attempts w))) as [v|[e|]]; try reflexivity.
  unfold bind at 1, effect. cbn beta iota.
  destruct (attempt <? retryAttempts svc); reflexivity.
Qed.

(** The three attempts of [withRetry] on a store operation, by what each
    of them meets. *)
Lemma retry_three (c : StoreCall) (context : string) (w : World) :
  let n := attempts w in
  let r := withRetry constructor (attempt_of c) context w in
  match meets c (network w n) with
  | Return v =>
      fst r = Return v /\ attempts (snd r) = S n /\
      sleeps (snd r) = sleeps w /\ console (snd r) = console w
  | Throw t1 =>
      exists e1, t1 = Exception e1 /\
      match meets c (network w (S n)) with
      | Return v =>
          fst r = Return v /\ attempts (snd r) = S (S n) /\
          sleeps (snd r) = (sleeps w ++ [1000])%list /\
          console (snd r) = (console w ++ [warn_line constructor context 1 e1])%list
      | Throw t2 =>
          exists e2, t2 = Exception e2 /\
          match meets c (network w (S (S n))) with
          | Return v =>
              fst r = Return v /\ attempts (snd r) = S (S (S n)) /\
              sleeps (snd r) = (sleeps w ++ [1000; 2000])%list /\
              console (snd r)
                = (console w ++ [warn_line constructor context 1 e1;
                                 warn_line constructor context 2 e2])%list
          | Throw t3 =>
              exists e3, t3 = Exception e3 /\
              fst r = Throw t3 /\ attempts (snd r) = S (S (S n)) /\
              sleeps (snd r) = (sleeps w ++ [1000; 2000])%list /\
              console (snd r)
                = (console w ++ [warn_line constructor context 1 e1;
                                 warn_line constructor context 2 e2;
                                 warn_line constructor context 3 e3;
                                 failed_line context])%list
          end
      end
  end.
Proof.
  cbv zeta. unfold withRetry.
  change (Z.to_nat (retryAttempts constructor)) with 3%nat.
  rewrite retry_step.
  destruct (attempt_frame c w) as (_ & Hn1 & Ha1 & Hs1 & Hc1).
  destruct (meets c (network w (attempts w))) as [v|t1] eqn:E1.
  { cbn [fst snd]. auto. }
  destruct (meets_exception _ _ _ E1) as [e1 ->]. exists e1. split; [reflexivity|].
  change (1 <? retryAttempts constructor) with true. cbv iota.
  change (retryDelay constructor * 1) with 1000.
  set (w1 := add_sleep 1000 (add_log _ (snd (attempt_of c w)))).
  assert (Hw1 : network w1 = network w /\ attempts w1 = S (attempts w) /\
                sleeps w1 = (sleeps w ++ [1000])%list /\
                console w1 = (console w ++ [warn_line constructor context 1 e1])%list).
  { subst w1. cbn [network attempts sleeps console add_sleep add_log].
    rewrite Hn1, Ha1, Hs1, Hc1. auto. }
  destruct Hw1 as (Hn & Ha & Hs & Hc).
  rewrite retry_step, Hn, Ha.
  destruct (attempt_frame c w1) as (_ & Hn2 & Ha2 & Hs2 & Hc2).
  destruct (meets c (network w (S (attempts w)))) as [v|t2] eqn:E2.
  { cbn [fst snd]. rewrite Ha2, Hs2, Hc2, Ha, Hs, Hc. auto. }
  destruct (meets_exception _ _ _ E2) as [e2 ->]. exists e2. split; [reflexivity|].
  change (1 + 1 <? retryAttempts constructor) with true. cbv iota.
  change (retryDelay constructor * (1 + 1)) with 2000.
  set (w2 := add_sleep 2000 (add_log _ (snd (attempt_of c w1)))).
  assert (Hw2 : network w2 = network w /\ attempts w2 = S (S (attempts w)) /\
                sleeps w2 = (sleeps w ++ [1000; 2000])%list /\
                console w2 = (console w ++ [warn_line constructor context 1 e1;
                                            warn_line constructor context 2 e2])%list).
  { subst w2. cbn [network attempts sleeps console add_sleep add_log].
    rewrite Hn2, Ha2, Hs2, Hc2, Hn, Ha, Hs, Hc. rewrite <- !app_assoc. auto. }
  destruct Hw2 as (Hn' & Ha' & Hs' & Hc').
  rewrite retry_step, Hn', Ha'.
  destruct (attempt_frame c w2) as (_ & Hn3 & Ha3 & Hs3 & Hc3).
  destruct (meets c (network w (S (S (attempts w))))) as [v|t3] eqn:E3.
  { cbn [fst snd]. rewrite Ha3, Hs3, Hc3, Ha', Hs', Hc'. auto. }
  destruct (meets_exception _ _ _ E3) as [e3 ->]. exists e3. split; [reflexivity|].
  change (1 + 1 + 1 <? retryAttempts constructor) with false. cbv iota.
  cbn [retry_loop]. unfold bind, effect, throw. cbn [fst snd].
  cbn [network attempts sleeps console add_sleep add_log].
  rewrite Ha3, Hs3, Hc3, Ha', Hs', Hc'. rewrite <- !app_assoc.
  repeat split; reflexivity.
Qed.

End Retry.

Section RetryClaims.

Import Js Sheets.

(** C1 (amended).  Each of the four store operations makes at least one
    and at most three attempts.  When the first two attempts fail and the
    third succeeds, the operation returns the result of the third after
    two waits, of 1 x 1000 ms and then 2 x 1000 ms.  When all three fail,
    it throws the error of the third attempt, unchanged, after the same
    two waits and no third one.  The context string goes to the console
    only, in the warning of each failed attempt and in the final error
    line: what the operation returns or throws is the same for every
    context string. *)
Theorem C1_retry_policy (c : StoreCall) (w : World) :
  let n := attempts w in
  let r := perform constructor c w in
  (S n <= attempts (snd r) <= n + 3)%nat /\
  (forall e1 e2 v,
     meets c (network w n) = Throw (Exception e1) ->
     meets c (network w (S n)) = Throw (Exception e2) ->
     meets c (network w (S (S n))) = Return v ->
     fst r = Return v /\
     sleeps (snd r) = (sleeps w ++ [1 * 1000; 2 * 1000])%list /\
     attempts (snd r) = (n + 3)%nat) /\
  (forall e1 e2 e3,
     meets c (network w n) = Throw (Exception e1) ->
     meets c (network w (S n)) = Throw (Exception e2) ->
     meets c (network w (S (S n))) = Throw (Exception e3) ->
     fst r = Throw (Exception e3) /\
     sleeps (snd r) = (sleeps w ++ [1 * 1000; 2 * 1000])%list /\
     attempts (snd r) = (n + 3)%nat /\
     console (snd r)
       = (console w ++ [warn_line constructor (context_of c) 1 e1;
                        warn_line constructor (context_of c) 2 e2;
                        warn_line constructor (context_of c) 3 e3;
                        failed_line (context_of c)])%list) /\
  (forall context, fst (withRetry constructor (attempt_of c) context w) = fst r).
Proof.
  cbv zeta. rewrite perform_withRetry.
  pose proof (retry_three c (context_of c) w) as H. cbv zeta in H.
  refine (conj _ (conj _ (conj _ _))).
  - destruct (meets c (network w (attempts w))) as [v|t1].
    { destruct H as (_ & -> & _). lia. }
    destruct H as (e1 & _ & H).
    destruct (meets c (network w (S (attempts w)))) as [v|t2].
    { destruct H as (_ & -> & _). lia. }
    destruct H as (e2 & _ & H).
    destruct (meets c (network w (S (S (attempts w))))) as [v|t3].
    { destruct H as (_ & -> & _). lia. }
    destruct H as (e3 & _ & _ & -> & _). lia.
  - intros e1 e2 v E1 E2 E3. rewrite E1, E2, E3 in H.
    destruct H as (x1 & _ & x2 & _ & Hr & Ha & Hs & _).
    split; [exact Hr|]. split; [exact Hs|]. rewrite Ha. lia.
  - intros e1 e2 e3 E1 E2 E3. rewrite E1, E2, E3 in H.
    destruct H as (x1 & [= <-] & x2 & [= <-] & x3 & [= <-] & Hr & Ha & Hs & Hc).
    split; [exact Hr|]. split; [exact Hs|]. split; [rewrite Ha; lia|exact Hc].
  - intros context.
    pose proof (retry_three c context w) as H'. cbv zeta in H'.
    destruct (meets c (network w (attempts w))) as [v|t1].
    { destruct H as (-> & _), H' as (-> & _). reflexivity. }
    destruct H as (e1 & _ & H), H' as (e1' & _ & H').
    destruct (meets c (network w (S (attempts w)))) as [v|t2].
    { destruct H as (-> & _), H' as (-> & _). reflexivity. }
    destruct H as (e2 & _ & H), H' as (e2' & _ & H').
    destruct (meets c (network w (S (S (attempts w))))) as [v|t3].
    { destruct H as (-> & _), H' as (-> & _). reflexivity. }
    destruct H as (e3 & _ & -> & _), H' as (e3' & _ & -> & _). reflexivity.
Qed.

End RetryClaims.

(** A sheet that answers 503 twice and then its rows. *)
Lemma C1_retry_policy_witness :
  let unavailable :=
    Sheets.Responds (Sheets.mkResponse false 503 "Service Unavailable"
                       (Sheets.Parsed (Sheets.mkResponseJson None None))) in
  let table := [[Sheets.Elem (Js.VStr "participantId")]; [Sheets.Elem (Js.VStr "1")]] in
  let answers :=
    Sheets.Responds (Sheets.mkResponse true 200 "OK"
                       (Sheets.Parsed (Sheets.mkResponseJson (Some table) None))) in
  let w := Sheets.mkWorld (fun n => if (n <? 2)%nat then unavailable else answers)
                          0 "token" [] [] [] in
  let r := Sheets.perform Sheets.constructor (Sheets.GetSheetData "id" "Participants") w in
  fst r = Js.Return (Sheets.Rows table) /\ Sheets.sleeps (snd r) = [1000; 2000].
Proof.
  intros unavailable table answers w r.
  pose proof (C1_retry_policy (Sheets.GetSheetData "id" "Participants") w)
    as (_ & Hthird & _).
  destruct (Hthird (Js.mkError Js.GenericError "HTTP 503: Service Unavailable")
                   (Js.mkError Js.GenericError "HTTP 503: Service Unavailable")
                   (Sheets.Rows table))
    as (Hr & Hs & _); try (vm_compute; reflexivity).
  split; [exact Hr | exact Hs].
Defined.

(** C1 as stated fails: the error that a read of a sheet throws after
    three refusals is the plain [HTTP 500] error of the last attempt; the
    context string of the operation is not in it. *)
Lemma C1_counterexample :
  ~ (forall (c : Sheets.StoreCall) (w : Sheets.World) (t : Js.Thrown),
       fst (Sheets.perform Sheets.constructor c w) = Js.Throw t ->
       Sheets.tagged_with (Sheets.context_of c) t = true).
Proof.
  intros Hclaim.
  specialize (Hclaim (Sheets.GetSheetData "id" "Responses")
                (Sheets.probe (Sheets.Responds
                   (Sheets.mkResponse false 500 "Internal Server Error"
                      (Sheets.Parsed (Sheets.mkResponseJson None None)))))
                (Js.newError "HTTP 500: Internal Server Error")).
  assert (Hthrown : Sheets.tagged_with (Sheets.context_of (Sheets.GetSheetData "id" "Responses"))
                      (Js.newError "HTTP 500: Internal Server Error") = true)
    by (apply Hclaim; vm_compute; reflexivity).
  vm_compute in Hthrown. discriminate Hthrown.
Qed.

(* ===================================================================== *)
(** * Properties of the survey save path                                  *)
(* ===================================================================== *)

Section ServiceAppend.

Import Js Sheets.





End ServiceAppend.

Section SurveySave.

Import Js Sheets SurveyApp.

(** [saveOnomatopoeia] on valid input without a recording: the outcome is
    that of the service call, the record is pushed and stored when the
    call returns, and nothing is uploaded. *)
Lemma saveOnomatopoeia_no_audio (infoDict : gmap string Value) (verbose : bool) (p : Page) :
  validateOnomatopoeiaData (texts p) infoDict = Return None ->
  truthy (prop infoDict "audioBlob") = false ->
  let rs := Sheets.saveOnomatopoeia Sheets.constructor (spreadsheetId p) (OnomatopoeiaSheet p)
              (onomatopoeiaData infoDict VNull) (world p) in
  let r := saveOnomatopoeia infoDict verbose p in
  let kept := updatedInfoDict infoDict VNull in
  world (snd r) = snd rs /\
  uploads (snd r) = uploads p /\
  match fst rs with
  | Return _ =>
      fst r = Return tt /\
      filteredData (snd r) = (filteredData p ++ [kept])%list /\
      localStorage (snd r) = Some (map object_to_json (filteredData p ++ [kept])%list)
  | Throw e =>
      fst r = Throw e /\
      filteredData (snd r) = filteredData p /\
      localStorage (snd r) = localStorage p
  end.
Proof.
  intros Hval Haudio. cbv zeta.
  remember (saveOnomatopoeia infoDict verbose p) as r eqn:Hr.
  unfold saveOnomatopoeia, bind at 1, gets at 1 in Hr. cbv beta iota in Hr.
  rewrite Hval, Haudio in Hr. cbv beta iota in Hr.
  change (false && _) with false in Hr. cbv iota in Hr.
  unfold bind, gets, ret, lift, effect, when in Hr. cbv beta iota in Hr.
  destruct (Sheets.saveOnomatopoeia Sheets.constructor (spreadsheetId p)
              (OnomatopoeiaSheet p) (onomatopoeiaData infoDict VNull) (world p))
    as [[j|e] w1]; cbn [fst snd]; subst r.
  - destruct verbose; cbn; auto.
  - cbn. auto.
Qed.

Ltac lookup_chain :=
  unfold prop;
  repeat first [ rewrite lookup_insert_eq
               | rewrite lookup_insert_ne by discriminate
               | rewrite lookup_delete_eq
               | rewrite lookup_delete_ne by discriminate
               | rewrite lookup_empty ].

Lemma appended_row_fill (record : gmap string Value) :
  appended_row record = row_to_json (fill record onomatopoeiaMapping (new_Array 10)).
Proof. reflexivity. Qed.


(** C6 (failing input).  The record that [handleNoOnomatopoeia] keeps
    locally has the string [null] in [movement], [startTime] and
    [endTime]; the record sent to the sheet has it in [movement] only, the
    two times being [parseFloat("null")], that is [NaN], which the request
    body carries as JSON [null].  On the sample page the call returns,
    keeps one such record and appends one such row. *)
Theorem C6_sentinel_row_loses_null (p : Page) :
  let infoDict := noOnomatopoeiaInfo p in
  let sent := onomatopoeiaData infoDict VNull in
  let kept := updatedInfoDict infoDict VNull in
  (prop kept "movement" = VStr "null" /\
   prop kept "startTime" = VStr "null" /\
   prop kept "endTime" = VStr "null") /\
  (prop sent "movement" = VStr "null" /\
   prop sent "startTime" = VNum NaN /\
   prop sent "endTime" = VNum NaN) /\
  (appended_row sent !! 3%nat = Some (JString "null") /\
   appended_row sent !! 4%nat = Some JNull /\
   appended_row sent !! 5%nat = Some JNull) /\
  (let r := handleNoOnomatopoeia sample_page in
   fst r = Return tt /\
   filteredData (snd r) = [updatedInfoDict (noOnomatopoeiaInfo sample_page) VNull] /\
   appended_rows (world (snd r))
     = [appended_row (onomatopoeiaData (noOnomatopoeiaInfo sample_page) VNull)] /\
   map is_null_string
       (map (prop (updatedInfoDict (noOnomatopoeiaInfo sample_page) VNull))
            ["movement"; "startTime"; "endTime"]) = [true; true; true] /\
   firstn 3 (skipn 3 (appended_row (onomatopoeiaData (noOnomatopoeiaInfo sample_page) VNull)))
     = [JString "null"; JNull; JNull]).
Proof.
  cbv zeta.
  assert (Hsent : prop (onomatopoeiaData (noOnomatopoeiaInfo p) VNull) "movement" = VStr "null" /\
                  prop (onomatopoeiaData (noOnomatopoeiaInfo p) VNull) "startTime" = VNum NaN /\
                  prop (onomatopoeiaData (noOnomatopoeiaInfo p) VNull) "endTime" = VNum NaN).
  { unfold onomatopoeiaData, noOnomatopoeiaInfo. repeat split; lookup_chain; reflexivity. }
  refine (conj _ (conj Hsent (conj _ _))).
  - unfold updatedInfoDict, noOnomatopoeiaInfo. repeat split; lookup_chain; reflexivity.
  - destruct Hsent as (Hm & Hs & He).
    rewrite appended_row_fill. unfold fill. cbn [fold_left onomatopoeiaMapping].
    cbn [new_Array replicate array_set row_to_json map lookup list_lookup].
    rewrite Hm, Hs, He. repeat split; reflexivity.
  - repeat split; vm_compute; reflexivity.
Qed.

(** When a record of the current video is already kept,
    [handleNoOnomatopoeia] saves nothing: no record is pushed and no
    request is made. *)
Lemma handleNoOnomatopoeia_guard (p : Page) (item : gmap string Value) :
  In item (filteredData p) ->
  strict_eq (prop item "video") (currentVideoName p) = true ->
  filteredData (snd (handleNoOnomatopoeia p)) = filteredData p /\
  world (snd (handleNoOnomatopoeia p)) = world p.
Proof.
  intros Hin Hvideo.
  remember (handleNoOnomatopoeia p) as r eqn:Hr.
  unfold handleNoOnomatopoeia, bind, gets, when, effect, try_catch, ret, goToNextVideo in Hr.
  cbv beta iota in Hr.
  assert (Hlen : Nat.eqb (length (filter
             (fun it => strict_eq (prop it "video") (currentVideoName p) = true)
             (filteredData p))) 0 = false).
  { apply Nat.eqb_neq. intros Hz. apply length_zero_iff_nil in Hz.
    assert (Hel : item ∈ filter
              (fun it => strict_eq (prop it "video") (currentVideoName p) = true)
              (filteredData p)).
    { apply list_elem_of_filter. split; [exact Hvideo|]. apply list_elem_of_In. exact Hin. }
    rewrite Hz in Hel. inversion Hel. }
  destruct (messageDisplay p) eqn:Hmd, (currentButton p) eqn:Hcb;
    cbn [note currentButton] in Hr; rewrite ?Hcb in Hr; cbv iota in Hr;
    try change (currentVideoName (note ClearMessage p)) with (currentVideoName p) in Hr;
    try change (filteredData (note ClearMessage p)) with (filteredData p) in Hr;
    rewrite ?Hlen in Hr; subst r; cbn; destruct (nextVideo p); split; reflexivity.
Qed.

(** [saveOnomatopoeia] without a recording pushes the local record or
    nothing. *)
Lemma saveOnomatopoeia_pushes (infoDict : gmap string Value) (verbose : bool) (p : Page) :
  truthy (prop infoDict "audioBlob") = false ->
  filteredData (snd (saveOnomatopoeia infoDict verbose p)) = filteredData p \/
  filteredData (snd (saveOnomatopoeia infoDict verbose p))
    = (filteredData p ++ [updatedInfoDict infoDict VNull])%list.
Proof.
  intros Haudio.
  destruct (validateOnomatopoeiaData (texts p) infoDict) as [[msg|]|e] eqn:Hval.
  - left. unfold saveOnomatopoeia, bind at 1, gets at 1. cbv beta iota.
    rewrite Hval. destruct verbose; reflexivity.
  - destruct (saveOnomatopoeia_no_audio infoDict verbose p Hval Haudio) as (_ & _ & H).
    destruct (fst (Sheets.saveOnomatopoeia _ _ _ _ _)).
    + right. apply H.
    + left. apply H.
  - left. unfold saveOnomatopoeia, bind at 1, gets at 1. cbv beta iota.
    rewrite Hval. reflexivity.
Qed.

(** [handleNoOnomatopoeia] pushes at most one record, the sentinel of the
    current video. *)
Lemma handleNoOnomatopoeia_pushes (p : Page) :
  filteredData (snd (handleNoOnomatopoeia p)) = filteredData p \/
  filteredData (snd (handleNoOnomatopoeia p))
    = (filteredData p ++ [updatedInfoDict (noOnomatopoeiaInfo p) VNull])%list.
Proof.
  assert (Hblob : forall q, truthy (prop (noOnomatopoeiaInfo q) "audioBlob") = false).
  { intros q. unfold noOnomatopoeiaInfo. lookup_chain. reflexivity. }
  assert (Hq : forall q,
            filteredData q = filteredData p ->
            noOnomatopoeiaInfo q = noOnomatopoeiaInfo p ->
            forall b : bool,
            let r := (if b then saveOnomatopoeia (noOnomatopoeiaInfo q) false
                      else fun s => (Return tt, s)) q in
            filteredData (snd r) = filteredData p \/
            filteredData (snd r)
              = (filteredData p ++ [updatedInfoDict (noOnomatopoeiaInfo p) VNull])%list).
  { intros q Hfd Hinfo b. cbv zeta. destruct b; [|left; exact Hfd].
    rewrite <- Hfd, <- Hinfo. apply saveOnomatopoeia_pushes, Hblob. }
  remember (handleNoOnomatopoeia p) as r eqn:Hr.
  unfold handleNoOnomatopoeia, bind, gets, when, effect, try_catch, ret, goToNextVideo in Hr.
  cbv beta iota in Hr.
  destruct (messageDisplay p) eqn:Hmd, (currentButton p) eqn:Hcb;
    cbn [note currentButton] in Hr; rewrite ?Hcb in Hr; cbv iota in Hr;
    try (subst r; left; reflexivity).
  - match type of Hr with
    | context [(if ?b then _ else _) (note ClearMessage p)] =>
        destruct (Hq (note ClearMessage p) eq_refl eq_refl b) as [H|H]
    end; cbv zeta in H;
    match type of H with
    | context [(if ?b then ?f else ?g) ?q] =>
        destruct ((if b then f else g) q) as [[u|e] q'] eqn:E
    end; cbn [snd] in H; subst r; cbn; destruct (nextVideo q'); cbn; auto.
  - match type of Hr with
    | context [(if ?b then _ else _) p] =>
        destruct (Hq p eq_refl eq_refl b) as [H|H]
    end; cbv zeta in H;
    match type of H with
    | context [(if ?b then ?f else ?g) ?q] =>
        destruct ((if b then f else g) q) as [[u|e] q'] eqn:E
    end; cbn [snd] in H; subst r; cbn; destruct (nextVideo q'); cbn; auto.
Qed.

End SurveySave.



(* ===================================================================== *)
(** * Further properties of the step sequencer                            *)
(* ===================================================================== *)

Section SequencerState.

Import Js StepManager StepProgress.

(** Every validation key of the step table is one of the tracked
    actions. *)
Lemma validation_tracked (s : Z) (key : string) :
  validation (getStepConfigAt s) = Some key -> is_Some (initialValidation !! key).
Proof.
  unfold getStepConfigAt.
  destruct s as [|p|p]; cbn; try discriminate.
  do 5 (try destruct p as [p|p|]; cbn; try discriminate);
    intros [= <-]; vm_compute; eauto.
Qed.

Lemma importFlags_same_keys (imported flags : gmap string bool) :
  dom flags = dom imported -> importFlags imported flags = imported.
Proof.
  intros Hdom. apply map_eq. intros key. unfold importFlags.
  rewrite map_lookup_imap.
  destruct (flags !! key) as [old|] eqn:Hf; cbn.
  - assert (Hin : key ∈ dom imported) by (rewrite <- Hdom; apply elem_of_dom; eauto).
    apply elem_of_dom in Hin. destruct Hin as [v Hv]. rewrite Hv. reflexivity.
  - assert (Hout : key ∉ dom imported)
      by (rewrite <- Hdom; rewrite elem_of_dom, Hf; intros [? ?]; discriminate).
    apply not_elem_of_dom in Hout. rewrite Hout. reflexivity.
Qed.

Lemma importFlags_dom (imported flags : gmap string bool) :
  dom (importFlags imported flags) = dom flags.
Proof.
  apply set_eq. intros key. rewrite !elem_of_dom. unfold importFlags.
  rewrite map_lookup_imap.
  destruct (flags !! key) as [old|]; cbn.
  - destruct (imported !! key); split; eauto.
  - split; intros [? ?]; discriminate.
Qed.

(** The state that [exportState] returns, imported into a sequencer that
    tracks the same actions and has room for the step, restores the
    exported sequencer: step, flags and total. *)
Theorem importState_exportState (m m' : Manager) :
  in_range m ->
  currentStep m <= totalSteps m' ->
  dom (stepValidation m') = dom (stepValidation m) ->
  importState (exportState m) m' = m /\
  exportState (importState (exportState m) m') = exportState m.
Proof.
  intros [Hlo Hhi] Hroom Hdom.
  assert (E : importState (exportState m) m' = m).
  { unfold importState, exportState. cbn.
    destruct (Z.eqb_spec (currentStep m) 0) as [H0|_]; [lia|].
    destruct (Z.eqb_spec (totalSteps m) 0) as [H0|_]; [lia|].
    cbn. rewrite importFlags_same_keys by exact Hdom.
    replace (Z.max 1 (Z.min (currentStep m) (totalSteps m'))) with (currentStep m) by lia.
    destruct m; reflexivity. }
  split; [exact E|]. rewrite E. reflexivity.
Qed.

Lemma step_dom (op : Op) (m : Manager) :
  op <> OpResetValidation ->
  dom (stepValidation (step op m)) = dom (stepValidation m).
Proof.
  intros Hop. destruct op; try congruence; cbn.
  - rewrite (advance_flags (bare m) None None); reflexivity.
  - rewrite (goBack_flags (bare m) None); reflexivity.
  - unfold markActionCompleted. cbn.
    destruct (stepValidation m !! action) as [old|] eqn:E; [|reflexivity].
    assert (Hdom : dom (<[action := true]> (stepValidation m)) = dom (stepValidation m)).
    { rewrite dom_insert_L.
      apply subseteq_union_1_L, singleton_subseteq_l, elem_of_dom. eauto. }
    destruct (autoAdvance _ && _); exact Hdom.
  - unfold goToStep. cbn.
    destruct ((1 <=? stepNumber) && (stepNumber <=? totalSteps m)); reflexivity.
  - unfold importState.
    destruct (ex_currentStep state) as [c|]; [destruct (c =? 0)|];
      destruct (ex_stepValidation state); destruct (ex_totalSteps state) as [t|];
      try destruct (t =? 0); cbn; rewrite ?importFlags_dom; reflexivity.
Qed.

Lemma run_dom (ops : list Op) :
  forall m : Manager,
    dom (stepValidation m) = dom initialValidation ->
    dom (stepValidation (run ops m)) = dom initialValidation.
Proof.
  induction ops as [|op ops IH]; intros m Hdom; [exact Hdom|].
  cbn. apply IH.
  destruct op; try (rewrite step_dom by discriminate; exact Hdom).
  reflexivity.
Qed.

(** The set of tracked actions never changes: every operation but
    [resetValidation] keeps the keys of [stepValidation], and
    [resetValidation] installs the six keys of a new instance, so a
    sequencer that starts with them has them after any run.
    [markActionCompleted] of an action that is not tracked changes nothing
    and calls neither callback. *)
Theorem tracked_actions_fixed (m : Manager) :
  (forall op, op <> OpResetValidation ->
     dom (stepValidation (step op m)) = dom (stepValidation m)) /\
  (forall ops,
     dom (stepValidation m) = dom initialValidation ->
     dom (stepValidation (run ops m)) = dom initialValidation) /\
  (forall (U : Type) (h : Host U) action onValidationChange onAutoAdvance,
     stepValidation (mgr h) !! action = None ->
     markActionCompleted action onValidationChange onAutoAdvance h = h).
Proof.
  refine (conj _ (conj _ _)).
  - intros op. apply step_dom.
  - intros ops. apply run_dom.
  - intros U h action c1 c2 Hnone. unfold markActionCompleted. rewrite Hnone. reflexivity.
Qed.

(** [goBack] undoes an [advance] that moved: the sequencer is back in the
    state it had. *)
Theorem goBack_after_advance (m : Manager) :
  1 <= currentStep m ->
  fst (advance None None (bare m)) = true ->
  fst (goBack None (bare (step OpAdvance m))) = true /\
  step OpGoBack (step OpAdvance m) = m.
Proof.
  intros Hlo Hmoved. cbn [step]. revert Hmoved.
  unfold advance. cbn.
  destruct (negb (canAdvance m)).
  { destruct (getRequiredActionMessage m) as [msg|]; [|discriminate].
    destruct (negb (String.eqb msg EmptyString)); discriminate. }
  destruct (currentStep m <? totalSteps m); [|discriminate].
  intros _. cbn. unfold goBack. cbn.
  destruct (Z.ltb_spec 1 (currentStep m + 1)) as [_|Hno]; [|lia].
  cbn. split; [reflexivity|].
  unfold resetStepSpecificValidation, set_currentStep. cbn.
  replace (currentStep m + 1 - 1) with (currentStep m) by lia.
  destruct m; reflexivity.
Qed.

(** No step is a dead end: below [totalSteps], once the validation key
    of the current step is marked (when it has one), [advance] moves to
    the next step, whatever the step and the flags were; no flag is lost
    on the way. *)
Theorem every_step_can_be_passed (m : Manager) :
  dom (stepValidation m) = dom initialValidation ->
  currentStep m < totalSteps m ->
  fst (advance None None (bare (unlock m))) = true /\
  currentStep (step OpAdvance (unlock m)) = currentStep m + 1 /\
  (forall key, stepValidation m !! key = Some true ->
     stepValidation (step OpAdvance (unlock m)) !! key = Some true).
Proof.
  intros Hdom Hlt.
  assert (Hcan : canAdvance (unlock m) = true /\ currentStep (unlock m) = currentStep m /\
                 totalSteps (unlock m) = totalSteps m /\
                 forall key, stepValidation m !! key = Some true ->
                             stepValidation (unlock m) !! key = Some true).
  { unfold unlock. destruct (validation (getStepConfig m)) as [key|] eqn:Hval.
    - assert (Htracked : is_Some (stepValidation m !! key)).
      { apply elem_of_dom. rewrite Hdom. apply elem_of_dom.
        apply (validation_tracked (currentStep m)). exact Hval. }
      destruct Htracked as [old Hold].
      cbn [step]. rewrite (mark_tracked (bare m) key old Hold). cbn.
      split; [apply canAdvance_marked; exact Hval|].
      split; [reflexivity|]. split; [reflexivity|].
      intros k Hk. destruct (decide (key = k)) as [->|Hne].
      + apply lookup_insert_eq.
      + rewrite lookup_insert_ne by exact Hne. exact Hk.
    - split; [|auto]. unfold canAdvance. rewrite Hval.
      destruct (negb (required (getStepConfig m))); reflexivity. }
  destruct Hcan as (Hcan & Hcur & Htot & Hkeep).
  cbn [step].
  rewrite (advance_open (bare (unlock m)) None None Hcan). cbn.
  rewrite Hcur, Htot. apply Z.ltb_lt in Hlt. rewrite Hlt. cbn.
  split; [reflexivity|]. split; [lia|exact Hkeep].
Qed.

(** Within [1 .. totalSteps] the progress is a finite percentage above 0
    and at most 100, and it is 100 exactly when [isComplete] holds. *)
Theorem progress_percentage (m : Manager) :
  in_range m ->
  exists q,
    getProgressPercentage m = Fin q /\
    (0 < q)%Q /\ (q <= 100)%Q /\
    ((q == 100)%Q <-> isComplete m = true).
Proof.
  intros [Hlo Hhi]. unfold getProgressPercentage, divide, isComplete.
  destruct (Z.eqb_spec (totalSteps m) 0) as [H0|_]; [lia|].
  cbn [times100]. eexists. split; [reflexivity|].
  destruct (totalSteps m) as [|t|t] eqn:Ht; try lia.
  destruct (currentStep m) as [|c|c] eqn:Hc; try lia.
  unfold Qlt, Qle, Qeq, Qdiv, Qmult, Qinv, inject_Z. cbn.
  rewrite ?Pos.mul_1_r, ?Pos.mul_1_l.
  split; [lia|]. split; [lia|].
  rewrite Z.leb_le. lia.
Qed.

End SequencerState.

(** A sequencer at step 5 with two actions done, exported and imported
    into a new one. *)
Lemma importState_exportState_witness :
  let m := StepManager.run [StepManager.OpMark "video_played"; StepManager.OpGoToStep 5;
                            StepManager.OpMark "entered_text"]
                           (StepManager.constructor 10) in
  StepManager.importState (StepManager.exportState m) (StepManager.constructor 10) = m.
Proof.
  intros m.
  assert (Hin : StepManager.in_range m)
    by (unfold StepManager.in_range; subst m; vm_compute; split; discriminate).
  assert (Hroom : StepManager.currentStep m <= StepManager.totalSteps (StepManager.constructor 10))
    by (subst m; vm_compute; discriminate).
  assert (Hdom : dom (StepManager.stepValidation (StepManager.constructor 10))
                 = dom (StepManager.stepValidation m)).
  { symmetry. apply (run_dom _ (StepManager.constructor 10)). reflexivity. }
  exact (proj1 (importState_exportState m (StepManager.constructor 10) Hin Hroom Hdom)).
Defined.

(** A run with an import keeps the six tracked actions, and an unknown
    action changes nothing. *)
Lemma tracked_actions_fixed_witness :
  dom (StepManager.stepValidation
         (StepManager.run [StepManager.OpMark "clicked_yes";
                           StepManager.OpImport
                             (StepManager.mkExported (Some 3) (Some ∅) None);
                           StepManager.OpResetValidation]
                          (StepManager.constructor 10)))
    = dom StepManager.initialValidation /\
  StepManager.markActionCompleted "clicked_no" None None
      (StepManager.bare (StepManager.constructor 10))
    = StepManager.bare (StepManager.constructor 10).
Proof.
  pose proof (tracked_actions_fixed (StepManager.constructor 10)) as (_ & Hrun & Hunknown).
  split.
  - apply Hrun. reflexivity.
  - apply Hunknown. vm_compute. reflexivity.
Defined.

(** From step 1 of a new sequencer and back. *)
Lemma goBack_after_advance_witness :
  StepManager.step StepManager.OpGoBack
    (StepManager.step StepManager.OpAdvance (StepManager.constructor 10))
  = StepManager.constructor 10.
Proof.
  apply (goBack_after_advance (StepManager.constructor 10)).
  - cbn. lia.
  - reflexivity.
Defined.

(** Step 5 of a new sequencer, whose text has not been entered. *)
Lemma every_step_can_be_passed_witness :
  let m := StepManager.set_currentStep 5 (StepManager.constructor 10) in
  StepManager.canAdvance m = false /\
  StepManager.currentStep (StepManager.step StepManager.OpAdvance (StepProgress.unlock m)) = 6.
Proof.
  intros m. split; [vm_compute; reflexivity|].
  destruct (every_step_can_be_passed m) as (_ & Hstep & _).
  - reflexivity.
  - cbn. lia.
  - exact Hstep.
Defined.

(** Step 3 of 10 is at 30 percent. *)
Lemma progress_percentage_witness :
  exists q,
    StepProgress.getProgressPercentage
      (StepManager.set_currentStep 3 (StepManager.constructor 10)) = Js.Fin q /\
    (q == 30)%Q.
Proof.
  destruct (progress_percentage (StepManager.set_currentStep 3 (StepManager.constructor 10)))
    as (q & Hq & _).
  - unfold StepManager.in_range. cbn. lia.
  - exists q. split; [exact Hq|].
    vm_compute in Hq. injection Hq as <-. reflexivity.
Defined.

(* ===================================================================== *)
(** * Properties of a tutorial session                                    *)
(* ===================================================================== *)

Section Session.

Import StepManager TutorialApp TutorialSession.

Lemma required_has_validation (s : Z) :
  required (getStepConfigAt s) = true ->
  exists key, validation (getStepConfigAt s) = Some key.
Proof.
  unfold getStepConfigAt.
  destruct s as [|p|p]; cbn; try discriminate.
  do 5 (try destruct p as [p|p|]; cbn; try discriminate); intros _; eauto.
Qed.

(** The sequencer after each action of the controller, whatever the page
    shows. *)
Lemma nextStep_mgr (a : App) : mgr (nextStep a) = step OpAdvance (mgr a).
Proof.
  unfold nextStep. cbn [step]. unfold advance. cbn.
  destruct (negb (canAdvance (mgr a))).
  - destruct (getRequiredActionMessage (mgr a)) as [msg|].
    + destruct (negb (String.eqb msg EmptyString)); cbn;
        destruct (isComplete (mgr a)); reflexivity.
    + cbn. destruct (isComplete (mgr a)); reflexivity.
  - destruct (currentStep (mgr a) <? totalSteps (mgr a)); cbn.
    + reflexivity.
    + destruct (isComplete (mgr a)); reflexivity.
Qed.

Lemma previousStep_mgr (a : App) : mgr (previousStep a) = step OpGoBack (mgr a).
Proof.
  unfold previousStep. cbn [step]. unfold goBack. cbn.
  destruct (1 <? currentStep (mgr a)); reflexivity.
Qed.

Lemma startTutorial_mgr (a : App) : mgr (startTutorial a) = step (OpGoToStep 1) (mgr a).
Proof.
  unfold startTutorial. cbn [step]. unfold goToStep. cbn.
  destruct (1 <=? totalSteps (mgr a)); reflexivity.
Qed.

Lemma checkStepValidation_mgr (action : string) (a : App) :
  mgr (checkStepValidation action a) =
    match stepValidation (mgr a) !! action with
    | None => mgr a
    | Some _ =>
        let marked := set_stepValidation (<[action := true]> (stepValidation (mgr a))) (mgr a) in
        if autoAdvance (getStepConfig marked)
           && match validation (getStepConfig marked) with
              | Some key => String.eqb key action
              | None => false
              end
        then step OpAdvance marked
        else marked
    end.
Proof.
  unfold checkStepValidation, markActionCompleted.
  destruct (stepValidation (mgr a) !! action); [|reflexivity].
  cbn. destruct (autoAdvance _ && _); [|reflexivity].
  cbn [call]. rewrite nextStep_mgr. reflexivity.
Qed.

Lemma advance_ok (m : Manager) : session_ok m -> session_ok (step OpAdvance m).
Proof.
  intros (Hin & Htot & Hdom & Hpassed).
  pose proof (navigation_keeps_range OpAdvance m eq_refl Hin) as Hin'.
  refine (conj Hin' (conj _ (conj _ _))).
  - cbn. unfold advance. cbn.
    destruct (negb (canAdvance m)).
    + destruct (getRequiredActionMessage m) as [msg|]; [|exact Htot].
      destruct (negb (String.eqb msg EmptyString)); exact Htot.
    + destruct (currentStep m <? totalSteps m); exact Htot.
  - rewrite step_dom by discriminate. exact Hdom.
  - cbn. unfold advance. cbn.
    destruct (canAdvance m) eqn:Hcan; cbn.
    + destruct (Z.ltb_spec (currentStep m) (totalSteps m)) as [Hlt|Hge]; [|exact Hpassed].
      intros s Hs Hreq. cbn in Hs.
      destruct (Z.eq_dec s (currentStep m)) as [->|Hne].
      * destruct (required_has_validation _ Hreq) as [key Hkey].
        exists key. split; [exact Hkey|]. cbn.
        assert (Htracked : is_Some (stepValidation m !! key)).
        { apply elem_of_dom. rewrite Hdom. apply elem_of_dom.
          apply (validation_tracked (currentStep m)). exact Hkey. }
        destruct Htracked as [flag Hflag]. rewrite Hflag. f_equal.
        rewrite <- Hcan. symmetry.
        apply (canAdvance_flag m key Hreq Hkey flag Hflag).
      * apply Hpassed; [lia|exact Hreq].
    + destruct (getRequiredActionMessage m) as [msg|]; [|exact Hpassed].
      destruct (negb (String.eqb msg EmptyString)); exact Hpassed.
Qed.

Lemma goBack_ok (m : Manager) : session_ok m -> session_ok (step OpGoBack m).
Proof.
  intros (Hin & Htot & Hdom & Hpassed).
  pose proof (navigation_keeps_range OpGoBack m eq_refl Hin) as Hin'.
  refine (conj Hin' (conj _ (conj _ _))).
  - cbn. unfold goBack. cbn. destruct (1 <? currentStep m); exact Htot.
  - rewrite step_dom by discriminate. exact Hdom.
  - cbn. unfold goBack. cbn.
    destruct (Z.ltb_spec 1 (currentStep m)); [|exact Hpassed].
    intros s Hs Hreq. cbn in Hs. apply Hpassed; [lia|exact Hreq].
Qed.

Lemma marked_ok (m : Manager) (action : string) (old : bool) :
  stepValidation m !! action = Some old ->
  session_ok m ->
  session_ok (set_stepValidation (<[action := true]> (stepValidation m)) m).
Proof.
  intros Hold (Hin & Htot & Hdom & Hpassed).
  refine (conj Hin (conj Htot (conj _ _))).
  - cbn. rewrite dom_insert_L, <- Hdom.
    apply subseteq_union_1_L, singleton_subseteq_l, elem_of_dom. eauto.
  - intros s Hs Hreq. destruct (Hpassed s Hs Hreq) as (key & Hkey & Hflag).
    exists key. split; [exact Hkey|]. cbn.
    destruct (decide (action = key)) as [->|Hne].
    + apply lookup_insert_eq.
    + rewrite lookup_insert_ne by exact Hne. exact Hflag.
Qed.

Lemma start_ok (m : Manager) : session_ok m -> session_ok (step (OpGoToStep 1) m).
Proof.
  intros (Hin & Htot & Hdom & Hpassed). cbn. unfold goToStep. cbn.
  rewrite Htot. cbn.
  refine (conj _ (conj Htot (conj Hdom _))).
  - unfold in_range. cbn. lia.
  - intros s Hs. cbn in Hs. lia.
Qed.

Lemma act_ok (u : UserAction) (a : App) : session_ok (mgr a) -> session_ok (mgr (act u a)).
Proof.
  intros Hok. destruct u; cbn [act].
  - rewrite nextStep_mgr. apply advance_ok, Hok.
  - rewrite previousStep_mgr. apply goBack_ok, Hok.
  - rewrite checkStepValidation_mgr.
    destruct (stepValidation (mgr a) !! action) as [old|] eqn:Hold; [|exact Hok].
    pose proof (marked_ok (mgr a) action old Hold Hok) as Hmarked.
    cbv zeta. destruct (autoAdvance _ && _); [apply advance_ok|]; exact Hmarked.
  - rewrite startTutorial_mgr. apply start_ok, Hok.
Qed.

Lemma session_invariant (actions : list UserAction) : session_ok (mgr (session actions)).
Proof.
  unfold session.
  assert (Hstart : session_ok (mgr (initializeTutorial TutorialApp.constructor))).
  { refine (conj _ (conj _ (conj _ _))).
    - unfold in_range. cbn. lia.
    - reflexivity.
    - reflexivity.
    - intros s Hs. cbn in Hs. lia. }
  revert Hstart. generalize (initializeTutorial TutorialApp.constructor).
  induction actions as [|u rest IH]; intros a Hok; [exact Hok|].
  cbn. apply IH, act_ok, Hok.
Qed.

(** Whatever the user does on the tutorial page, the step stays within 1
    and 10, the total stays 10 and the tracked actions stay the six of a
    new sequencer. *)
Theorem session_step_in_range (actions : list UserAction) :
  1 <= currentStep (mgr (session actions)) <= 10 /\
  totalSteps (mgr (session actions)) = 10 /\
  dom (stepValidation (mgr (session actions))) = dom initialValidation.
Proof.
  destruct (session_invariant actions) as ([Hlo Hhi] & Htot & Hdom & _).
  rewrite Htot in Hhi. auto.
Qed.

(** Whatever the user does on the tutorial page, no required step is
    skipped: every required step before the current one has its action
    marked as done. *)
Theorem session_never_skips_required_step (actions : list UserAction) (s : Z) :
  1 <= s < currentStep (mgr (session actions)) ->
  required (getStepConfigAt s) = true ->
  exists key, validation (getStepConfigAt s) = Some key /\
              stepValidation (mgr (session actions)) !! key = Some true.
Proof.
  destruct (session_invariant actions) as (_ & _ & _ & Hpassed). apply Hpassed.
Qed.

(** In a session the next button completes the tutorial at step 10 and
    only there: at step 10 [nextStep] does nothing but show the
    completion dialog, and at any other step it does not show it. *)
Theorem tutorial_completes_at_last_step_only (actions : list UserAction) :
  let a := session actions in
  (currentStep (mgr a) = 10 -> nextStep a = completeTutorial a) /\
  (currentStep (mgr a) <> 10 ->
     exists events, user (nextStep a) = (user a ++ events)%list /\
                    ~ In CompleteTutorial events).
Proof.
  cbv zeta.
  destruct (session_invariant actions) as ([Hlo Hhi] & Htot & _).
  set (a := session actions) in *.
  unfold nextStep, advance. split.
  - intros H10.
    assert (Hcan : canAdvance (mgr a) = true)
      by (unfold canAdvance, getStepConfig; rewrite H10; reflexivity).
    rewrite Hcan. cbn. rewrite H10, Htot. cbn.
    unfold isComplete. rewrite H10, Htot. reflexivity.
  - intros Hne.
    assert (Hlt : currentStep (mgr a) < totalSteps (mgr a)) by lia.
    assert (Hnot : isComplete (mgr a) = false)
      by (unfold isComplete; apply Z.leb_gt; exact Hlt).
    destruct (negb (canAdvance (mgr a))).
    + destruct (getRequiredActionMessage (mgr a)) as [msg|].
      * destruct (negb (String.eqb msg EmptyString)); cbn; rewrite Hnot; cbn.
        -- exists [ShowError msg]. split; [reflexivity|]. intros [H|[]]. discriminate H.
        -- exists []. split; [symmetry; apply app_nil_r|]. intros [].
      * cbn. rewrite Hnot. exists []. split; [symmetry; apply app_nil_r|]. intros [].
    + apply Z.ltb_lt in Hlt. rewrite Hlt. cbn.
      eexists [_; _; _]. split.
      * rewrite <- !app_assoc. reflexivity.
      * intros [H|[H|[H|[]]]]; discriminate H.
Qed.

End Session.

(** The user presses next at step 1, then tries to pass step 2 without
    playing the video, plays it, and says yes. *)
Lemma session_never_skips_required_step_witness :
  let actions := [TutorialSession.Begin; TutorialSession.Next; TutorialSession.Next;
                  TutorialSession.Did "video_played"; TutorialSession.Next;
                  TutorialSession.Did "clicked_yes"] in
  StepManager.currentStep (StepManager.mgr (TutorialSession.session actions)) = 5 /\
  StepManager.stepValidation (StepManager.mgr (TutorialSession.session actions))
    !! "video_played" = Some true.
Proof.
  intros actions. split; [vm_compute; reflexivity|].
  destruct (session_never_skips_required_step actions 2) as (key & Hkey & Hflag).
  - subst actions. vm_compute. split; [discriminate|reflexivity].
  - reflexivity.
  - cbn in Hkey. injection Hkey as <-. exact Hflag.
Defined.

(** A whole tutorial: at step 10 the next button completes it. *)
Lemma tutorial_completes_at_last_step_only_witness :
  let actions := [TutorialSession.Begin; TutorialSession.Next;
                  TutorialSession.Did "video_played"; TutorialSession.Next;
                  TutorialSession.Did "clicked_yes"; TutorialSession.Did "entered_text";
                  TutorialSession.Next; TutorialSession.Did "clicked_start_time";
                  TutorialSession.Did "clicked_end_time"; TutorialSession.Next;
                  TutorialSession.Did "clicked_save"] in
  TutorialApp.nextStep (TutorialSession.session actions)
    = TutorialApp.completeTutorial (TutorialSession.session actions).
Proof.
  intros actions.
  apply (tutorial_completes_at_last_step_only actions).
  vm_compute. reflexivity.
Defined.

(* ===================================================================== *)
(** * The retry policy for any number of attempts                         *)
(* ===================================================================== *)

Section RetryGeneral.

Import Js Sheets Participants.

Lemma backoff_cons (d first : Z) (k : nat) :
  backoff d first (S k) = d * first :: backoff d (first + 1) k.
Proof.
  unfold backoff. cbn [seq map]. rewrite Z.add_0_r. f_equal.
  rewrite <- seq_shift, map_map. apply map_ext. intros i. f_equal. lia.
Qed.

(** [k] failed attempts in a row, each followed by its wait. *)
Lemma retry_loop_failures (svc : Service) (c : StoreCall) (context : string) :
  forall (k rem : nat) (errors : nat -> Error) (attempt : Z) (lastError : Thrown) (w : World),
    (forall i, (i < k)%nat ->
       meets c (network w (attempts w + i)) = Throw (Exception (errors i))) ->
    attempt + Z.of_nat k <= retryAttempts svc ->
    exists w',
      retry_loop svc (k + rem) attempt lastError (attempt_of c) context w
        = retry_loop svc rem (attempt + Z.of_nat k)
            (match k with O => lastError | S j => Exception (errors j) end)
            (attempt_of c) context w' /\
      network w' = network w /\ attempts w' = (attempts w + k)%nat /\
      sleeps w' = (sleeps w ++ backoff (retryDelay svc) attempt k)%list.
Proof.
  induction k as [|k IH]; intros rem errors attempt lastError w Hfail Hle.
  - exists w. rewrite Z.add_0_r, Nat.add_0_r. cbn. rewrite app_nil_r. auto.
  - cbn [Nat.add]. rewrite retry_step.
    pose proof (Hfail 0%nat (ltac:(lia))) as H0. rewrite Nat.add_0_r in H0. rewrite H0.
    assert (Hlt : (attempt <? retryAttempts svc) = true) by (apply Z.ltb_lt; lia).
    rewrite Hlt.
    destruct (attempt_frame c w) as (_ & Hn1 & Ha1 & Hs1 & _).
    set (w1 := add_sleep _ _).
    assert (Hw1 : network w1 = network w /\ attempts w1 = S (attempts w) /\
                  sleeps w1 = (sleeps w ++ [retryDelay svc * attempt])%list).
    { subst w1. cbn [network attempts sleeps add_sleep add_log].
      rewrite Hn1, Ha1, Hs1. auto. }
    destruct Hw1 as (Hn & Ha & Hs).
    destruct (IH rem (fun i => errors (S i)) (attempt + 1) (Exception (errors 0%nat)) w1)
      as (w' & Heq & Hn' & Ha' & Hs').
    { intros i Hi. rewrite Hn, Ha.
      replace (S (attempts w) + i)%nat with (attempts w + S i)%nat by lia.
      apply Hfail. lia. }
    { lia. }
    exists w'. rewrite Heq.
    replace (attempt + 1 + Z.of_nat k) with (attempt + Z.of_nat (S k)) by lia.
    refine (conj _ (conj _ (conj _ _))).
    + destruct k; reflexivity.
    + rewrite Hn'. exact Hn.
    + rewrite Ha', Ha. lia.
    + rewrite Hs', Hs, backoff_cons, <- app_assoc. reflexivity.
Qed.

(** The attempts made and the waits between them, whatever the attempts
    meet. *)
Lemma retry_loop_waits (svc : Service) (c : StoreCall) (context : string) :
  forall (rem : nat) (attempt : Z) (lastError : Thrown) (w : World),
    (1 <= rem)%nat ->
    attempt + Z.of_nat rem = retryAttempts svc + 1 ->
    exists made,
      (1 <= made <= rem)%nat /\
      attempts (snd (retry_loop svc rem attempt lastError (attempt_of c) context w))
        = (attempts w + made)%nat /\
      sleeps (snd (retry_loop svc rem attempt lastError (attempt_of c) context w))
        = (sleeps w ++ backoff (retryDelay svc) attempt (made - 1))%list.
Proof.
  induction rem as [|k IH]; intros attempt lastError w Hrem Hsum; [lia|].
  rewrite retry_step.
  destruct (attempt_frame c w) as (_ & Hn1 & Ha1 & Hs1 & _).
  destruct (meets c (network w (attempts w))) as [v|[e|]].
  - exists 1%nat. cbn [snd]. rewrite Ha1, Hs1. cbn. rewrite app_nil_r.
    split; [lia|]. split; [lia|reflexivity].
  - destruct k as [|k].
    + assert (Hlt : (attempt <? retryAttempts svc) = false) by (apply Z.ltb_ge; lia).
      rewrite Hlt. exists 1%nat. cbn. rewrite Ha1, Hs1, app_nil_r.
      split; [lia|]. split; [lia|reflexivity].
    + assert (Hlt : (attempt <? retryAttempts svc) = true) by (apply Z.ltb_lt; lia).
      rewrite Hlt.
      set (w1 := add_sleep _ _).
      assert (Hw1 : attempts w1 = S (attempts w) /\
                    sleeps w1 = (sleeps w ++ [retryDelay svc * attempt])%list).
      { subst w1. cbn [attempts sleeps add_sleep add_log]. rewrite Ha1, Hs1. auto. }
      destruct Hw1 as (Ha & Hs).
      destruct (IH (attempt + 1) (Exception e) w1 (ltac:(lia)) (ltac:(lia)))
        as (made & Hmade & Hattempts & Hsleeps).
      exists (S made). rewrite Hattempts, Hsleeps, Ha, Hs.
      split; [lia|]. split; [lia|].
      replace (S made - 1)%nat with (S (made - 1)) by lia.
      rewrite backoff_cons, <- app_assoc. reflexivity.
  - exists 1%nat. cbn [snd]. rewrite Ha1, Hs1. cbn. rewrite app_nil_r.
    split; [lia|]. split; [lia|reflexivity].
Qed.

(** Whatever the number of attempts and the delay of the service are, and
    whatever the attempts meet, a store operation makes between one and
    [retryAttempts] attempts and waits once between two attempts in a
    row, [retryDelay] times the number of the attempt that failed: never
    before the first attempt, never after the last. *)
Theorem withRetry_waits_between_attempts (svc : Service) (c : StoreCall) (w : World) :
  1 <= retryAttempts svc ->
  let r := perform svc c w in
  exists made,
    (1 <= made)%nat /\ Z.of_nat made <= retryAttempts svc /\
    attempts (snd r) = (attempts w + made)%nat /\
    sleeps (snd r) = (sleeps w ++ backoff (retryDelay svc) 1 (made - 1))%list.
Proof.
  intros Hpos. cbv zeta. rewrite perform_withRetry. unfold withRetry.
  destruct (retry_loop_waits svc c (context_of c) (Z.to_nat (retryAttempts svc)) 1
              ThrownUndefined w (ltac:(lia)) (ltac:(lia)))
    as (made & Hmade & Hattempts & Hsleeps).
  exists made. split; [lia|]. split; [lia|]. split; assumption.
Qed.

(** Whatever the number of attempts and the delay of the service are: when
    [k] attempts fail and the next one succeeds, with [k] less than
    [retryAttempts], the operation returns the result of that attempt
    after [k] waits; when [retryAttempts] attempts fail, it throws the
    error of the last one after one wait less than attempts. *)
Theorem withRetry_outcome (svc : Service) (c : StoreCall) (w : World) (k : nat)
    (errors : nat -> Error) :
  (forall i, (i < k)%nat ->
     meets c (network w (attempts w + i)) = Throw (Exception (errors i))) ->
  let r := perform svc c w in
  (forall v, Z.of_nat k < retryAttempts svc ->
     meets c (network w (attempts w + k)) = Return v ->
     fst r = Return v /\ attempts (snd r) = (attempts w + k + 1)%nat /\
     sleeps (snd r) = (sleeps w ++ backoff (retryDelay svc) 1 k)%list) /\
  (forall last, retryAttempts svc = Z.of_nat (S k) ->
     meets c (network w (attempts w + k)) = Throw (Exception last) ->
     fst r = Throw (Exception last) /\ attempts (snd r) = (attempts w + k + 1)%nat /\
     sleeps (snd r) = (sleeps w ++ backoff (retryDelay svc) 1 k)%list).
Proof.
  intros Hfail. cbv zeta. rewrite perform_withRetry. unfold withRetry. split.
  - intros v Hk Hv.
    replace (Z.to_nat (retryAttempts svc))
      with (k + S (Z.to_nat (retryAttempts svc) - k - 1))%nat by lia.
    destruct (retry_loop_failures svc c (context_of c) k
                (S (Z.to_nat (retryAttempts svc) - k - 1)) errors 1 ThrownUndefined w
                Hfail (ltac:(lia)))
      as (w' & -> & Hn & Ha & Hs).
    rewrite retry_step, Hn, Ha, Hv. cbn [fst snd].
    destruct (attempt_frame c w') as (_ & _ & Ha1 & Hs1 & _).
    rewrite Ha1, Hs1, Ha, Hs. split; [reflexivity|]. split; [lia|reflexivity].
  - intros last Hn Hlast. rewrite Hn, Nat2Z.id.
    replace (S k) with (k + 1)%nat by lia.
    destruct (retry_loop_failures svc c (context_of c) k 1 errors 1 ThrownUndefined w
                Hfail (ltac:(lia)))
      as (w' & -> & Hn' & Ha & Hs).
    rewrite retry_step, Hn', Ha, Hlast.
    assert (Hlt : (1 + Z.of_nat k <? retryAttempts svc) = false) by (apply Z.ltb_ge; lia).
    rewrite Hlt. cbn [retry_loop]. unfold bind, effect, throw. cbn [fst snd].
    cbn [attempts sleeps add_log].
    destruct (attempt_frame c w') as (_ & _ & Ha1 & Hs1 & _).
    rewrite Ha1, Hs1, Ha, Hs. split; [reflexivity|]. split; [lia|reflexivity].
Qed.

End RetryGeneral.

(* ===================================================================== *)
(** * Properties of the store: attempts, rows and participants            *)
(* ===================================================================== *)

Section Store.

Import Js Sheets Participants.

Ltac run_attempt :=
  unfold fmap_M, bind, getSheetData_attempt, appendSheetData_attempt,
    updateSheetData_attempt, batchUpdate_attempt, bind, fetchWithToken; cbn.

(** An attempt of a store operation succeeds exactly when the request is
    answered with a successful status and a body that parses and, for the
    three operations that write, has no [error] member; a read does not
    look at [error], and returns the [values] of the body, or no row when
    the body has none. *)
Theorem attempt_succeeds_iff (c : StoreCall) (a : Attempt) (r : StoreResult) :
  meets c a = Return r <->
  exists st stt j,
    a = Responds (mkResponse true st stt (Parsed j)) /\
    match c with
    | GetSheetData _ _ => r = Rows (match values j with Some t => t | None => [] end)
    | _ => error j = None /\ r = Result j
    end.
Proof.
  unfold meets.
  destruct c; cbn; run_attempt;
    destruct a as [e|e|[o st stt b]]; cbn;
    try (split; [discriminate|intros (? & ? & ? & [=] & _)]; fail);
    unfold check_ok; cbn; destruct o; cbn;
    try (split; [discriminate|intros (? & ? & ? & [=] & _)]; fail);
    unfold response_json; cbn; destruct b as [e|[v er]]; cbn;
    try (split; [discriminate|intros (? & ? & ? & [=] & _)]; fail);
    try (split; [intros [= <-]; eauto 10|intros (? & ? & ? & [= <- <- <-] & ->); reflexivity];
         fail);
    unfold check_result; cbn; destruct er as [[[msg|]]|]; cbn;
    try (split; [intros [= <-]; eauto 10
                |intros (? & ? & ? & [= <- <- <-] & _ & ->); reflexivity]; fail);
    try (split; [discriminate|intros (? & ? & ? & [= <- <- <-] & [=] & _)]; fail);
    destruct (String.eqb msg EmptyString); cbn;
    (split; [discriminate|intros (? & ? & ? & [= <- <- <-] & [=] & _)]).
Qed.

End Store.

Section Rows.

Import Js Sheets Participants.

Lemma fill_ext (obj1 obj2 : gmap string Value) (m : Mapping) :
  (forall key, In key (map fst m) -> obj1 !! key = obj2 !! key) ->
  forall row : Row, fill obj1 m row = fill obj2 m row.
Proof.
  induction m as [|[k i] rest IH]; intros Hsame row; [reflexivity|].
  cbn. change (fold_left _ rest ?r) with (fill obj1 rest r) at 1.
  change (fold_left _ rest ?r) with (fill obj2 rest r).
  unfold prop. rewrite (Hsame k) by (left; reflexivity).
  apply IH. intros key Hkey. apply Hsame. right. exact Hkey.
Qed.

(** The object that [transformRowToObject] returns has exactly the keys
    of the mapping, whatever the row holds; a key whose column lies
    beyond the end of the row is there with the value [undefined]. *)
Theorem transformRowToObject_keys (row : Row) (columnMapping : Mapping) :
  (forall key, is_Some (transformRowToObject row columnMapping !! key) <->
               In key (map fst columnMapping)) /\
  (forall key, In key (map fst columnMapping) ->
     (forall i, In (key, i) columnMapping -> (length row <= i)%nat) ->
     transformRowToObject row columnMapping !! key = Some VUndefined).
Proof.
  unfold transformRowToObject. split.
  - intros key.
    destruct (collect_lookup row columnMapping ∅ key) as [[Hout Hsame] | (i & Hi & Hget)].
    + rewrite Hsame, lookup_empty. split; [intros [v Hv]; discriminate Hv|contradiction].
    + rewrite Hget. split; [|eauto]. intros _.
      apply in_map_iff. exists (key, i). split; [reflexivity|exact Hi].
  - intros key Hkey Hshort.
    destruct (collect_lookup row columnMapping ∅ key) as [[Hout _] | (i & Hi & Hget)];
      [contradiction|].
    rewrite Hget. unfold array_get.
    rewrite (lookup_ge_None_2 row i (Hshort i Hi)). reflexivity.
Qed.

(** The row that [transformObjectToRow] builds depends only on the
    properties named by the mapping: two objects that agree on them give
    the same row, so a property outside the mapping is never stored. *)
Theorem transformObjectToRow_ignores_unmapped (obj1 obj2 : gmap string Value)
    (columnMapping : Mapping) :
  (forall key, In key (map fst columnMapping) -> obj1 !! key = obj2 !! key) ->
  transformObjectToRow obj1 columnMapping = transformObjectToRow obj2 columnMapping.
Proof.
  intros Hsame. unfold transformObjectToRow.
  destruct (max_index columnMapping); [|reflexivity].
  f_equal. apply fill_ext. exact Hsame.
Qed.

Lemma row_matches_app (c1 c2 : Criteria) (row : Row) (i : nat) :
  row_matches (c1 ++ c2) row i = row_matches c1 row i && row_matches c2 row i.
Proof.
  induction c1 as [|[k e] rest IH]; [reflexivity|].
  cbn. destruct (criterion_holds k e row i); [exact IH|reflexivity].
Qed.

Lemma findRows_from_all (rows : Table) :
  forall i, map data (findRows_from i rows []) = rows.
Proof.
  induction rows as [|row rest IH]; intros i; [reflexivity|].
  cbn. f_equal. apply IH.
Qed.

(** The criteria of [findRows] combine by conjunction: the matches of two
    sets of criteria put together are the rows that match both; without
    any criterion every row after the header matches. *)
Theorem findRows_criteria_conjunction (table : Table) (c1 c2 : Criteria) :
  (forall r, In r (findRows table (c1 ++ c2)) <->
             In r (findRows table c1) /\ In r (findRows table c2)) /\
  map data (findRows table []) = tl table.
Proof.
  destruct table as [|header [|row rest]].
  - split; [intros r; cbn; tauto|reflexivity].
  - split; [intros r; cbn; tauto|reflexivity].
  - split.
    + intros r. unfold findRows. rewrite !findRows_from_In.
      setoid_rewrite row_matches_app. setoid_rewrite andb_true_iff.
      split.
      * intros (j & Hj & Hi & H1 & H2). split; exists j; auto.
      * intros [(j & Hj & Hi & H1) (_ & _ & _ & H2)]. exists j. auto.
    + unfold findRows. apply findRows_from_all.
Qed.

Lemma findRows_from_literal (k : string) (v : Value) (rows : Table) :
  forall i,
    map data (findRows_from i rows [(k, Literal v)])
      = List.filter (fun row => row_matches [(k, Literal v)] row 0) rows.
Proof.
  induction rows as [|row rest IH]; intros i; [reflexivity|].
  cbn [findRows_from List.filter].
  replace (row_matches [(k, Literal v)] row i) with (row_matches [(k, Literal v)] row 0)
    by reflexivity.
  destruct (row_matches [(k, Literal v)] row 0); cbn [map data]; rewrite IH; reflexivity.
Qed.

Lemma findRows_literal (k : string) (v : Value) (table : Table) :
  map data (findRows table [(k, Literal v)])
    = List.filter (fun row => row_matches [(k, Literal v)] row 0) (tl table).
Proof.
  destruct table as [|header [|row rest]]; [reflexivity|reflexivity|].
  apply findRows_from_literal.
Qed.

Lemma withRetry_first_success {A : Type} (svc : Service) (operation : M World A)
    (context : string) (w w1 : World) (v : A) :
  1 <= retryAttempts svc ->
  operation w = (Return v, w1) ->
  withRetry svc operation context w = (Return v, w1).
Proof.
  intros Hpos Hrun. unfold withRetry.
  destruct (Z.to_nat (retryAttempts svc)) as [|k] eqn:E; [lia|].
  cbn [retry_loop]. unfold try_catch. rewrite Hrun. reflexivity.
Qed.

Lemma getSheetData_answered (svc : Service) (id name : string) (w : World) (j : ResponseJson) :
  1 <= retryAttempts svc ->
  answers w (attempts w) j ->
  exists request,
    method request = GET /\
    getSheetData svc id name w
      = (Return (match values j with Some t => t | None => [] end),
         add_request request (count_attempt w)).
Proof.
  intros Hpos (st & stt & Hnet).
  eexists. split; [|apply withRetry_first_success; [exact Hpos|]].
  2: { unfold getSheetData_attempt, bind, fetchWithToken. rewrite Hnet. cbn. reflexivity. }
  reflexivity.
Qed.

(** When the read is answered, [loadOnomatopoeiaData] returns the records
    of the rows after the header whose first cell matches the participant
    id, in the order of the sheet, and of no other row. *)
Theorem loadOnomatopoeiaData_only_own_rows (svc : Service) (id name : string)
    (participantId : Value) (w : World) (j : ResponseJson) :
  1 <= retryAttempts svc ->
  answers w (attempts w) j ->
  fst (loadOnomatopoeiaData svc id name participantId w)
    = Return (map (fun row => transformRowToObject row onomatopoeiaMapping)
                  (List.filter (fun row => row_matches [("0", Literal participantId)] row 0)
                               (tl (match values j with Some t => t | None => [] end)))).
Proof.
  intros Hpos Hans.
  destruct (getSheetData_answered svc id name w j Hpos Hans) as (request & _ & Hrun).
  unfold loadOnomatopoeiaData, bind. rewrite Hrun. cbn [fst ret].
  rewrite <- findRows_literal, map_map. reflexivity.
Qed.

End Rows.

Section ParticipantIds.

Import Js Sheets Participants.
Local Open Scope Q_scope.

Lemma parseInt_string_finite (s : string) :
  parseInt_string s = NaN \/ exists q, parseInt_string s = Fin q.
Proof.
  unfold parseInt_string.
  destruct (read_sign (skip_spaces s)) as [neg s1].
  assert (Hdec : forall digit base t,
            (let '(v, n, _) := read_digits digit base 0 0 t in
             match n with O => NaN | _ => Fin (signed neg (inject_Z v)) end) = NaN \/
            exists q, (let '(v, n, _) := read_digits digit base 0 0 t in
             match n with O => NaN | _ => Fin (signed neg (inject_Z v)) end) = Fin q).
  { intros digit base t. destruct (read_digits digit base 0 0 t) as [[v n] rest].
    destruct n; eauto. }
  destruct s1 as [|c r]; [apply Hdec|].
  destruct c as [[] [] [] [] [] [] [] []]; try apply Hdec.
  destruct r as [|x r]; [apply Hdec|].
  destruct (Ascii.eqb x "x" || Ascii.eqb x "X"); apply Hdec.
Qed.

Lemma parseInt_finite (v : Value) :
  parseInt v = NaN \/ exists q, parseInt v = Fin q.
Proof.
  destruct v as [| |b|[| | |q]|s|]; cbn; eauto. apply parseInt_string_finite.
Qed.

Lemma maxId_from_spec (rows : Table) :
  forall q0 : Q,
    exists q, maxId_from rows (Fin q0) = Fin q /\ q0 <= q /\
      (forall row x, In row rows -> parseInt (array_get row 0) = Fin x -> x <= q) /\
      (q = q0 \/ exists row, In row rows /\ parseInt (array_get row 0) = Fin q).
Proof.
  induction rows as [|row rest IH]; intros q0; cbn [maxId_from].
  - exists q0. split; [reflexivity|]. split; [apply Qle_refl|].
    split; [intros row x []|left; reflexivity].
  - destruct (parseInt_finite (array_get row 0)) as [Hnan | [x Hx]].
    + rewrite Hnan. cbn. destruct (IH q0) as (q & Hq & Hle & Hall & Hfrom).
      exists q. split; [exact Hq|]. split; [exact Hle|]. split.
      * intros row' y [<- | Hin] Hy; [congruence|]. apply (Hall row' y Hin Hy).
      * destruct Hfrom as [-> | (row' & Hin & Hrow')]; [left; reflexivity|].
        right. exists row'. split; [right; exact Hin|exact Hrow'].
    + rewrite Hx. cbn. destruct (Qle_bool x q0) eqn:Hcmp; cbn.
      * apply Qle_bool_iff in Hcmp.
        destruct (IH q0) as (q & Hq & Hle & Hall & Hfrom).
        exists q. split; [exact Hq|]. split; [exact Hle|]. split.
        -- intros row' y [<- | Hin] Hy.
           ++ rewrite Hx in Hy. injection Hy as <-. apply (Qle_trans _ q0); assumption.
           ++ apply (Hall row' y Hin Hy).
        -- destruct Hfrom as [-> | (row' & Hin & Hrow')]; [left; reflexivity|].
           right. exists row'. split; [right; exact Hin|exact Hrow'].
      * assert (Hlt : q0 < x).
        { apply Qnot_le_lt. intros Hle. apply Qle_bool_iff in Hle. congruence. }
        destruct (IH x) as (q & Hq & Hle & Hall & Hfrom).
        exists q. split; [exact Hq|]. split; [|split].
        -- apply Qlt_le_weak. apply (Qlt_le_trans _ x); assumption.
        -- intros row' y [<- | Hin] Hy.
           ++ rewrite Hx in Hy. injection Hy as <-. exact Hle.
           ++ apply (Hall row' y Hin Hy).
        -- right. destruct Hfrom as [-> | (row' & Hin & Hrow')].
           ++ exists row. split; [left; reflexivity|exact Hx].
           ++ exists row'. split; [right; exact Hin|exact Hrow'].
Qed.

(** What [parseInt] reads from a safe cell is a safe integer. *)
Lemma safe_id_bound (v : Value) (x : Q) :
  safe_id_cell v = true -> parseInt v = Fin x -> x <= max_safe_integer.
Proof.
  destruct v as [| |b|[| | |q]|s|]; cbn [safe_id_cell parseInt]; try discriminate.
  - intros Hsafe [= <-]. apply andb_true_iff in Hsafe. destruct Hsafe as [Hint Hle].
    apply Qeq_bool_iff in Hint. apply Qle_bool_iff in Hle.
    rewrite Hint. eapply Qle_trans; [apply Qle_Qabs|exact Hle].
  - intros Hsafe Hx. rewrite Hx in Hsafe.
    apply andb_true_iff in Hsafe. destruct Hsafe as [_ Hle].
    apply Qle_bool_iff in Hle. eapply Qle_trans; [apply Qle_Qabs|exact Hle].
Qed.

(** For a sheet whose first cells after the header are safe (ASCII
    strings or numbers, with integers up to 2^53 - 1), where the exact
    arithmetic of the model is that of JavaScript: the id that
    [saveNewParticipant] gives a new participant is a number between 1
    and 2^53, greater than the id of every row after the header whose
    first cell parses as an integer; the header row and the rows whose
    first cell does not parse are ignored, and a sheet with no row after
    the header gives 1. *)
Theorem new_participant_id_is_fresh (table : Table) :
  (forall i row, (1 <= i)%nat -> table !! i = Some row ->
     safe_id_cell (array_get row 0) = true) ->
  exists q, newParticipantId table = Fin q /\ 1 <= q /\ q <= inject_Z (2 ^ 53) /\
    ((length table <= 1)%nat -> q == 1) /\
    forall i row x, (1 <= i)%nat -> table !! i = Some row ->
      parseInt (array_get row 0) = Fin x -> x < q.
Proof.
  intros Hsafe. unfold newParticipantId, maxParticipantId.
  destruct table as [|header [|row rest]].
  - exists (Qred (0 + 1)). split; [reflexivity|]. split; [vm_compute; discriminate|].
    split; [vm_compute; discriminate|]. split; [reflexivity|].
    intros i row x _ Hi. destruct i; discriminate Hi.
  - exists (Qred (0 + 1)). split; [reflexivity|]. split; [vm_compute; discriminate|].
    split; [vm_compute; discriminate|]. split; [reflexivity|].
    intros i row x Hi Hrow. destruct i as [|[|i]]; [lia|discriminate Hrow|discriminate Hrow].
  - destruct (maxId_from_spec (row :: rest) 0) as (q & Hq & Hle & Hall & Hfrom).
    rewrite Hq. exists (Qred (q + 1)). split; [reflexivity|].
    rewrite Qred_correct.
    assert (Hmax : q <= max_safe_integer).
    { destruct Hfrom as [-> | (row' & Hin & Hrow')]; [vm_compute; discriminate|].
      apply (safe_id_bound (array_get row' 0)); [|exact Hrow'].
      apply list_elem_of_In, list_elem_of_lookup_1 in Hin. destruct Hin as [i Hi].
      apply (Hsafe (S i) row'); [lia|exact Hi]. }
    split; [|split; [|split]].
    + apply (Qle_trans _ (0 + 1)); [vm_compute; discriminate|].
      apply Qplus_le_l. exact Hle.
    + apply (Qle_trans _ (max_safe_integer + 1)); [apply Qplus_le_l; exact Hmax|].
      vm_compute. discriminate.
    + cbn [length]. lia.
    + intros i row' x Hi Hrow Hx.
      destruct i as [|i]; [lia|]. cbn in Hrow.
      rewrite Qred_correct. apply (Qle_lt_trans _ q).
      * apply (Hall row' x); [|exact Hx].
        apply list_elem_of_In. eapply list_elem_of_lookup_2. exact Hrow.
      * assert (Hstep : q + 0 < q + 1) by (apply Qplus_lt_r; reflexivity).
        rewrite Qplus_0_r in Hstep. exact Hstep.
Qed.

End ParticipantIds.

Section ParticipantStore.

Import Js Sheets Participants.

Lemma appendSheetData_answered (svc : Service) (id name : string) (row : list Slot)
    (w : World) (j : ResponseJson) :
  1 <= retryAttempts svc ->
  answers w (attempts w) j ->
  error j = None ->
  exists request,
    method request = POST /\ payload request = Values [row_to_json row] /\
    appendSheetData svc id name (OneRow row) w
      = (Return j, add_request request (count_attempt w)).
Proof.
  intros Hpos (st & stt & Hnet) Herr.
  eexists. split; [|split; [|apply withRetry_first_success; [exact Hpos|]]].
  3: { unfold appendSheetData_attempt, bind, fetchWithToken. rewrite Hnet. cbn.
       unfold check_result. rewrite Herr. reflexivity. }
  - reflexivity.
  - reflexivity.
Qed.

Lemma participant_row_cells (p : gmap string Value) :
  participant_row p
    = [Elem (prop p "participantId"); Elem (prop p "email"); Elem (prop p "name");
       Elem (prop p "age"); Elem (prop p "gender"); Elem (prop p "nativeLanguage");
       Elem (prop p "registrationTimestamp")].
Proof. reflexivity. Qed.

Lemma participant_record (p : gmap string Value) :
  transformRowToObject (participant_row p) participantMapping
    = <["registrationTimestamp" := prop p "registrationTimestamp"]>
      (<["nativeLanguage" := prop p "nativeLanguage"]>
      (<["gender" := prop p "gender"]>
      (<["age" := prop p "age"]>
      (<["name" := prop p "name"]>
      (<["email" := prop p "email"]>
      (<["participantId" := prop p "participantId"]> ∅)))))).
Proof. reflexivity. Qed.

(** When the read and then the append are answered without error,
    [saveNewParticipant] issues one read and one append, without waiting;
    the row appended is the row of the record it returns: the data of the
    form with the fresh id and the registration time. *)
Theorem saveNewParticipant_appends_record (svc : Service) (now id name : string)
    (participantData : gmap string Value) (w : World) (j1 j2 : ResponseJson) :
  1 <= retryAttempts svc ->
  answers w (attempts w) j1 ->
  answers w (S (attempts w)) j2 ->
  error j2 = None ->
  let table := match values j1 with Some t => t | None => [] end in
  let participant := participantWithId participantData (newParticipantId table) now in
  let r := saveNewParticipant svc now id name participantData w in
  fst r = Return participant /\
  map method (requests (snd r)) = (map method (requests w) ++ [GET; POST])%list /\
  appended_rows (snd r)
    = (appended_rows w ++ [row_to_json (participant_row participant)])%list /\
  sleeps (snd r) = sleeps w.
Proof.
  intros Hpos Hread Happend Herr. cbv zeta.
  destruct (getSheetData_answered svc id name w j1 Hpos Hread) as (get & Hget & Hrun).
  set (table := match values j1 with Some t => t | None => [] end) in *.
  set (participant := participantWithId participantData (newParticipantId table) now).
  destruct (appendSheetData_answered svc id name (participant_row participant)
              (add_request get (count_attempt w)) j2 Hpos Happend Herr)
    as (post & Hpost & Hpayload & Hrun2).
  assert (Hr : saveNewParticipant svc now id name participantData w
               = (Return participant,
                  add_request post (count_attempt (add_request get (count_attempt w))))).
  { unfold saveNewParticipant, bind at 1. rewrite Hrun.
    change (transformObjectToRow (participantWithId participantData
                                    (newParticipantId table) now) participantMapping)
      with (Return (participant_row participant)).
    cbv iota. unfold bind. rewrite Hrun2. reflexivity. }
  rewrite Hr. cbn [fst snd].
  split; [reflexivity|].
  cbn [requests sleeps add_request count_attempt].
  split; [|split; [|reflexivity]].
  - rewrite !map_app. cbn. rewrite Hget, Hpost, <- app_assoc. reflexivity.
  - unfold appended_rows. cbn [requests add_request count_attempt].
    rewrite !flat_map_app. cbn. rewrite Hget, Hpost, Hpayload, !app_nil_r. reflexivity.
Qed.

Lemma findRows_from_app (criteria : Criteria) (rows more : Table) :
  forall i,
    findRows_from i (rows ++ more) criteria
      = (findRows_from i rows criteria
         ++ findRows_from (i + length rows) more criteria)%list.
Proof.
  induction rows as [|row rest IH]; intros i; cbn.
  - rewrite Nat.add_0_r. reflexivity.
  - replace (i + S (length rest))%nat with (S i + length rest)%nat by lia.
    destruct (row_matches criteria row i); cbn; rewrite IH; reflexivity.
Qed.

Lemma findRows_from_none (criteria : Criteria) (rows : Table) :
  forall i,
    (forall j row, rows !! j = Some row -> row_matches criteria row (i + j) = false) ->
    findRows_from i rows criteria = [].
Proof.
  induction rows as [|row rest IH]; intros i Hnone; [reflexivity|].
  cbn. pose proof (Hnone 0%nat row eq_refl) as H0. rewrite Nat.add_0_r in H0.
  rewrite H0. apply IH. intros j row' Hj.
  replace (S i + j)%nat with (i + S j)%nat by lia. apply Hnone. exact Hj.
Qed.

(** A participant that was saved is found again, for ASCII e-mail
    addresses: in a sheet whose last row is the row built for the
    participant, whose earlier e-mail cells are ASCII strings or empty,
    and where no earlier row after the header has the looked-up address
    up to letter case, looking up the e-mail in any letter case returns a
    record with the id and the registration time that were given, and the
    e-mail and the other mapped fields of the form.  The sheet must
    already have its header row. *)
Theorem saved_participant_is_found (svc : Service) (id name : string) (w : World)
    (j : ResponseJson) (t : Table) (participantData : gmap string Value)
    (newId : Number) (now email lookup : string) :
  1 <= retryAttempts svc ->
  (1 <= length t)%nat ->
  participantData !! "email" = Some (VStr email) ->
  ascii_only email = true ->
  ascii_only lookup = true ->
  eq_ignore_case email lookup = true ->
  (forall i row, (1 <= i)%nat -> t !! i = Some row ->
     email_cell (array_get row 1) = true /\
     forall a, array_get row 1 = VStr a -> eq_ignore_case a lookup = false) ->
  answers w (attempts w) j ->
  values j = Some (t ++ [participant_row (participantWithId participantData newId now)])%list ->
  exists record,
    fst (findParticipantByEmail svc id name lookup w) = Return (Some record) /\
    record !! "participantId" = Some (VNum newId) /\
    record !! "registrationTimestamp" = Some (VStr now) /\
    record !! "email" = Some (VStr email) /\
    (forall key, In key ["name"; "age"; "gender"; "nativeLanguage"] ->
       record !! key = Some (prop participantData key)).
Proof.
  intros Hpos Hheader Hemail _ _ Hsame Hothers Hans Hvalues.
  assert (Hnone : forall i row, (1 <= i)%nat -> t !! i = Some row ->
            row_matches [("1", Literal (VStr lookup))] row i = false).
  { intros i row Hi Hrow. destruct (Hothers i row Hi Hrow) as [Hcell Hdiffer].
    cbn [row_matches]. unfold criterion_holds.
    change (array_get_num row (parseInt_string "1")) with (array_get row 1).
    destruct (array_get row 1) as [| |b|n|a|] eqn:E; try discriminate Hcell;
      try reflexivity.
    rewrite lower_eqb_ignore_case, (Hdiffer a eq_refl). reflexivity. }
  set (participant := participantWithId participantData newId now) in *.
  destruct (getSheetData_answered svc id name w j Hpos Hans) as (get & _ & Hrun).
  rewrite Hvalues in Hrun.
  assert (Hfound : findRow (t ++ [participant_row participant])
                     [("1", Literal (VStr lookup))]
                   = Some {| rowIndex := length t; data := participant_row participant |}).
  { unfold findRow, findRows.
    destruct t as [|header rest]; [cbn in Hheader; lia|].
    assert (Hmatch : row_matches [("1", Literal (VStr lookup))]
                       (participant_row participant) (length (header :: rest)) = true).
    { assert (Hcell : array_get_num (participant_row participant) (parseInt_string "1")
                      = prop participant "email") by reflexivity.
      cbn [row_matches]. unfold criterion_holds. rewrite Hcell.
      unfold prop, participant, participantWithId.
      rewrite lookup_insert_ne by discriminate.
      rewrite lookup_insert_ne by discriminate.
      rewrite Hemail, lower_eqb_ignore_case, Hsame. reflexivity. }
    assert (Hrest : findRows_from 1 rest [("1", Literal (VStr lookup))] = []).
    { apply findRows_from_none. intros i row Hi. apply Hnone; [lia|exact Hi]. }
    change ((header :: rest) ++ [participant_row participant])%list
      with (header :: (rest ++ [participant_row participant]))%list.
    destruct rest as [|row rest'].
    - cbn [app findRows_from]. cbn [length] in Hmatch. rewrite Hmatch. reflexivity.
    - change (((row :: rest') ++ [participant_row participant])%list)
        with (row :: (rest' ++ [participant_row participant]))%list.
      cbv iota.
      change (row :: (rest' ++ [participant_row participant]))%list
        with ((row :: rest') ++ [participant_row participant])%list.
      rewrite findRows_from_app, Hrest. cbn [app findRows_from].
      cbn [length] in Hmatch. cbn [length Nat.add]. rewrite Hmatch. reflexivity. }
  exists (transformRowToObject (participant_row participant) participantMapping).
  split.
  { unfold findParticipantByEmail, bind. rewrite Hrun, Hfound. reflexivity. }
  rewrite participant_record.
  unfold participant, participantWithId.
  repeat split.
  - unfold prop.
    repeat first [rewrite lookup_insert_eq | rewrite lookup_insert_ne by discriminate].
    reflexivity.
  - unfold prop.
    repeat first [rewrite lookup_insert_eq | rewrite lookup_insert_ne by discriminate].
    reflexivity.
  - unfold prop.
    repeat first [rewrite lookup_insert_eq | rewrite lookup_insert_ne by discriminate].
    rewrite Hemail. reflexivity.
  - intros key [<- | [<- | [<- | [<- | []]]]]; unfold prop;
      repeat first [rewrite lookup_insert_eq | rewrite lookup_insert_ne by discriminate];
      reflexivity.
Qed.

End ParticipantStore.

(** A sheet with a header, the ids 4 and 12, and a row without id. *)
Lemma new_participant_id_is_fresh_witness :
  let sheet := [[Sheets.Elem (Js.VStr "participantId")];
                [Sheets.Elem (Js.VStr "4")]; [Sheets.Elem (Js.VStr "12")];
                [Sheets.Elem (Js.VStr "n/a")]] in
  exists q, Participants.newParticipantId sheet = Js.Fin q /\ (12 < q)%Q.
Proof.
  intros sheet.
  destruct (new_participant_id_is_fresh sheet) as (q & Hq & _ & _ & _ & Hfresh).
  - intros i row Hi Hrow.
    destruct i as [|[|[|[|i]]]]; [lia| | | |discriminate Hrow];
      injection Hrow as <-; reflexivity.
  - exists q. split; [exact Hq|].
    apply (Hfresh 2%nat [Sheets.Elem (Js.VStr "12")] 12%Q); [lia|reflexivity|reflexivity].
Defined.

(** A service with five attempts and a delay of 200 ms, off line. *)
Lemma withRetry_waits_between_attempts_witness :
  let svc := Sheets.mkService 5 200 in
  let c := Sheets.GetSheetData "id" "Participants" in
  let w := Sheets.probe (Sheets.FetchFails (Js.mkError Js.GenericError "offline")) in
  exists made,
    (1 <= made)%nat /\ Z.of_nat made <= Sheets.retryAttempts svc /\
    Sheets.attempts (snd (Sheets.perform svc c w)) = (Sheets.attempts w + made)%nat /\
    Sheets.sleeps (snd (Sheets.perform svc c w))
      = (Sheets.sleeps w
         ++ Participants.backoff (Sheets.retryDelay svc) 1 (made - 1))%list.
Proof.
  intros svc c w. apply (withRetry_waits_between_attempts svc c w). cbn. lia.
Defined.

(** The same service, when the network comes back for the third attempt. *)
Lemma withRetry_outcome_witness :
  let svc := Sheets.mkService 5 200 in
  let offline := Js.mkError Js.GenericError "offline" in
  let sheet := [[Sheets.Elem (Js.VStr "id")]] in
  let w := {| Sheets.network := fun n =>
                if (n <? 2)%nat then Sheets.FetchFails offline
                else Sheets.Responds
                       (Sheets.mkResponse true 200 "OK"
                          (Sheets.Parsed (Sheets.mkResponseJson (Some sheet) None)));
              Sheets.attempts := 0; Sheets.token := "t"; Sheets.requests := [];
              Sheets.sleeps := []; Sheets.console := [] |} in
  let r := Sheets.perform svc (Sheets.GetSheetData "id" "Participants") w in
  fst r = Js.Return (Sheets.Rows sheet) /\ Sheets.sleeps (snd r) = [200; 400].
Proof.
  intros svc offline sheet w r.
  destruct (withRetry_outcome svc (Sheets.GetSheetData "id" "Participants") w 2
              (fun _ => offline)) as [Hok _].
  - intros i Hi. destruct i as [|[|i]]; [reflexivity|reflexivity|lia].
  - destruct (Hok (Sheets.Rows sheet)) as (Hr & _ & Hs); [cbn; lia|reflexivity|].
    split; [exact Hr|exact Hs].
Defined.

(** The form of the index page has a field that the sheet has no column
    for. *)
Lemma transformObjectToRow_ignores_unmapped_witness :
  let form : gmap string Js.Value :=
    <["movementPractice" := Js.VStr "dance"]> (<["email" := Js.VStr "a@b.com"]> ∅) in
  let bare : gmap string Js.Value := <["email" := Js.VStr "a@b.com"]> ∅ in
  Sheets.transformObjectToRow form Sheets.participantMapping
    = Sheets.transformObjectToRow bare Sheets.participantMapping.
Proof.
  intros form bare. apply transformObjectToRow_ignores_unmapped.
  intros key Hkey. cbn in Hkey.
  destruct Hkey as [<- | [<- | [<- | [<- | [<- | [<- | [<- | []]]]]]]];
    vm_compute; reflexivity.
Defined.

(** A sheet with the rows of two participants. *)
Lemma loadOnomatopoeiaData_only_own_rows_witness :
  let sheet := [[Sheets.Elem (Js.VStr "participantId")];
                [Sheets.Elem (Js.VStr "3"); Sheets.Elem (Js.VStr "Ann")];
                [Sheets.Elem (Js.VStr "4"); Sheets.Elem (Js.VStr "Bob")]] in
  let w := Sheets.probe (Sheets.Responds
             (Sheets.mkResponse true 200 "OK"
                (Sheets.Parsed (Sheets.mkResponseJson (Some sheet) None)))) in
  exists record,
    fst (Sheets.loadOnomatopoeiaData Sheets.constructor "id" "Onomatopoeia" (Js.num 3) w)
      = Js.Return [record] /\
    Sheets.prop record "participantName" = Js.VStr "Ann".
Proof.
  intros sheet w. eexists. split.
  - rewrite (loadOnomatopoeiaData_only_own_rows Sheets.constructor "id" "Onomatopoeia"
               (Js.num 3) w (Sheets.mkResponseJson (Some sheet) None)).
    + vm_compute. reflexivity.
    + cbn. lia.
    + exists 200, "OK". reflexivity.
  - vm_compute. reflexivity.
Defined.

(** The sheet has a header and one participant, of id 4. *)
Lemma saveNewParticipant_appends_record_witness :
  let sheet := [[Sheets.Elem (Js.VStr "participantId")];
                [Sheets.Elem (Js.VStr "4"); Sheets.Elem (Js.VStr "a@b.com")]] in
  let answer := Sheets.mkResponseJson (Some sheet) None in
  let w := Sheets.probe (Sheets.Responds
             (Sheets.mkResponse true 200 "OK" (Sheets.Parsed answer))) in
  let form : gmap string Js.Value := <["email" := Js.VStr "c@d.com"]> ∅ in
  let r := Participants.saveNewParticipant Sheets.constructor "now" "id" "Participants"
             form w in
  Participants.newParticipantId sheet = Js.Fin (inject_Z 5) /\
  fst r = Js.Return (Participants.participantWithId form
                       (Participants.newParticipantId sheet) "now") /\
  map Sheets.method (Sheets.requests (snd r)) = [Sheets.GET; Sheets.POST].
Proof.
  intros sheet answer w form r. split; [vm_compute; reflexivity|].
  destruct (saveNewParticipant_appends_record Sheets.constructor "now" "id" "Participants"
              form w answer answer) as (Hr & Hm & _).
  - cbn. lia.
  - exists 200, "OK". reflexivity.
  - exists 200, "OK". reflexivity.
  - reflexivity.
  - split; [exact Hr|exact Hm].
Defined.

(** A participant registered as Ann@B.com is looked up as ann@b.com. *)
Lemma saved_participant_is_found_witness :
  let t := [[Sheets.Elem (Js.VStr "participantId"); Sheets.Elem (Js.VStr "email")];
            [Sheets.Elem (Js.VStr "4"); Sheets.Elem (Js.VStr "a@b.com")]] in
  let form : gmap string Js.Value := <["email" := Js.VStr "Ann@B.com"]> ∅ in
  let row := Participants.participant_row
               (Participants.participantWithId form (Js.Fin 5) "now") in
  let w := Sheets.probe (Sheets.Responds
             (Sheets.mkResponse true 200 "OK"
                (Sheets.Parsed (Sheets.mkResponseJson (Some (t ++ [row])%list) None)))) in
  exists record,
    fst (Participants.findParticipantByEmail Sheets.constructor "id" "Participants"
           "ann@b.com" w) = Js.Return (Some record) /\
    record !! "participantId" = Some (Js.VNum (Js.Fin 5)).
Proof.
  intros t form row w.
  destruct (saved_participant_is_found Sheets.constructor "id" "Participants" w
              (Sheets.mkResponseJson (Some (t ++ [row])%list) None) t form (Js.Fin 5)
              "now" "Ann@B.com" "ann@b.com")
    as (record & Hrun & Hid & _).
  - cbn. lia.
  - cbn. lia.
  - reflexivity.
  - reflexivity.
  - reflexivity.
  - reflexivity.
  - intros i r Hi Hr. destruct i as [|[|i]]; [lia| |discriminate Hr].
    injection Hr as <-. split; [reflexivity|].
    intros a [= <-]. reflexivity.
  - exists 200, "OK". reflexivity.
  - reflexivity.
  - exists record. split; [exact Hrun|exact Hid].
Defined.

(* ===================================================================== *)
(** * Properties of the bubble of a tutorial step                       *)
(* ===================================================================== *)

Section StepBubbles.

Import Js BubblePositioner StepBubble.
Local Open Scope Q_scope.

Ltac halves := unfold Qdiv in *; change (/ 2) with (1 # 2) in *; lra.

Lemma gtb_lt (a b : Q) : b < a -> gtb a b = true.
Proof.
  intros Hlt. unfold gtb. destruct (Qle_bool a b) eqn:E; [|reflexivity].
  apply Qle_bool_iff in E. lra.
Qed.

Lemma gtb_le (a b : Q) : a <= b -> gtb a b = false.
Proof.
  intros Hle. unfold gtb. apply Qle_bool_iff in Hle. rewrite Hle. reflexivity.
Qed.

Lemma abs_dominant (x y : Q) : y == 0 -> x < 0 \/ 0 < x -> gtb (Qabs x) (Qabs y) = true.
Proof.
  intros Hy Hx. apply gtb_lt. rewrite Hy. change (Qabs 0) with 0.
  destruct Hx as [Hneg | Hpos].
  - rewrite Qabs_neg by lra. lra.
  - rewrite Qabs_pos by lra. exact Hpos.
Qed.

Lemma abs_dominated (x y : Q) : x == 0 -> gtb (Qabs x) (Qabs y) = false.
Proof.
  intros Hx. apply gtb_le. rewrite Hx. change (Qabs 0) with 0. apply Qabs_nonneg.
Qed.

(** The arrow that [calculateArrowDirection] computes for the candidate
    of a placement is the arrow of the candidate. *)
Lemma arrow_of_candidate (targetRect bubbleRect : Rect) (offset : Q) (p : Placement) :
  proper targetRect bubbleRect offset ->
  calculateArrowDirection (candidate targetRect bubbleRect offset p) bubbleRect
    (rect_left targetRect + rect_width targetRect / 2)
    (rect_top targetRect + rect_height targetRect / 2)
  = arrow (candidate targetRect bubbleRect offset p).
Proof.
  intros (Htw & Hth & Hbw & Hbh & Hoff).
  unfold calculateArrowDirection, rect_right, rect_bottom.
  destruct p;
    match goal with
    | |- context [candidate ?t ?b ?o ?p] =>
        let c := eval cbv [candidate name_of strategies_table String.eqb Ascii.eqb Bool.eqb]
                   in (candidate t b o p) in
        change (candidate t b o p) with c
    end; cbn [left top arrow]; unfold rect_right, rect_bottom.
  - rewrite abs_dominant, gtb_lt; [reflexivity| | |]; [halves|halves|right; halves].
  - rewrite abs_dominant, gtb_le; [reflexivity| | |]; [halves|halves|left; halves].
  - rewrite abs_dominated, gtb_lt; [reflexivity| |]; [halves|halves].
  - rewrite abs_dominated, gtb_le; [reflexivity| |]; [halves|halves].
Qed.

(** When a placement of the order fits the viewport, the bubble is put at
    the first such candidate, unchanged, and the arrow class that
    [performPositioning] computes from the geometry is the arrow of that
    candidate: the arrow points at the target. *)
Theorem arrow_follows_fitting_placement (bubbleRect targetRect : Rect)
    (preferences : list Placement) (config : Options) (viewportWidth viewportHeight : Q)
    (s : Strategy) :
  proper targetRect bubbleRect (offset config) ->
  first_fit (generatePositionStrategies targetRect bubbleRect (offset config)
               (map name_of preferences))
            bubbleRect viewportWidth viewportHeight (viewportPadding config) = Some s ->
  performPositioning bubbleRect targetRect (map name_of preferences) config
                     viewportWidth viewportHeight
    = Return {| position := s; arrow_class := arrow s;
                placed_targetRect := targetRect; placed_bubbleRect := bubbleRect |}.
Proof.
  intros Hproper Hfit. unfold performPositioning, findBestPosition. rewrite Hfit.
  apply first_fit_fits in Hfit. destruct Hfit as [Hin _].
  rewrite strategies_of_placements in Hin. apply in_map_iff in Hin.
  destruct Hin as (p & <- & _).
  rewrite (arrow_of_candidate targetRect bubbleRect (offset config) p Hproper).
  reflexivity.
Qed.

Lemma default_preferences (stepNumber : Z) :
  exists p rest, getStepPositioningPreferences stepNumber = map name_of (p :: rest).
Proof.
  assert (H1 : exists p rest, ["below"; "right"; "left"; "above"] = map name_of (p :: rest))
    by (exists Below, [Right; Left; Above]; reflexivity).
  assert (H2 : exists p rest, ["right"; "left"; "above"; "below"] = map name_of (p :: rest))
    by (exists Right, [Left; Above; Below]; reflexivity).
  assert (H3 : exists p rest, ["above"; "below"; "right"; "left"] = map name_of (p :: rest))
    by (exists Above, [Below; Right; Left]; reflexivity).
  assert (H4 : exists p rest, ["right"; "left"; "below"; "above"] = map name_of (p :: rest))
    by (exists Right, [Left; Below; Above]; reflexivity).
  assert (H5 : exists p rest, ["above"; "right"; "left"; "below"] = map name_of (p :: rest))
    by (exists Above, [Right; Left; Below]; reflexivity).
  unfold getStepPositioningPreferences.
  destruct stepNumber as [|p|p]; try exact H4.
  do 4 (try destruct p as [p|p|]; try exact H4); assumption.
Qed.

(** [positionForStep] with the preferences of the step: it resolves to
    [null] exactly when the page lacks the element of the step (always
    so for a step outside 1..10) or the bubble; otherwise it never throws,
    whatever the step and the geometry, and puts the bubble at least 20
    pixels from the left and top edges, and wholly within the 20-pixel
    margin when the viewport has room for it.  An empty preference
    array, which is not replaced by the preferences of the step, makes it
    throw. *)
Theorem positionForStep_default_preferences (bubble : option Rect) (stepNumber : Z)
    (elements : Elements) (viewportWidth viewportHeight : Q) :
  match getStepElementMapping elements stepNumber, bubble with
  | Some targetRect, Some bubbleRect =>
      (exists placed,
         positionForStep bubble stepNumber elements None viewportWidth viewportHeight
           = Some (Return placed) /\
         placed_targetRect placed = targetRect /\
         20 <= left (position placed) /\ 20 <= top (position placed) /\
         (rect_width bubbleRect + 40 <= viewportWidth ->
          rect_height bubbleRect + 40 <= viewportHeight ->
          within_viewport (position placed) bubbleRect viewportWidth viewportHeight 20)) /\
      (exists e,
         positionForStep bubble stepNumber elements (Some []) viewportWidth viewportHeight
           = Some (Throw e))
  | _, _ =>
      forall preferences,
        positionForStep bubble stepNumber elements preferences viewportWidth viewportHeight
          = None
  end.
Proof.
  unfold positionForStep.
  destruct (getStepElementMapping elements stepNumber) as [targetRect|];
    [|intros; reflexivity].
  destruct bubble as [bubbleRect|]; [|intros; reflexivity].
  split; [|eexists; reflexivity].
  destruct (default_preferences stepNumber) as (p & rest & ->).
  unfold performPositioning, findBestPosition.
  rewrite strategies_of_placements. cbn [map].
  destruct (first_fit _ bubbleRect viewportWidth viewportHeight (viewportPadding defaultOptions))
    as [s|] eqn:Hfit.
  - apply first_fit_fits in Hfit. destruct Hfit as [_ Hwithin].
    eexists. split; [reflexivity|]. cbn [position placed_targetRect].
    split; [reflexivity|]. destruct Hwithin as (Hl & Hr & Ht & Hb).
    split; [exact Hl|]. split; [exact Ht|]. intros _ _. repeat split; assumption.
  - eexists. split; [reflexivity|]. cbn [position placed_targetRect].
    split; [reflexivity|].
    match goal with
    | |- context [constrainToViewport ?first _ _ _ _] =>
        destruct (constrain_bounds bubbleRect viewportWidth viewportHeight
                    (viewportPadding defaultOptions) first)
          as (Hl & Ht & Hw & Hh & _)
    end.
    change (viewportPadding defaultOptions) with 20 in *.
    split; [exact Hl|]. split; [exact Ht|]. intros Hroomw Hroomh.
    unfold within_viewport. split; [exact Hl|]. split.
    + assert (H := Hw (ltac:(lra))). lra.
    + split; [exact Ht|]. assert (H := Hh (ltac:(lra))). lra.
Qed.

End StepBubbles.

(** A bubble of 200 by 100 beside a button, in a window of 1000 by 800. *)
Lemma arrow_follows_fitting_placement_witness :
  let target := BubblePositioner.mkRect 100 100 50 50 in
  let bubble := BubblePositioner.mkRect 0 0 200 100 in
  exists placed,
    StepBubble.performPositioning bubble target ["right"; "below"] StepBubble.defaultOptions
                                  1000 800 = Js.Return placed /\
    StepBubble.arrow_class placed = "arrow-left".
Proof.
  intros target bubble. eexists. split.
  - apply (arrow_follows_fitting_placement bubble target
             [BubblePositioner.Right; BubblePositioner.Below] StepBubble.defaultOptions
             1000 800).
    + unfold StepBubble.proper. cbn. repeat split; try discriminate.
    + vm_compute. reflexivity.
  - reflexivity.
Defined.

(* ===================================================================== *)
(** * Properties of the survey page                                     *)
(* ===================================================================== *)

Section SurveyPage.

Import Js Sheets SurveyApp.

(** Closes a goal on the events a run added to [ui], none of which resets
    the display or moves to the next video. *)
Ltac events_done :=
  eexists; split;
  [ cbn [ui note set_world set_filteredData set_localStorage count_upload];
    rewrite <- ?app_assoc; first [reflexivity | symmetry; apply app_nil_r]
  | repeat constructor; discriminate ].

Lemma saveOnomatopoeia_frame (infoDict : gmap string Value) (verbose : bool) (p : Page) :
  let r := saveOnomatopoeia infoDict verbose p in
  currentVideoName (snd r) = currentVideoName p /\
  nextVideo (snd r) = nextVideo p /\
  messageDisplay (snd r) = messageDisplay p /\
  texts (snd r) = texts p /\
  (exists events,
     ui (snd r) = (ui p ++ events)%list /\
     Forall (fun e => e <> ResetDisplay /\ e <> GoToNextVideo) events) /\
  match fst r with
  | Return _ =>
      validateOnomatopoeiaData (texts p) infoDict = Return None /\
      exists audioFileName,
        filteredData (snd r) = (filteredData p ++ [updatedInfoDict infoDict audioFileName])%list
  | Throw _ =>
      filteredData (snd r) = filteredData p /\ localStorage (snd r) = localStorage p
  end.
Proof.
  cbv zeta.
  remember (saveOnomatopoeia infoDict verbose p) as r eqn:Hr.
  unfold saveOnomatopoeia, bind at 1, gets at 1 in Hr. cbv beta iota in Hr.
  destruct (validateOnomatopoeiaData (texts p) infoDict) as [[msg|]|e] eqn:Hval.
  - unfold bind, when, showError, effect, throw in Hr.
    destruct verbose; subst r; cbn; repeat (split; [reflexivity|]);
      (split; [events_done|split; reflexivity]).
  - remember (Sheets.saveOnomatopoeia Sheets.constructor) as service eqn:Hservice in Hr.
    unfold bind, gets, ret, lift, effect, when, try_catch, uploadAudioFile, showError,
      showSuccess in Hr.
    cbv beta iota in Hr.
    destruct (truthy (prop infoDict "audioBlob") && strict_eq (prop infoDict "hasAudio") (num 1));
      [destruct (upload p) as [name|e] eqn:Hup|];
      destruct verbose;
      cbv beta iota delta [effect bind ret when showError] in Hr;
      cbn [spreadsheetId OnomatopoeiaSheet world count_upload note] in Hr;
      lazymatch type of Hr with
      | context [service ?a ?b ?c ?d] => destruct (service a b c d) as [[j|e'] w1]
      end;
      subst r; cbn;
      repeat (split; [reflexivity|]);
      (split; [events_done|]); first [split; reflexivity | split; [reflexivity|eauto]].
  - subst r. cbn. repeat (split; [reflexivity|]). split; [events_done|split; reflexivity].
Qed.


Lemma saveOnomatopoeia_invalid (infoDict : gmap string Value) (verbose : bool) (p : Page)
    (msg : string) :
  validateOnomatopoeiaData (texts p) infoDict = Return (Some msg) ->
  saveOnomatopoeia infoDict verbose p
    = (Throw (newError msg), if verbose then note (ShowError msg) p else p).
Proof.
  intros Hval. unfold saveOnomatopoeia, bind at 1, gets at 1. cbv beta iota.
  rewrite Hval. destruct verbose; reflexivity.
Qed.

Lemma skip_all_white_space (s : string) :
  all_white_space s = true -> skip_spaces s = EmptyString.
Proof.
  induction s as [|c r IH]; [reflexivity|].
  unfold all_white_space. cbn [list_ascii_of_string forallb skip_spaces].
  intros H. apply andb_true_iff in H. destruct H as [-> Hr]. apply IH. exact Hr.
Qed.

(** A string of white space only is blank for [trim]. *)
Lemma trim_all_white_space (s : string) :
  all_white_space s = true -> trim s = EmptyString.
Proof.
  intros H. unfold trim. rewrite (skip_all_white_space s H). reflexivity.
Qed.

Lemma incomplete_form_invalid (p : Page) (movement startTime endTime : string)
    (recording : option Value) :
  all_white_space movement = true \/
  startTime = EmptyString \/ startTime = "-.--" \/
  endTime = EmptyString \/ endTime = "-.--" ->
  exists msg,
    validateOnomatopoeiaData (texts p) (saveInfo p movement startTime endTime recording)
      = Return (Some msg).
Proof.
  intros Hgiven.
  assert (Hform : String.eqb (trim movement) EmptyString = true \/
                  startTime = EmptyString \/ startTime = "-.--" \/
                  endTime = EmptyString \/ endTime = "-.--").
  { destruct Hgiven as [Hwhite | Hrest]; [left|right; exact Hrest].
    rewrite (trim_all_white_space movement Hwhite). reflexivity. }
  clear Hgiven.
  set (info := saveInfo p movement startTime endTime recording).
  assert (Hm : prop info "movement" = or_else (VStr (trim movement)) (VStr EmptyString)).
  { unfold prop, info, saveInfo.
    repeat first [rewrite lookup_insert_eq | rewrite lookup_insert_ne by discriminate].
    reflexivity. }
  assert (Hs : prop info "startTime" = or_else (VStr startTime) (VStr "-.--")).
  { unfold prop, info, saveInfo.
    repeat first [rewrite lookup_insert_eq | rewrite lookup_insert_ne by discriminate].
    reflexivity. }
  assert (He : prop info "endTime" = or_else (VStr endTime) (VStr "-.--")).
  { unfold prop, info, saveInfo.
    repeat first [rewrite lookup_insert_eq | rewrite lookup_insert_ne by discriminate].
    reflexivity. }
  unfold validateOnomatopoeiaData. rewrite Hm, Hs, He. clearbody info.
  unfold or_else. cbn [truthy].
  destruct (String.eqb (trim movement) EmptyString) eqn:Hblank;
    cbn [negb truthy String.eqb]; rewrite ?Hblank; cbn [negb].
  { solve [cbv beta iota zeta; eauto]. }
  destruct (String.eqb (trim (trim movement)) EmptyString); [solve [cbv beta iota zeta; eauto]|].
  destruct Hform as [Hf | Hform]; [congruence|].
  assert (Hdash : forall t, t = EmptyString \/ t = "-.--" ->
            strict_eq (if negb (String.eqb t EmptyString) then VStr t else VStr "-.--")
                      (VStr "-.--") = true).
  { intros t [-> | ->]; reflexivity. }
  destruct (strict_eq (if negb (String.eqb startTime EmptyString) then VStr startTime
                       else VStr "-.--") (VStr "-.--")) eqn:Hstart;
    [solve [cbv beta iota zeta; eauto]|].
  destruct (strict_eq (if negb (String.eqb endTime EmptyString) then VStr endTime
                       else VStr "-.--") (VStr "-.--")) eqn:Hend;
    [solve [cbv beta iota zeta; eauto]|].
  exfalso. destruct Hform as [H | [H | H]].
  - pose proof (Hdash startTime (or_introl H)) as Hd. congruence.
  - pose proof (Hdash startTime (or_intror H)) as Hd. congruence.
  - pose proof (Hdash endTime H) as Hd. congruence.
Qed.

(** A form whose description is empty or white space only (space, tab,
    line feed, vertical tab, form feed, carriage return), or without a
    start or an end time, is not sent: [handleSaveOnomatopoeia] returns
    without a request to the sheet, without an upload, and without
    touching the saved descriptions; it logs the failure and does not
    reset the display. *)
Theorem incomplete_form_is_not_sent (p : Page) (movement startTime endTime : string)
    (recording : option Value) :
  all_white_space movement = true \/
  startTime = EmptyString \/ startTime = "-.--" \/
  endTime = EmptyString \/ endTime = "-.--" ->
  let r := handleSaveOnomatopoeia movement startTime endTime recording p in
  fst r = Return tt /\
  world (snd r) = world p /\ uploads (snd r) = uploads p /\
  filteredData (snd r) = filteredData p /\ localStorage (snd r) = localStorage p /\
  exists events,
    ui (snd r) = (ui p ++ events)%list /\
    In (ConsoleError "Error saving onomatopoeia:") events /\
    ~ In ResetDisplay events /\ (forall text, ~ In (ShowSuccess text) events).
Proof.
  intros Hform. cbv zeta.
  destruct (incomplete_form_invalid p movement startTime endTime recording Hform)
    as [msg Hval].
  remember (handleSaveOnomatopoeia movement startTime endTime recording p) as r eqn:Hr.
  unfold handleSaveOnomatopoeia, try_catch, bind at 1, gets at 1 in Hr.
  cbv beta iota in Hr. unfold bind at 1 in Hr.
  rewrite (saveOnomatopoeia_invalid _ true p msg Hval) in Hr.
  cbv beta iota in Hr.
  unfold bind, gets, effect, when, showError, ret in Hr. cbv beta iota in Hr.
  cbn [messageDisplay texts note] in Hr.
  destruct (messageDisplay p); subst r; cbn;
    repeat (split; [reflexivity|]);
    (eexists; split; [rewrite <- ?app_assoc; reflexivity|]);
    (split; [cbn; tauto|]);
    (split; [cbn; intuition discriminate|]);
    intros text; cbn; intuition discriminate.
Qed.

(** Uploading the recording is best effort: for a valid description with
    a recording the upload is tried once, before the sheet is called; when
    it fails the failure is logged and the description is still sent, with
    an empty file name, and kept when the sheet accepts it. *)
Theorem audio_upload_is_best_effort (infoDict : gmap string Value) (verbose : bool)
    (p : Page) :
  validateOnomatopoeiaData (texts p) infoDict = Return None ->
  truthy (prop infoDict "audioBlob") = true ->
  strict_eq (prop infoDict "hasAudio") (num 1) = true ->
  let name := match upload p with Return v => v | Throw _ => VNull end in
  let sent := onomatopoeiaData infoDict name in
  let rs := Sheets.saveOnomatopoeia Sheets.constructor (spreadsheetId p) (OnomatopoeiaSheet p)
              sent (world p) in
  let r := saveOnomatopoeia infoDict verbose p in
  uploads (snd r) = S (uploads p) /\
  world (snd r) = snd rs /\
  prop sent "audioFileName" = or_else name (VStr EmptyString) /\
  (forall e, upload p = Throw e ->
     prop sent "audioFileName" = VStr EmptyString /\
     In (ConsoleError "Audio upload failed:") (ui (snd r))) /\
  match fst rs with
  | Return _ =>
      fst r = Return tt /\
      filteredData (snd r) = (filteredData p ++ [updatedInfoDict infoDict name])%list
  | Throw e =>
      fst r = Throw e /\ filteredData (snd r) = filteredData p
  end.
Proof.
  intros Hval Hblob Hhas. cbv zeta.
  remember (saveOnomatopoeia infoDict verbose p) as r eqn:Hr.
  unfold saveOnomatopoeia, bind at 1, gets at 1 in Hr. cbv beta iota in Hr.
  rewrite Hval, Hblob, Hhas in Hr. cbv beta iota in Hr.
  change (true && true) with true in Hr. cbv iota in Hr.
  remember (Sheets.saveOnomatopoeia Sheets.constructor) as service eqn:Hservice.
  unfold bind, gets, ret, lift, effect, when, try_catch, uploadAudioFile, showError,
    showSuccess in Hr.
  cbv beta iota in Hr.
  assert (Hname : forall v, prop (onomatopoeiaData infoDict v) "audioFileName"
                            = or_else v (VStr EmptyString)).
  { intros v. unfold prop, onomatopoeiaData.
    repeat first [rewrite lookup_insert_eq | rewrite lookup_insert_ne by discriminate].
    reflexivity. }
  destruct (upload p) as [name|e] eqn:Hup;
    destruct verbose;
    cbv beta iota delta [effect bind ret when showError] in Hr;
    cbn [spreadsheetId OnomatopoeiaSheet world count_upload note] in Hr;
    lazymatch type of Hr with
    | context [service ?a ?b ?c ?d] => destruct (service a b c d) as [[j|e'] w1]
    end;
    subst r; cbn [fst snd uploads world filteredData ui note set_world set_filteredData
                  set_localStorage count_upload];
    (split; [reflexivity|]); (split; [reflexivity|]); (split; [apply Hname|]);
    (split; [|split; reflexivity]);
    intros e0 He0; try discriminate He0;
    (split; [reflexivity|]);
    rewrite ?in_app_iff; cbn; tauto.
Qed.

(** [handleSaveOnomatopoeia] never throws, and resets the display exactly
    when the description was saved: either one record, the record of the
    form, is added to the saved descriptions and the display is reset, or
    the failure is logged, nothing is added and the display is not
    reset. *)
Theorem handleSaveOnomatopoeia_resets_iff_saved (p : Page)
    (movement startTime endTime : string) (recording : option Value) :
  let r := handleSaveOnomatopoeia movement startTime endTime recording p in
  fst r = Return tt /\
  exists events,
    ui (snd r) = (ui p ++ events)%list /\
    ((In ResetDisplay events /\
      exists audioFileName,
        filteredData (snd r)
          = (filteredData p
             ++ [updatedInfoDict (saveInfo p movement startTime endTime recording)
                                 audioFileName])%list) \/
     (~ In ResetDisplay events /\
      In (ConsoleError "Error saving onomatopoeia:") events /\
      filteredData (snd r) = filteredData p /\ localStorage (snd r) = localStorage p)).
Proof.
  cbv zeta.
  set (info := saveInfo p movement startTime endTime recording).
  pose proof (saveOnomatopoeia_frame info true p) as Hframe. cbv zeta in Hframe.
  remember (handleSaveOnomatopoeia movement startTime endTime recording p) as r eqn:Hr.
  unfold handleSaveOnomatopoeia, try_catch, bind at 1, gets at 1 in Hr.
  cbv beta iota in Hr. unfold bind at 1 in Hr. fold info in Hr.
  destruct (saveOnomatopoeia info true p) as [[u|t] q].
  - cbn [fst snd] in Hframe.
    destruct Hframe as (_ & _ & _ & _ & (events & Hui & Hnone) & _ & name & Hdata).
    subst r. cbn. split; [reflexivity|].
    exists (events ++ [ResetDisplay])%list. split; [rewrite Hui, app_assoc; reflexivity|].
    left. split; [apply in_app_iff; right; left; reflexivity|].
    exists name. exact Hdata.
  - cbn [fst snd] in Hframe.
    destruct Hframe as (_ & _ & Hmd & _ & (events & Hui & Hnone) & Hdata & Hstore).
    unfold bind, gets, effect, when, showError, ret in Hr. cbv beta iota in Hr.
    cbn [messageDisplay note] in Hr.
    rewrite List.Forall_forall in Hnone.
    destruct (messageDisplay q); subst r; cbn; (split; [reflexivity|]);
      (eexists (events ++ _)%list; split;
       [rewrite Hui, <- !app_assoc; reflexivity|]);
      right;
      (split; [rewrite in_app_iff; intros [Hin | Hin];
               [destruct (Hnone _ Hin) as [Hne _]; congruence
               |cbn in Hin; intuition discriminate]|]);
      (split; [rewrite in_app_iff; right; cbn; tauto|]);
      split; assumption.
Qed.

End SurveyPage.

Section NoAnswer.

Import Js Sheets SurveyApp.

Lemma strict_eq_truthy (v : Value) : truthy v = true -> strict_eq v v = true.
Proof.
  destruct v as [| |b|[| | |q]|s|]; cbn; try discriminate; try reflexivity.
  - intros ->. reflexivity.
  - intros _. apply Qeq_bool_iff. reflexivity.
  - intros _. apply String.eqb_refl.
Qed.

Lemma valid_has_video (getText : string -> string) (infoDict : gmap string Value) :
  validateOnomatopoeiaData getText infoDict = Return None ->
  truthy (prop infoDict "video") = true.
Proof.
  unfold validateOnomatopoeiaData.
  destruct (negb (truthy (prop infoDict "movement"))); [discriminate|].
  destruct (prop infoDict "movement"); try discriminate.
  destruct (String.eqb (trim s) EmptyString); [discriminate|].
  destruct (strict_eq (prop infoDict "startTime") (VStr "-.--")); [discriminate|].
  destruct (strict_eq (prop infoDict "endTime") (VStr "-.--")); [discriminate|].
  destruct (negb (truthy (prop infoDict "participantId"))
            || negb (truthy (prop infoDict "video"))
            || negb (truthy (prop infoDict "answeredTimestamp"))) eqn:E; [discriminate|].
  intros _. apply orb_false_iff in E. destruct E as [E _].
  apply orb_false_iff in E. destruct E as [_ E]. apply negb_false_iff in E. exact E.
Qed.

Lemma kept_video (infoDict : gmap string Value) (audioFileName : Value) :
  prop (updatedInfoDict infoDict audioFileName) "video" = prop infoDict "video".
Proof.
  unfold prop, updatedInfoDict.
  rewrite lookup_delete_ne by discriminate.
  rewrite !lookup_insert_ne by discriminate. reflexivity.
Qed.

Lemma no_answer_video (q : Page) : prop (noOnomatopoeiaInfo q) "video" = currentVideoName q.
Proof.
  unfold prop, noOnomatopoeiaInfo.
  repeat first [rewrite lookup_insert_eq | rewrite lookup_insert_ne by discriminate].
  reflexivity.
Qed.

(** The [try] of [handleNoOnomatopoeia], from a page [q]. *)
Lemma no_answer_attempt (q : Page) (r : Completion unit * Page) :
  r = try_catch
        (bind (gets (fun p => p)) (fun p0 =>
           bind (when (Nat.eqb (length (filter
                         (fun item => strict_eq (prop item "video") (currentVideoName p0) = true)
                         (filteredData p0))) 0)
                      (saveOnomatopoeia (noOnomatopoeiaInfo p0) false))
                (fun _ => bind (effect (note ResetDisplay)) (fun _ => goToNextVideo))))
        (fun _ => effect (note (ConsoleError "Error saving 'no' response:"))) q ->
  fst r = Return tt /\
  exists events,
    ui (snd r) = (ui q ++ events)%list /\
    (In GoToNextVideo events ->
       exists item, In item (filteredData (snd r)) /\
                    strict_eq (prop item "video") (currentVideoName q) = true) /\
    (~ In GoToNextVideo events -> currentVideoName (snd r) = currentVideoName q).
Proof.
  intros Hr.
  unfold try_catch, bind at 1, gets at 1 in Hr. cbv beta iota in Hr.
  unfold bind at 1 in Hr.
  destruct (filter (fun item => strict_eq (prop item "video") (currentVideoName q) = true)
                   (filteredData q)) as [|item rest] eqn:Hfilter.
  - cbn [length Nat.eqb when] in Hr.
    pose proof (saveOnomatopoeia_frame (noOnomatopoeiaInfo q) false q) as Hframe.
    cbv zeta in Hframe.
    destruct (saveOnomatopoeia (noOnomatopoeiaInfo q) false q) as [[u|t] q1].
    + cbn [fst snd] in Hframe.
      destruct Hframe as (Hvideo & _ & _ & _ & (events & Hui & _) & Hvalid & name & Hdata).
      unfold bind, effect, goToNextVideo in Hr. cbv beta iota in Hr.
      unfold bind, effect in Hr. cbv beta iota in Hr.
      subst r. cbn [fst snd]. split; [reflexivity|].
      exists (events ++ [ResetDisplay; GoToNextVideo])%list.
      split; [|split].
      * destruct (nextVideo _); cbn; rewrite Hui, <- !app_assoc; reflexivity.
      * intros _. exists (updatedInfoDict (noOnomatopoeiaInfo q) name). split.
        -- assert (Hfd : filteredData
                     (match nextVideo (note GoToNextVideo (note ResetDisplay q1)) with
                      | Some v => set_currentVideoName (VStr v)
                                    (note GoToNextVideo (note ResetDisplay q1))
                      | None => note GoToNextVideo (note ResetDisplay q1)
                      end) = filteredData q1)
             by (destruct (nextVideo _); reflexivity).
           rewrite Hfd, Hdata. apply in_app_iff. right. left. reflexivity.
        -- rewrite kept_video, no_answer_video. apply strict_eq_truthy.
           rewrite <- no_answer_video. apply (valid_has_video (texts q)). exact Hvalid.
      * intros Hno. exfalso. apply Hno. apply in_app_iff. right. right. left. reflexivity.
    + cbn [fst snd] in Hframe.
      destruct Hframe as (Hvideo & _ & _ & _ & (events & Hui & Hnone) & _).
      unfold effect in Hr. subst r. cbn [fst snd]. split; [reflexivity|].
      exists (events ++ [ConsoleError "Error saving 'no' response:"])%list.
      split; [cbn; rewrite Hui, <- app_assoc; reflexivity|]. split.
      * intros Hin. exfalso. apply in_app_iff in Hin. destruct Hin as [Hin | [Hin | []]].
        -- rewrite List.Forall_forall in Hnone. destruct (Hnone _ Hin) as [_ Hne].
           congruence.
        -- discriminate Hin.
      * intros _. exact Hvideo.
  - cbn [length Nat.eqb when] in Hr.
    unfold ret, bind, effect, goToNextVideo in Hr. cbv beta iota in Hr.
    unfold bind, effect in Hr. cbv beta iota in Hr.
    subst r. cbn [fst snd]. split; [reflexivity|].
    exists [ResetDisplay; GoToNextVideo]. split; [|split].
    + destruct (nextVideo _); cbn; rewrite <- !app_assoc; reflexivity.
    + intros _. exists item.
      assert (Hel : item ∈ filter
                (fun it => strict_eq (prop it "video") (currentVideoName q) = true)
                (filteredData q)) by (rewrite Hfilter; left).
      apply list_elem_of_filter in Hel. destruct Hel as [Hmatch Hel].
      split; [|exact Hmatch].
      assert (Hfd : filteredData
                (match nextVideo (note GoToNextVideo (note ResetDisplay q)) with
                 | Some v => set_currentVideoName (VStr v)
                               (note GoToNextVideo (note ResetDisplay q))
                 | None => note GoToNextVideo (note ResetDisplay q)
                 end) = filteredData q)
        by (destruct (nextVideo _); reflexivity).
      rewrite Hfd. apply list_elem_of_In. exact Hel.
    + intros Hno. exfalso. apply Hno. right. left. reflexivity.
Qed.

(** [handleNoOnomatopoeia] never throws, and leaves the video only with a
    record for it: when it moves on to the next video, the saved
    descriptions hold a record of the video that was current (one that
    was there, or the 'no' record just saved); when saving fails it stays
    on the video. *)
Theorem no_answer_leaves_video_only_with_record (p : Page) :
  let r := handleNoOnomatopoeia p in
  fst r = Return tt /\
  exists events,
    ui (snd r) = (ui p ++ events)%list /\
    (In GoToNextVideo events ->
       exists item, In item (filteredData (snd r)) /\
                    strict_eq (prop item "video") (currentVideoName p) = true) /\
    (~ In GoToNextVideo events -> currentVideoName (snd r) = currentVideoName p).
Proof.
  cbv zeta.
  remember (handleNoOnomatopoeia p) as r eqn:Hr.
  unfold handleNoOnomatopoeia, bind at 1, gets at 1 in Hr. cbv beta iota in Hr.
  unfold bind at 1 in Hr.
  destruct (messageDisplay p); cbn [when] in Hr.
  - unfold effect at 1 in Hr. unfold bind at 1, gets at 1 in Hr. cbv beta iota in Hr.
    change (currentButton (note ClearMessage p)) with (currentButton p) in Hr.
    destruct (currentButton p).
    + destruct (no_answer_attempt (note ClearMessage p) r Hr)
        as (Hret & events & Hui & Hmoved & Hstay).
      split; [exact Hret|]. exists (ClearMessage :: events). split; [|split].
      * rewrite Hui. cbn. rewrite <- app_assoc. reflexivity.
      * intros [Hin | Hin]; [discriminate Hin|]. apply Hmoved. exact Hin.
      * intros Hno. apply Hstay. intros Hin. apply Hno. right. exact Hin.
    + subst r. cbn. split; [reflexivity|]. exists [ClearMessage].
      split; [reflexivity|]. split; [intros [H | []]; discriminate H|reflexivity].
  - unfold ret at 1 in Hr. unfold bind at 1, gets at 1 in Hr. cbv beta iota in Hr.
    destruct (currentButton p).
    + apply (no_answer_attempt p r Hr).
    + subst r. cbn. split; [reflexivity|]. exists [].
      split; [symmetry; apply app_nil_r|]. split; [intros []|reflexivity].
Qed.

End NoAnswer.

(** A form with two spaces for text, on the sample page. *)
Lemma incomplete_form_is_not_sent_witness :
  let r := SurveyApp.handleSaveOnomatopoeia "  " "1.00" "2.00" None SurveyApp.sample_page in
  fst r = Js.Return tt /\
  Sheets.requests (SurveyApp.world (snd r)) = [] /\
  SurveyApp.filteredData (snd r) = [].
Proof.
  intros r.
  destruct (incomplete_form_is_not_sent SurveyApp.sample_page "  " "1.00" "2.00" None)
    as (Hret & Hworld & _ & Hdata & _).
  - left. reflexivity.
  - split; [exact Hret|]. split.
    + subst r. rewrite Hworld. reflexivity.
    + exact Hdata.
Defined.

(** A description with a recording, on the sample page, whose upload is
    refused. *)
Lemma audio_upload_is_best_effort_witness :
  let info := SurveyApp.saveInfo SurveyApp.sample_page "don" "1.00" "2.00" (Some Js.VBlob) in
  let r := SurveyApp.saveOnomatopoeia info true SurveyApp.sample_page in
  SurveyApp.uploads (snd r) = 1%nat /\
  Sheets.prop (SurveyApp.onomatopoeiaData info Js.VNull) "audioFileName"
    = Js.VStr EmptyString.
Proof.
  intros info r.
  destruct (audio_upload_is_best_effort info true SurveyApp.sample_page)
    as (Huploads & _ & _ & Hfail & _).
  - vm_compute. reflexivity.
  - reflexivity.
  - reflexivity.
  - split; [exact Huploads|].
    destruct (Hfail (Js.newError "upload refused") eq_refl) as [Hname _]. exact Hname.
Defined.

(* ===================================================================== *)
(** * Properties of the video buttons                                   *)
(* ===================================================================== *)

Section Videos.

Import Js Sheets SurveyApp VideoButtons.

Lemma contains_slash_app (prefix name : string) :
  contains "/" (prefix ++ String "/" name) = true.
Proof.
  induction prefix as [|c prefix IH]; [reflexivity|].
  change (String c prefix ++ String "/" name) with (String c (prefix ++ String "/" name)).
  cbn [contains]. rewrite IH. apply orb_true_r.
Qed.

Lemma pop_split_after_slash (prefix name : string) :
  contains "/" name = false -> pop_split (prefix ++ String "/" name) = name.
Proof.
  intros Hname. induction prefix as [|c prefix IH].
  - change (pop_split (String "/" name) = name). cbn [pop_split]. rewrite Hname. reflexivity.
  - change (String c prefix ++ String "/" name) with (String c (prefix ++ String "/" name)).
    cbn [pop_split]. rewrite contains_slash_app. exact IH.
Qed.

Lemma pop_split_no_slash (s : string) : contains "/" (pop_split s) = false.
Proof.
  induction s as [|c rest IH]; [reflexivity|].
  cbn [pop_split]. destruct (contains "/" rest) eqn:Hrest; [exact IH|].
  destruct (Ascii.eqb c "/") eqn:Hc; [exact Hrest|].
  cbn [contains has_prefix]. rewrite Hrest, Ascii.eqb_sym, Hc. reflexivity.
Qed.

(** The name that [setActiveVideo] reports never contains a slash; for a
    button made by [createVideoButtons] from a video name without slash
    it is that name, so the page is told the name as the sheet of
    selected videos has it. *)
Theorem video_button_reports_its_name (videoName : string) (vm : Player) :
  contains "/" videoName = false ->
  videoPlayer vm = true ->
  (forall videoSrc name src,
     snd (setActiveVideo videoSrc vm) = Some (name, src) ->
     contains "/" name = false /\ src = videoSrc) /\
  setActiveVideo (dataset_video videoName) vm
    = ({| videoPlayer := true;
          currentVideo := VStr (dataset_video videoName);
          currentVideoName := VStr videoName |},
       Some (videoName, dataset_video videoName)).
Proof.
  intros Hname Hplayer. split.
  - intros videoSrc name src. unfold setActiveVideo.
    destruct (String.eqb videoSrc EmptyString || negb (videoPlayer vm)); [discriminate|].
    cbn [snd]. intros [= <- <-]. split; [apply pop_split_no_slash|reflexivity].
  - unfold setActiveVideo. rewrite Hplayer.
    change (dataset_video videoName) with ("videos" ++ String "/" videoName).
    rewrite (pop_split_after_slash "videos" videoName Hname). reflexivity.
Qed.

(** The state of a video button: a record without [onomatopoeia]
    property counts as an actual description, and no record that the page
    keeps or loads has that property (a record has its text under
    [movement]).  So a video with a record, even the 'no' record, is
    shown as completed, and the state for 'no description in this video'
    is never shown. *)
Theorem no_answer_is_shown_completed :
  (forall p audioFileName,
     updatedInfoDict (noOnomatopoeiaInfo p) audioFileName !! "onomatopoeia" = None) /\
  (forall p movement startTime endTime recording audioFileName,
     updatedInfoDict (saveInfo p movement startTime endTime recording) audioFileName
       !! "onomatopoeia" = None) /\
  (forall row, transformRowToObject row onomatopoeiaMapping !! "onomatopoeia" = None) /\
  (forall videoName data,
     (forall item, In item data -> item !! "onomatopoeia" = None) ->
     determineState videoName data <> Some "no-onomatopoeia" /\
     (determineState videoName data = Some "completed" <->
      exists item, In item data /\ strict_eq (prop item "video") (VStr videoName) = true)).
Proof.
  refine (conj _ (conj _ (conj _ _))).
  - intros p name. unfold updatedInfoDict, noOnomatopoeiaInfo.
    rewrite lookup_delete_ne by discriminate.
    rewrite !lookup_insert_ne by discriminate. apply lookup_empty.
  - intros p movement startTime endTime recording name. unfold updatedInfoDict, saveInfo.
    rewrite lookup_delete_ne by discriminate.
    rewrite !lookup_insert_ne by discriminate. apply lookup_empty.
  - intros row. unfold transformRowToObject.
    destruct (collect_lookup row onomatopoeiaMapping ∅ "onomatopoeia")
      as [[_ Hsame] | (i & Hi & _)].
    + rewrite Hsame. apply lookup_empty.
    + exfalso. cbn in Hi. intuition discriminate.
  - intros videoName data Hnone. unfold determineState.
    destruct (List.filter (fun item => strict_eq (prop item "video") (VStr videoName)) data)
      as [|item rest] eqn:Hfilter.
    + split; [discriminate|]. split; [discriminate|].
      intros (item & Hin & Hvideo).
      assert (Hel : In item (List.filter
                (fun item => strict_eq (prop item "video") (VStr videoName)) data))
        by (apply filter_In; auto).
      rewrite Hfilter in Hel. destruct Hel.
    + assert (Hel : In item (List.filter
                (fun item => strict_eq (prop item "video") (VStr videoName)) data))
        by (rewrite Hfilter; left; reflexivity).
      apply filter_In in Hel. destruct Hel as [Hin Hvideo].
      assert (Hp : prop item "onomatopoeia" = VUndefined)
        by (unfold prop; rewrite (Hnone item Hin); reflexivity).
      cbn [existsb]. rewrite Hp. cbn [strict_eq negb orb].
      split; [discriminate|]. split; [|reflexivity]. intros _. eauto.
Qed.

End Videos.

(** The first video of the sheet of selected videos. *)
Lemma video_button_reports_its_name_witness :
  snd (VideoButtons.setActiveVideo (VideoButtons.dataset_video "1.mp4")
         (VideoButtons.mkPlayer true Js.VNull Js.VNull))
    = Some ("1.mp4", "videos/1.mp4").
Proof.
  destruct (video_button_reports_its_name "1.mp4"
              (VideoButtons.mkPlayer true Js.VNull Js.VNull)) as [_ Hset].
  - reflexivity.
  - reflexivity.
  - rewrite Hset. reflexivity.
Defined.
